(** * dom-to-image-more: a shallow embedding of the snapshot-and-inline pipeline

    The development follows [src/dom-to-image-more.js]: the host builtins the
    script relies on (strings, numbers, regular expressions, promises), then
    the script's own functions under their own names ([util], [inliner],
    the cloner and the public entry points), then the properties. *)

From Stdlib Require Import String Ascii List Bool Arith ZArith Lia Floats DecimalString.
From Stdlib Require Import DecimalPos DecimalN.
Import ListNotations.
#[local] Set Warnings "-register-all".
Local Open Scope list_scope.
Local Open Scope string_scope.

(* ================================================================== *)
(** ** Host builtins: strings and numbers *)

Module Js.

(** A JavaScript string is modelled by the sequence of its code units; the
    script only ever inspects ASCII punctuation in them. *)

Definition chr (c : ascii) : string := String c EmptyString.

(** [dropPrefix p s] is [Some rest] when [s = p ++ rest]. *)
Fixpoint dropPrefix (p s : string) : option string :=
  match p with
  | EmptyString => Some s
  | String a p' =>
      match s with
      | EmptyString => None
      | String b s' => if Ascii.eqb a b then dropPrefix p' s' else None
      end
  end.

Definition startsWith (p s : string) : bool :=
  match dropPrefix p s with Some _ => true | None => false end.

(** [s.indexOf(c) !== -1] for a one-character needle. *)
Fixpoint includesChar (c : ascii) (s : string) : bool :=
  match s with
  | EmptyString => false
  | String a s' => Ascii.eqb a c || includesChar c s'
  end.

(** [s.split(/c/)] for a one-character separator pattern: the pieces
    between the separators, in order; never the empty list. *)
Fixpoint split (c : ascii) (s : string) : list string :=
  match s with
  | EmptyString => [EmptyString]
  | String a s' =>
      if Ascii.eqb a c then EmptyString :: split c s'
      else match split c s' with
           | piece :: pieces => String a piece :: pieces
           | [] => [chr a]
           end
  end.

(** [s.replace(p, r)] with a string pattern: the first occurrence only. *)
Fixpoint replaceFirst (p r s : string) : string :=
  match dropPrefix p s with
  | Some rest => r ++ rest
  | None =>
      match s with
      | EmptyString => EmptyString
      | String a s' => String a (replaceFirst p r s')
      end
  end.

(** [toLowerCase] on the letters A to Z.  The script lowers a text only to
    look it up among the members of [mimes], whose names are spelled in a to
    z, digits and underscores and hold no k, the one such character that a
    character outside A to Z lowers to (the Kelvin sign). *)
Definition lowerChar (c : ascii) : ascii :=
  let n := nat_of_ascii c in
  if (65 <=? n)%nat && (n <=? 90)%nat then ascii_of_nat (n + 32) else c.

Fixpoint toLowerCase (s : string) : string :=
  match s with
  | EmptyString => EmptyString
  | String a s' => String (lowerChar a) (toLowerCase s')
  end.

(** Truthiness of a string: every string but the empty one. *)
Definition truthyString (s : string) : bool :=
  match s with EmptyString => false | _ => true end.

(** A value that is a string or [undefined], and its conversion by [+]. *)
Definition toStr (v : option string) : string :=
  match v with Some s => s | None => "undefined" end.

Definition truthy (v : option string) : bool :=
  match v with Some s => truthyString s | None => false end.

(** Decimal text of a non-negative integer, as [String(n)] gives it. *)
Definition intToString (n : N) : string :=
  NilZero.string_of_uint (N.to_uint n).

(** *** Numbers: IEEE 754 binary64, as the kernel computes them *)

Definition number := float.

(** [ToBoolean] on a number: false exactly for [NaN], [+0] and [-0]. *)
Definition truthyNumber (x : number) : bool :=
  negb (PrimFloat.is_nan x || PrimFloat.is_zero x).

Definition isDigit (c : ascii) : bool :=
  let n := nat_of_ascii c in (48 <=? n)%nat && (n <=? 57)%nat.

Definition digitValue (c : ascii) : Z := Z.of_nat (nat_of_ascii c - 48).

(** Longest run of decimal digits at the head of [s]: the digits read as
    an integer on top of [acc], how many there were, and the rest. *)
Fixpoint digits (s : string) (acc : Z) (count : nat) : Z * nat * string :=
  match s with
  | String c s' =>
      if isDigit c then digits s' (10 * acc + digitValue c)%Z (S count)
      else (acc, count, s)
  | EmptyString => (acc, count, s)
  end.

Definition isWhiteSpace (c : ascii) : bool :=
  let n := nat_of_ascii c in
  (n =? 32)%nat || ((9 <=? n)%nat && (n <=? 13)%nat).

Fixpoint trimStart (s : string) : string :=
  match s with
  | String c s' => if isWhiteSpace c then trimStart s' else s
  | EmptyString => s
  end.

(** Number of binary digits of a non-negative integer. *)
Definition bits (z : Z) : Z := Z.log2 z + 1.

(** The binary64 value nearest to [m * 10^e10] (ties to even), [m >= 0].
    A non-negative power of ten keeps the value an integer, which
    [binary_normalize] rounds; for a negative one the quotient is taken to
    64 significant bits and the remainder kept as a sticky last bit. *)
Definition ofDecimal (neg : bool) (m e10 : Z) : number :=
  let signed (z : Z) := if neg then Z.opp z else z in
  if (m =? 0)%Z then (if neg then neg_zero else zero)
  else if (0 <=? e10)%Z then
    SF2Prim (binary_normalize prec emax (signed (m * 10 ^ e10)%Z) 0 neg)
  else
    let d := (10 ^ (- e10))%Z in
    let n := Z.max 0 (64 + bits d - bits m) in
    let q := (m * 2 ^ n / d)%Z in
    let sticky := if (m * 2 ^ n mod d =? 0)%Z then 0%Z else 1%Z in
    SF2Prim (binary_normalize prec emax (signed (2 * q + sticky)%Z) (- (n + 1)) neg).

(** The exponent part [e[+-]ddd] at the head of [s], or 0 when the text
    there is not one. *)
Definition exponentPart (s : string) : Z :=
  match s with
  | String c s' =>
      if Ascii.eqb c "e" || Ascii.eqb c "E" then
        let '(neg, s'') :=
          match s' with
          | String "-" t => (true, t)
          | String "+" t => (false, t)
          | _ => (false, s')
          end in
        let '(e, k, _) := digits s'' 0%Z 0 in
        match k with
        | O => 0%Z
        | _ => if neg then Z.opp e else e
        end
      else 0%Z
  | EmptyString => 0%Z
  end.

(** [parseFloat(s)]: leading white space is skipped, then the longest
    prefix that is a decimal literal is read; [NaN] when there is none. *)
Definition parseFloat (s : string) : number :=
  let s0 := trimStart s in
  let '(neg, s1) :=
    match s0 with
    | String "-" t => (true, t)
    | String "+" t => (false, t)
    | _ => (false, s0)
    end in
  if startsWith "Infinity" s1 then (if neg then neg_infinity else infinity)
  else
    let '(ip, ni, s2) := digits s1 0%Z 0 in
    match s2 with
    | String "." t =>
        let '(m, nf, s3) := digits t ip 0 in
        match ni, nf with
        | O, O => nan
        | _, _ => ofDecimal neg m (exponentPart s3 - Z.of_nat nf)
        end
    | _ =>
        match ni with
        | O => nan
        | _ => ofDecimal neg ip (exponentPart s2)
        end
    end.

(** [String(x)]: an integer in the safe range prints its digits; the
    host is asked for every other finite number. *)
Definition safeInteger (x : number) : option Z :=
  match Prim2SF x with
  | S754_zero _ => Some 0%Z
  | S754_finite neg m e =>
      let magnitude :=
        if (0 <=? e)%Z then Some (Zpos m * 2 ^ e)%Z
        else if (Zpos m mod 2 ^ (- e) =? 0)%Z then Some (Zpos m / 2 ^ (- e))%Z
        else None in
      match magnitude with
      | Some z => if (z <=? 2 ^ 53)%Z then Some (if neg then Z.opp z else z) else None
      | None => None
      end
  | _ => None
  end.

Definition numberToString (fraction : number -> string) (x : number) : string :=
  if PrimFloat.is_nan x then "NaN"
  else if PrimFloat.eqb x infinity then "Infinity"
  else if PrimFloat.eqb x neg_infinity then "-Infinity"
  else
    match safeInteger x with
    | Some z =>
        if (z <? 0)%Z then "-" ++ intToString (Z.to_N (Z.opp z))
        else intToString (Z.to_N z)
    | None => fraction x
    end.

(** The conversion of a number to an [unsigned long], as an attribute of
    that type converts what is assigned to it: [NaN], the infinities and
    the zeros give 0; any other number is truncated towards zero and taken
    modulo 2^32. *)
Definition toUnsignedLong (x : number) : Z :=
  match Prim2SF x with
  | S754_finite neg m e =>
      let magnitude := Z.shiftl (Zpos m) e in
      ((if neg then Z.opp magnitude else magnitude) mod 2 ^ 32)%Z
  | _ => 0%Z
  end.

End Js.

(* ================================================================== *)
(** ** Host builtins: regular expressions *)

Module RegExp.

(** The patterns the script uses, as syntax trees.  The two lazy
    quantifiers only ever apply to a character class. *)
Inductive regex :=
| Chars (s : string)                     (* literal characters *)
| Class (p : ascii -> bool)              (* one character of a class *)
| Seq (r1 r2 : regex)
| Alt (r1 r2 : regex)                    (* r1|r2 *)
| Opt (r : regex)                        (* r?  (greedy) *)
| LazyStar (p : ascii -> bool)           (* [class]*? *)
| LazyPlus (p : ascii -> bool)           (* [class]+? *)
| Group (n : nat) (r : regex)            (* the n-th capturing group *)
| Bol                                    (* ^ *)
| Eol.                                   (* $ *)

Definition Captures := list (nat * string).

(** A successful attempt: the index just after the match, the text from
    there on, and the groups. *)
Definition Attempt : Type := nat * string * Captures.
Definition Continuation : Type := nat -> string -> Captures -> option Attempt.

Fixpoint take (n : nat) (s : string) : string :=
  match n, s with
  | S n', String c s' => String c (take n' s')
  | _, _ => EmptyString
  end.

(** [p*?] before the continuation [k]: the shortest run first. *)
Fixpoint lazyStar (p : ascii -> bool) (i : nat) (s : string) (caps : Captures)
         (k : Continuation) : option Attempt :=
  match k i s caps with
  | Some a => Some a
  | None =>
      match s with
      | String c s' => if p c then lazyStar p (S i) s' caps k else None
      | EmptyString => None
      end
  end.

(** Backtracking matcher in continuation-passing style: [s] is the text
    from index [i] on, and alternatives are tried in the order the
    pattern gives them. *)
Fixpoint run (r : regex) (i : nat) (s : string) (caps : Captures)
         (k : Continuation) {struct r} : option Attempt :=
  match r with
  | Chars lit =>
      match Js.dropPrefix lit s with
      | Some rest => k (i + String.length lit) rest caps
      | None => None
      end
  | Class p =>
      match s with
      | String c s' => if p c then k (S i) s' caps else None
      | EmptyString => None
      end
  | Seq r1 r2 => run r1 i s caps (fun j s' caps' => run r2 j s' caps' k)
  | Alt r1 r2 =>
      match run r1 i s caps k with
      | Some a => Some a
      | None => run r2 i s caps k
      end
  | Opt r1 =>
      match run r1 i s caps k with
      | Some a => Some a
      | None => k i s caps
      end
  | LazyStar p => lazyStar p i s caps k
  | LazyPlus p =>
      match s with
      | String c s' => if p c then lazyStar p (S i) s' caps k else None
      | EmptyString => None
      end
  | Group n r1 =>
      run r1 i s caps (fun j s' caps' => k j s' ((n, take (j - i) s) :: caps'))
  | Bol => match i with O => k i s caps | S _ => None end
  | Eol => match s with EmptyString => k i s caps | String _ _ => None end
  end.

(** One attempt at index [i]. *)
Definition matchAt (r : regex) (i : nat) (s : string) : option Attempt :=
  run r i s [] (fun j s' caps => Some (j, s', caps)).

(** A match: where it starts, its text, the text after it, its groups. *)
Record Match := mkMatch {
  index : nat;
  matched : string;
  after : string;
  captures : Captures
}.

Fixpoint capture (caps : Captures) (n : nat) : option string :=
  match caps with
  | [] => None
  | (m, s) :: caps' => if Nat.eqb m n then Some s else capture caps' n
  end.

(** [match[n]] of a match array. *)
Definition group (m : Match) (n : nat) : option string := capture (captures m) n.

Definition attemptAt (r : regex) (i : nat) (s : string) : option Match :=
  match matchAt r i s with
  | Some (j, rest, caps) => Some (mkMatch i (take (j - i) s) rest caps)
  | None => None
  end.

(** The leftmost match at or after index [i]: [exec] on a pattern whose
    [lastIndex] is [i], and [search] for [i = 0]. *)
Fixpoint execFrom (r : regex) (i : nat) (s : string) : option Match :=
  match attemptAt r i s with
  | Some m => Some m
  | None =>
      match s with
      | String _ s' => execFrom r (S i) s'
      | EmptyString => None
      end
  end.

Definition exec (r : regex) (s : string) : option Match := execFrom r 0 s.

(** [s.search(r) !== -1], and [r.test(s)] on a pattern without flags. *)
Definition test (r : regex) (s : string) : bool :=
  match exec r s with Some _ => true | None => false end.

(** What a global pass leaves of a string: the characters no match
    covers, and the matches, from left to right. *)
Inductive Piece :=
| Plain (c : ascii)
| Hit (m : Match).

(** A pass with the [g] flag: each match is the leftmost one that starts
    where the previous one ended or later; [skip] counts the characters
    still covered by the last match.  An empty match moves on by one
    character. *)
Fixpoint pieces (r : regex) (i : nat) (s : string) (skip : nat) : list Piece :=
  match skip with
  | S skip' =>
      match s with
      | String _ s' => pieces r (S i) s' skip'
      | EmptyString => []
      end
  | O =>
      match attemptAt r i s with
      | Some m =>
          match s with
          | String c s' =>
              match String.length (matched m) with
              | O => Hit m :: Plain c :: pieces r (S i) s' 0
              | S n => Hit m :: pieces r (S i) s' n
              end
          | EmptyString => [Hit m]
          end
      | None =>
          match s with
          | String c s' => Plain c :: pieces r (S i) s' 0
          | EmptyString => []
          end
      end
  end.

(** The matches of a loop [while ((m = r.exec(s)) !== null)] on a global
    pattern (none of the script's patterns matches the empty string). *)
Definition matchAll (r : regex) (s : string) : list Match :=
  flat_map (fun p => match p with Hit m => [m] | Plain _ => [] end) (pieces r 0 s 0).

Fixpoint groupCount (r : regex) : nat :=
  match r with
  | Seq r1 r2 | Alt r1 r2 => Nat.max (groupCount r1) (groupCount r2)
  | Opt r1 => groupCount r1
  | Group n r1 => Nat.max n (groupCount r1)
  | _ => 0
  end.

Definition digitOf (c : ascii) : option nat :=
  if Js.isDigit c then Some (nat_of_ascii c - 48) else None.

Definition captured (m : Match) (n : nat) : string :=
  match group m n with Some s => s | None => EmptyString end.

(** [GetSubstitution]: the replacement text for one match.  [$$] is a
    dollar, [$&] the match, [$`] and [$'] the text before and after it,
    [$n] and [$nn] a group when the pattern has that many ([groups]). *)
Fixpoint substitute (template : string) (groups : nat) (before : string)
         (m : Match) : string :=
  match template with
  | EmptyString => EmptyString
  | String c t =>
      if negb (Ascii.eqb c "$") then String c (substitute t groups before m)
      else
        match t with
        | EmptyString => String c EmptyString
        | String d1 t' =>
            if Ascii.eqb d1 "$" then String "$" (substitute t' groups before m)
            else if Ascii.eqb d1 "&" then matched m ++ substitute t' groups before m
            else if Ascii.eqb d1 "`" then before ++ substitute t' groups before m
            else if Ascii.eqb d1 "'" then after m ++ substitute t' groups before m
            else
              match digitOf d1 with
              | Some n1 =>
                  let oneDigit :=
                    if (1 <=? n1)%nat && (n1 <=? groups)%nat
                    then captured m n1 ++ substitute t' groups before m
                    else String c (substitute t groups before m) in
                  match t' with
                  | String d2 t'' =>
                      match digitOf d2 with
                      | Some n2 =>
                          let nn := 10 * n1 + n2 in
                          if (1 <=? nn)%nat && (nn <=? groups)%nat
                          then captured m nn ++ substitute t'' groups before m
                          else oneDigit
                      | None => oneDigit
                      end
                  | EmptyString => oneDigit
                  end
              | None => String c (substitute t groups before m)
              end
        end
  end.

Definition emit (r : regex) (template whole : string) (p : Piece) : string :=
  match p with
  | Plain c => Js.chr c
  | Hit m => substitute template (groupCount r) (take (index m) whole) m
  end.

(** [s.replace(r, template)] for a pattern with the [g] flag. *)
Definition replace (r : regex) (template : string) (s : string) : string :=
  String.concat EmptyString (map (emit r template s) (pieces r 0 s 0)).

(** A pattern source made of plain characters and of escaped syntax
    characters only denotes the characters it spells; [None] when a
    syntax character is left bare. *)
Definition isSyntaxChar (c : ascii) : bool :=
  Js.includesChar c ".*+?^${}()|[]/\".

Fixpoint literalSource (src : string) : option string :=
  match src with
  | EmptyString => Some EmptyString
  | String c rest =>
      if Ascii.eqb c "\" then
        match rest with
        | String c' rest' =>
            if isSyntaxChar c' then option_map (String c') (literalSource rest')
            else None
        | EmptyString => None
        end
      else if isSyntaxChar c then None
      else option_map (String c) (literalSource rest)
  end.

End RegExp.

(* ================================================================== *)
(** ** The document tree, as the host exposes it *)

(** One declaration of a style block: property name, value, priority
    (["important"] or the empty string). *)
Record Declaration := mkDeclaration {
  propName : string;
  propValue : string;
  propPriority : string
}.

(** A [CSSStyleDeclaration]: its [cssText] and its declarations in index
    order.  For a resolved style the host decides whether [cssText] is
    filled in; when it is, it is the text of exactly these declarations. *)
Record CSSStyleDeclaration := mkStyle {
  cssText : string;
  declarations : list Declaration
}.

Fixpoint getDeclaration (ds : list Declaration) (name : string) : option Declaration :=
  match ds with
  | [] => None
  | d :: ds' => if String.eqb (propName d) name then Some d else getDeclaration ds' name
  end.

Definition getPropertyValue (ds : list Declaration) (name : string) : string :=
  match getDeclaration ds name with Some d => propValue d | None => "" end.

Definition getPropertyPriority (ds : list Declaration) (name : string) : string :=
  match getDeclaration ds name with Some d => propPriority d | None => "" end.

Fixpoint removeProperty (ds : list Declaration) (name : string) : list Declaration :=
  match ds with
  | [] => []
  | d :: ds' =>
      if String.eqb (propName d) name then removeProperty ds' name
      else d :: removeProperty ds' name
  end.

Fixpoint replaceProperty (ds : list Declaration) (d : Declaration) : list Declaration :=
  match ds with
  | [] => [d]
  | d0 :: ds' =>
      if String.eqb (propName d0) (propName d) then d :: ds'
      else d0 :: replaceProperty ds' d
  end.

(** [style.setProperty(name, value, priority)]: an empty value removes the
    property, any other value replaces it in place or is added at the end.
    A block is the list of the declarations written on it, each under the
    name and with the text it was written with.  How the host parses a
    value, and how it spreads a shorthand over its longhands, is not
    modelled: a name reads what was last written under that very name. *)
Definition setProperty (ds : list Declaration) (name value priority : string)
  : list Declaration :=
  if Js.truthyString value then replaceProperty ds (mkDeclaration name value priority)
  else removeProperty ds name.

(** The element interfaces the script tests with [instanceof]. *)
Inductive Interface :=
| HTMLCanvasElement
| HTMLTextAreaElement
| HTMLInputElement
| HTMLImageElement
| HTMLElement            (* any other HTML element *)
| SVGRectElement
| SVGElement.            (* any other SVG element *)

Definition isSVGElement (i : Interface) : bool :=
  match i with SVGRectElement | SVGElement => true | _ => false end.

(** What the host holds for an element of the live document: its
    attributes and the declarations of its [style] attribute, the current
    [value] of a form control, the snapshot [toDataURL()] of a canvas, its
    scroll box, and its resolved style, the one of its [:before] and the
    one of its [:after]. *)
(** What [toDataURL()] gives on a canvas: the data URL of its pixels, or,
    when something from another origin was drawn on it, an exception. *)
Inductive Snapshot :=
| Pixels (uri : string)
| Tainted.                  (* [toDataURL()] throws a [SecurityError] *)

Record Element := mkElement {
  interface : Interface;
  attributes : list (string * string);
  inlineStyle : list Declaration;
  value : string;
  toDataURL : Snapshot;
  scrollWidth : Js.number;
  scrollHeight : Js.number;
  computedStyle : CSSStyleDeclaration;
  computedBefore : CSSStyleDeclaration;
  computedAfter : CSSStyleDeclaration
}.

(** A node of the live document: an element with its children, or a node
    that is no [Element] and has no children (text, comment). *)
Inductive Node : Type :=
| TextNode (data : string)
| ElementNode (e : Element) (children : list Node).

Definition childNodes (node : Node) : list Node :=
  match node with
  | TextNode _ => []
  | ElementNode _ children => children
  end.

(** A node of the clone tree.  [ClonedText] and [ClonedElement] are
    [node.cloneNode(false)], or the image a canvas is snapshot into, and
    carry the source node they stand for; [StyleElement] is a created
    [<style>] holding one text node; [Markup] is what the host parses out of
    a string assigned to [innerHTML]. *)
Inductive Clone : Type :=
| ClonedText (original : Node) (data : string)
| ClonedElement (original : Node) (iface : Interface) (attrs : list (string * string))
                (style : list Declaration) (children : list Clone)
| StyleElement (text : string)
| Markup (html : string).

Fixpoint getAttribute (attrs : list (string * string)) (name : string) : option string :=
  match attrs with
  | [] => None
  | (n, v) :: attrs' => if String.eqb n name then Some v else getAttribute attrs' name
  end.

Fixpoint setAttribute (attrs : list (string * string)) (name v : string)
  : list (string * string) :=
  match attrs with
  | [] => [(name, v)]
  | (n, v0) :: attrs' =>
      if String.eqb n name then (n, v) :: attrs' else (n, v0) :: setAttribute attrs' name v
  end.

(* ================================================================== *)
(** ** Options, the shared configuration and promises *)

(** The [options] argument of an entry point; [None] is [undefined]. *)
Module Options.
Record t := make {
  filter : option (Node -> bool);
  bgcolor : option string;
  width : option Js.number;
  height : option Js.number;
  style : option (list (string * string));
  quality : option Js.number;
  scale : option Js.number;
  imagePlaceholder : option string;
  cacheBust : option bool;
  useCredentials : option bool
}.

(** [options || {}] when no options are passed. *)
Definition none : t := make None None None None None None None None None None.
End Options.

(** [domtoimage.impl.options]; it starts out as [{}]. *)
Record ImplOptions := mkImplOptions {
  implImagePlaceholder : option string;
  implCacheBust : option bool;
  implUseCredentials : option bool
}.

Definition emptyImplOptions : ImplOptions := mkImplOptions None None None.

Definition defaultOptions : ImplOptions :=
  mkImplOptions None (Some false) (Some false).

(** A line on the console: [console.error(message)] or [console.log(...)]. *)
Inductive ConsoleEntry :=
| ConsoleError (message : string)
| ConsoleLog (arguments : list string).

(** What the script shares between calls: the configuration object, the
    console, and the counter captured by [util.uid]. *)
Record Realm := mkRealm {
  implOptions : ImplOptions;
  console : list ConsoleEntry;
  uidIndex : nat
}.

Definition initialRealm : Realm := mkRealm emptyImplOptions [] 0.

(** What a promise is rejected with. *)
Inductive Reason :=
| ImageError (src : string)          (* the [error] event of an image *)
| TypeError (message : string)       (* an exception thrown in a callback *)
| DOMException (name : string).      (* an exception thrown by the host *)

(** How a promise ends up; [Pending] is one that is never settled. *)
Inductive Settled (A : Type) : Type :=
| Fulfilled (a : A)
| Rejected (reason : Reason)
| Pending.
Arguments Fulfilled {A} a.
Arguments Rejected {A} reason.
Arguments Pending {A}.

(** A promise, run to its settlement on the single thread of the script. *)
Definition Promise (A : Type) : Type := Realm -> Settled A * Realm.

Definition resolve {A} (a : A) : Promise A := fun r => (Fulfilled a, r).
Definition reject {A} (reason : Reason) : Promise A := fun r => (Rejected reason, r).

(** [p.then(f)]: [f] runs on the value [p] is fulfilled with. *)
Definition andThen {A B} (p : Promise A) (f : A -> Promise B) : Promise B :=
  fun r =>
    match p r with
    | (Fulfilled a, r') => f a r'
    | (Rejected e, r') => (Rejected e, r')
    | (Pending, r') => (Pending, r')
    end.

Notation "x <- p ;; q" := (andThen p (fun x => q))
  (at level 61, p at next level, right associativity).

Definition consoleLog (arguments : list string) (r : Realm) : Realm :=
  mkRealm (implOptions r) (console r ++ [ConsoleLog arguments])%list (uidIndex r).

(** [copyOptions]: the three fields of the shared configuration are
    assigned from the call's options, or from [defaultOptions]. *)
Definition copyOptions (options : Options.t) (r : Realm) : Realm :=
  let placeholder :=
    match Options.imagePlaceholder options with
    | None => implImagePlaceholder defaultOptions
    | Some p => Some p
    end in
  let bust :=
    match Options.cacheBust options with
    | None => implCacheBust defaultOptions
    | Some b => Some b
    end in
  let credentials :=
    match Options.useCredentials options with
    | None => implUseCredentials defaultOptions
    | Some b => Some b
    end in
  mkRealm (mkImplOptions placeholder bust credentials) (console r) (uidIndex r).

(* ================================================================== *)
(** ** What the host answers *)

(** An event of an [XMLHttpRequest]: a [readystatechange] with the state,
    the status and the data URL a [FileReader] reads the response as, or a
    [timeout]. *)
Inductive XhrEvent :=
| ReadyStateChange (readyState status : N) (response : string)
| Timeout.

(** What becomes of a request: [open] or [send] throws, for instance on a
    locator that does not parse, or the request goes out and reports its
    events. *)
Inductive Exchange :=
| Throws (name : string)
| Reports (events : list XhrEvent).

(** A style rule of a sheet of the document. *)
Record CSSRule := mkRule {
  isFontFaceRule : bool;                (* [type === CSSRule.FONT_FACE_RULE] *)
  ruleStyle : list Declaration;
  ruleCssText : string;
  parentHref : option string            (* [(parentStyleSheet || {}).href] *)
}.

(** A style sheet: whether [cssRules] is an own property, and its rules,
    or the text of the exception that reading them throws. *)
Record StyleSheet := mkSheet {
  hasOwnCssRules : bool;
  sheetHref : option string;
  cssRules : list CSSRule + string
}.

Record Host := mkHost {
  getTime : N;                                 (* [(new Date()).getTime()] *)
  random : nat -> N;                           (* [Math.random() * Math.pow(36, 4) << 0], call by call *)
  request : bool -> string -> Exchange;        (* [GET url], with credentials or not *)
  imageLoads : string -> bool;                 (* an image of this source loads, or errors *)
  resolveHref : string -> string -> string;    (* [a.href] of [url] under [<base href>] *)
  baseURI : string;                            (* what a [src] is resolved against *)
  fractionToString : Js.number -> string;      (* [String(x)] beyond the safe integers *)
  styleSheets : list StyleSheet;               (* [document.styleSheets] *)
  serializeToString : Clone -> string          (* [new XMLSerializer().serializeToString] *)
}.

(* ================================================================== *)
(** ** [util] *)

Module util.

Import RegExp.

Definition WOFF := "application/font-woff".
Definition JPEG := "image/jpeg".

Definition mimes : list (string * string) :=
  [ ("woff", WOFF);
    ("woff2", WOFF);
    ("ttf", "application/font-truetype");
    ("eot", "application/vnd.ms-fontobject");
    ("png", "image/png");
    ("jpg", JPEG);
    ("jpeg", JPEG);
    ("gif", "image/gif");
    ("tiff", "image/tiff");
    ("svg", "image/svg+xml") ].

Fixpoint lookup (table : list (string * string)) (key : string) : option string :=
  match table with
  | [] => None
  | (k, v) :: table' => if String.eqb k key then Some v else lookup table' key
  end.

(** The members an object literal inherits whose names are lower case,
    as [+] turns them into text.  The text of a built-in function is the
    host's; what matters to [mimeType] is that it is not empty. *)
Definition inherited : list (string * string) :=
  [ ("constructor", "function Object() { [native code] }");
    ("__proto__", "[object Object]") ].

(** [object[key]], [undefined] when neither the literal nor its
    prototype has the key. *)
Definition member (table : list (string * string)) (key : string) : option string :=
  match lookup table key with
  | Some v => Some v
  | None => lookup inherited key
  end.

Definition notDotSlash (c : ascii) : bool :=
  negb (Ascii.eqb c "." || Ascii.eqb c "/").

(** [/\.([^\.\/]*?)(\?|$)/g] *)
Definition EXTENSION_REGEX : regex :=
  Seq (Chars ".")
      (Seq (Group 1 (LazyStar notDotSlash))
           (Group 2 (Alt (Chars "?") Eol))).

Definition parseExtension (url : string) : string :=
  match exec EXTENSION_REGEX url with
  | Some m => Js.toStr (group m 1)
  | None => ""
  end.

Definition mimeType (url : string) : string :=
  let extension := Js.toLowerCase (parseExtension url) in
  match member mimes extension with
  | Some type => if Js.truthyString type then type else ""
  | None => ""
  end.

(** [/^(data:)/] *)
Definition DATA_REGEX : regex := Seq Bol (Group 1 (Chars "data:")).

Definition isDataUrl (url : string) : bool := test DATA_REGEX url.

Definition dataAsUrl (content : option string) (type : string) : string :=
  "data:" ++ type ++ ";base64," ++ Js.toStr content.

(** [/([.*+?^${}()|\[\]\/\\])/g] *)
Definition ESCAPE_REGEX : regex := Group 1 (Class isSyntaxChar).

Definition escape (text : string) : string :=
  replace ESCAPE_REGEX "\$1" text.

Definition escapeXhtml (text : string) : string :=
  replace (Chars (Js.chr (ascii_of_nat 10))) "%0A" (replace (Chars "#") "%23" text).

(** Digits of [n] in base 36, most significant first. *)
Definition digit36 (d : N) : ascii :=
  if (d <? 10)%N then ascii_of_N (48 + d) else ascii_of_N (87 + d).

Fixpoint toString36 (fuel : nat) (n : N) (acc : string) : string :=
  match fuel with
  | O => acc
  | S fuel' =>
      let acc' := String (digit36 (n mod 36)) acc in
      if (n <? 36)%N then acc' else toString36 fuel' (n / 36) acc'
  end.

(** [s.slice(-4)] *)
Definition lastFour (s : string) : string :=
  String.substring (String.length s - 4) 4 s.

Definition fourRandomChars (host : Host) (call : nat) : string :=
  lastFour ("0000" ++ toString36 (S (N.size_nat (random host call))) (random host call) "").

(** [uid()]: ['u'], four random characters, and the counter, which is
    then incremented.  The counter also numbers the draws of
    [Math.random], which nothing else calls. *)
Definition uid (host : Host) : Promise string :=
  fun r =>
    (Fulfilled ("u" ++ fourRandomChars host (uidIndex r) ++ Js.intToString (N.of_nat (uidIndex r))),
     mkRealm (implOptions r) (console r) (S (uidIndex r))).

(** An [Image] element made by the script. *)
Record Image := mkImage {
  src : string;
  crossOrigin : option string
}.

Definition truthyFlag (b : option bool) : bool :=
  match b with Some true => true | _ => false end.

(** [makeImage]: nothing for the empty data URL; otherwise fulfilled with
    the image when it loads and rejected with its [error] event. *)
Definition makeImage (host : Host) (uri : string) : Promise (option Image) :=
  if String.eqb uri "data:," then resolve None
  else fun r =>
    let image :=
      mkImage uri (if truthyFlag (implUseCredentials (implOptions r))
                   then Some "use-credentials" else None) in
    if imageLoads host uri then (Fulfilled (Some image), r)
    else (Rejected (ImageError uri), r).

Definition TIMEOUT : N := 30000.

(** The state of the promise [getAndEncode] builds: what it was first
    resolved with, if anything yet, and the console. *)
Definition Fetch : Type := option (option string) * list ConsoleEntry.

(** [resolve(v)] settles the promise once; later calls do nothing. *)
Definition resolveWith (v : option string) (f : Fetch) : Fetch :=
  match fst f with
  | Some _ => f
  | None => (Some v, snd f)
  end.

Definition fail (message : string) (f : Fetch) : Fetch :=
  resolveWith (Some "") (fst f, (snd f ++ [ConsoleError message])%list).

(** The placeholder computed next to the handlers: the second piece of
    the configured data URL cut at its commas, when both are truthy. *)
Definition placeholderOf (o : ImplOptions) : option string :=
  match implImagePlaceholder o with
  | Some p =>
      if Js.truthyString p then
        match nth_error (Js.split "," p) 1 with
        | Some piece => if Js.truthyString piece then Some piece else None
        | None => None
        end
      else None
  | None => None
  end.

Definition done (placeholder : option string) (url : string)
           (readyState status : N) (response : string) (f : Fetch) : Fetch :=
  if negb (readyState =? 4)%N then f
  else if negb (status =? 200)%N then
    match placeholder with
    | Some p => resolveWith (Some p) f
    | None =>
        fail ("cannot fetch resource: " ++ url ++ ", status: " ++ Js.intToString status) f
    end
  else
    (* encoder.onloadend *)
    let content := nth_error (Js.split "," response) 1 in
    resolveWith content f.

Definition timeout (placeholder : option string) (url : string) (f : Fetch) : Fetch :=
  match placeholder with
  | Some p => resolveWith (Some p) f
  | None =>
      fail ("timeout of " ++ Js.intToString TIMEOUT
            ++ "ms occured while fetching resource: " ++ url) f
  end.

Definition handle (placeholder : option string) (url : string)
           (f : Fetch) (e : XhrEvent) : Fetch :=
  match e with
  | ReadyStateChange readyState status response =>
      done placeholder url readyState status response f
  | Timeout => timeout placeholder url f
  end.

(** The URL requested: with the time appended when cache busting is on. *)
Definition bustedUrl (host : Host) (o : ImplOptions) (url : string) : string :=
  if truthyFlag (implCacheBust o)
  then url ++ (if test (Chars "?") url then "&" else "?") ++ Js.intToString (getTime host)
  else url.

(** [getAndEncode]: the promise is built with [resolve] alone.  The
    request is opened and sent inside the executor, so an exception thrown
    there rejects the promise; once the request is out, the handlers run
    on its events, in order. *)
Definition getAndEncode (host : Host) (url : string) : Promise (option string) :=
  fun r =>
    let o := implOptions r in
    let url := bustedUrl host o url in
    match request host (truthyFlag (implUseCredentials o)) url with
    | Throws name => (Rejected (DOMException name), r)
    | Reports events =>
        let placeholder := placeholderOf o in
        let f := fold_left (handle placeholder url) events (None, console r) in
        let r' := mkRealm o (snd f) (uidIndex r) in
        match fst f with
        | Some v => (Fulfilled v, r')
        | None => (Pending, r')
        end
    end.

(** [px]: the resolved value of a style property, its first ["px"]
    removed, read as a number. *)
Definition px (node : Element) (styleProperty : string) : Js.number :=
  let value := getPropertyValue (declarations (computedStyle node)) styleProperty in
  Js.parseFloat (Js.replaceFirst "px" "" value).

Definition width (node : Element) : Js.number :=
  let leftBorder := px node "border-left-width" in
  let rightBorder := px node "border-right-width" in
  (scrollWidth node + leftBorder + rightBorder)%float.

Definition height (node : Element) : Js.number :=
  let topBorder := px node "border-top-width" in
  let bottomBorder := px node "border-bottom-width" in
  (scrollHeight node + topBorder + bottomBorder)%float.

End util.

(* ================================================================== *)
(** ** [inliner]: references in style text *)

Module inliner.

Import RegExp.

(** The class of the two quote characters, ['] and U+0022. *)
Definition quote (c : ascii) : bool :=
  Ascii.eqb c "'" || Ascii.eqb c (ascii_of_nat 34).
Definition notQuote (c : ascii) : bool := negb (quote c).

(** [/url\(Q?([^Q]+?)Q?\)/g], where [Q] is the class of the two quotes. *)
Definition URL_REGEX : regex :=
  Seq (Chars "url(")
      (Seq (Opt (Class quote))
           (Seq (Group 1 (LazyPlus notQuote))
                (Seq (Opt (Class quote)) (Chars ")")))).

Definition shouldProcess (text : string) : bool := test URL_REGEX text.

Definition readUrls (text : string) : list string :=
  let result := map (fun m => Js.toStr (group m 1)) (matchAll URL_REGEX text) in
  filter (fun url => negb (util.isDataUrl url)) result.

(** The pattern a source text compiles to when [util.escape] wrote it:
    the characters it spells, one by one. *)
Definition escaped (source : string) : regex :=
  match literalSource source with
  | Some text => Chars text
  | None => Class (fun _ => false)
  end.

(** The global pattern [(url\(Q?)(<escaped url>)(Q?\))]. *)
Definition urlAsRegex (url : string) : regex :=
  Seq (Group 1 (Seq (Chars "url(") (Opt (Class quote))))
      (Seq (Group 2 (escaped (util.escape url)))
           (Group 3 (Seq (Opt (Class quote)) (Chars ")")))).

(** A [get] argument, [util.getAndEncode] when there is none. *)
Definition Getter : Type := string -> Promise (option string).

Definition getter (host : Host) (get : option Getter) : Getter :=
  match get with
  | Some g => g
  | None => util.getAndEncode host
  end.

Definition inline (host : Host) (text url : string) (baseUrl : option string)
           (get : option Getter) : Promise string :=
  resolved <- resolve (if Js.truthy baseUrl
                       then resolveHref host url (Js.toStr baseUrl)
                       else url) ;;
  data <- getter host get resolved ;;
  dataUrl <- resolve (util.dataAsUrl data (util.mimeType url)) ;;
  resolve (replace (urlAsRegex url) ("$1" ++ dataUrl ++ "$3") text).

Definition inlineAll (host : Host) (text : string) (baseUrl : option string)
           (get : option Getter) : Promise string :=
  let nothingToInline := negb (shouldProcess text) in
  if nothingToInline then resolve text
  else
    urls <- resolve (readUrls text) ;;
    fold_left
      (fun done url => andThen done (fun text' => inline host text' url baseUrl get))
      urls (resolve text).

End inliner.

(* ================================================================== *)
(** ** The cloner *)

(** [parent.appendChild(child)]: a type error on [undefined] and on a node
    that takes no children. *)
Definition appendChild (parent : option Clone) (child : Clone) : Promise (option Clone) :=
  match parent with
  | Some (ClonedElement original iface attrs style children) =>
      resolve (Some (ClonedElement original iface attrs style (children ++ [child])%list))
  | Some _ => reject (TypeError "appendChild: the node cannot have children")
  | None => reject (TypeError "appendChild of undefined")
  end.

(** [makeNodeCopy]: a canvas becomes an image of its current pixels (no
    clone at all when [makeImage] gives none), unless [toDataURL()] throws,
    which rejects the promise; any other node is copied without its
    children. *)
Definition makeNodeCopy (host : Host) (node : Node) : Promise (option Clone) :=
  match node with
  | TextNode data => resolve (Some (ClonedText node data))
  | ElementNode e _ =>
      match interface e with
      | HTMLCanvasElement =>
          match toDataURL e with
          | Tainted => reject (DOMException "SecurityError")
          | Pixels uri =>
              image <- util.makeImage host uri ;;
              resolve
                (option_map
                   (fun i =>
                      let crossOrigin :=
                        match util.crossOrigin i with
                        | Some c => [("crossorigin", c)]
                        | None => []
                        end in
                      ClonedElement node HTMLImageElement
                                    (("src", util.src i) :: crossOrigin) [] [])
                   image)
          end
      | _ => resolve (Some (ClonedElement node (interface e) (attributes e) (inlineStyle e) []))
      end
  end.

(** [cloneChildrenInOrder]: one child after the other; a child that has a
    clone is appended to the parent, one that has none is passed over. *)
Fixpoint cloneChildrenInOrder (cloneChild : Node -> Promise (option Clone))
         (parent : option Clone) (children : list Node) : Promise (option Clone) :=
  match children with
  | [] => resolve parent
  | child :: rest =>
      childClone <- cloneChild child ;;
      parent' <- match childClone with
                 | Some c => appendChild parent c
                 | None => resolve parent
                 end ;;
      cloneChildrenInOrder cloneChild parent' rest
  end.

(** [cloneChildren], on the [childNodes] of the original. *)
Definition cloneChildren (cloneChild : Node -> Promise (option Clone))
           (children : list Node) (clone : option Clone) : Promise (option Clone) :=
  if (List.length children =? 0)%nat then resolve clone
  else cloneChildrenInOrder cloneChild clone children.

(** [copyProperties]: every resolved property, with its value and its
    priority, in index order. *)
Definition copyProperties (source target : list Declaration) : list Declaration :=
  fold_left
    (fun target name =>
       setProperty target name (getPropertyValue source name) (getPropertyPriority source name))
    (map propName source) target.

(** [copyStyle]: the resolved block wholesale when the host gives its text
    (its declarations are what that text parses to), property by property
    otherwise; [font-stretch] is then forced. *)
Definition copyStyle (source : CSSStyleDeclaration) (target : list Declaration)
  : list Declaration :=
  let target' :=
    if Js.truthyString (cssText source)
    then setProperty (declarations source) "font"
                     (getPropertyValue (declarations source) "font") ""
    else copyProperties (declarations source) target in
  setProperty target' "font-stretch" "normal" "".

Definition formatProperty (style : list Declaration) (name : string) : string :=
  name ++ ": " ++ getPropertyValue style name
       ++ (if Js.truthyString (getPropertyPriority style name) then " !important" else "").

Definition formatCssProperties (style : CSSStyleDeclaration) : string :=
  String.concat "; " (map (formatProperty (declarations style))
                          (map propName (declarations style))) ++ ";".

Definition formatCssText (style : CSSStyleDeclaration) : string :=
  let content := getPropertyValue (declarations style) "content" in
  cssText style ++ " content: " ++ content ++ ";".

(** The text node of a synthesized rule; [element] is [":before"] or
    [":after"]. *)
Definition formatPseudoElementStyle (className element : string)
           (style : CSSStyleDeclaration) : string :=
  let selector := "." ++ className ++ ":" ++ element in
  let cssText := if Js.truthyString (cssText style)
                 then formatCssText style else formatCssProperties style in
  selector ++ "{" ++ cssText ++ "}".

(** The resolved style of one of the two pseudo-elements. *)
Definition getComputedPseudo (original : Element) (element : string) : CSSStyleDeclaration :=
  if String.eqb element ":before" then computedBefore original else computedAfter original.

(** The clone of an element while [processClone] works on it. *)
Record Working := mkWorking {
  wIface : Interface;
  wAttrs : list (string * string);
  wStyle : list Declaration;
  wChildren : list Clone
}.

Definition clonePseudoElement (host : Host) (original : Element) (element : string)
           (clone : Working) : Promise Working :=
  let style := getComputedPseudo original element in
  let content := getPropertyValue (declarations style) "content" in
  if String.eqb content "" || String.eqb content "none" then resolve clone
  else
    className <- util.uid host ;;
    let currentClass := getAttribute (wAttrs clone) "class" in
    let attrs :=
      if Js.truthy currentClass
      then setAttribute (wAttrs clone) "class" (Js.toStr currentClass ++ " " ++ className)
      else wAttrs clone in
    let styleElement := StyleElement (formatPseudoElementStyle className element style) in
    resolve (mkWorking (wIface clone) attrs (wStyle clone)
                       (wChildren clone ++ [styleElement])%list).

Definition clonePseudoElements (host : Host) (original : Element) (clone : Working)
  : Promise Working :=
  fold_left (fun done element => andThen done (clonePseudoElement host original element))
            [":before"; ":after"] (resolve clone).

Definition cloneStyle (original : Element) (clone : Working) : Working :=
  mkWorking (wIface clone) (wAttrs clone)
            (copyStyle (computedStyle original) (wStyle clone)) (wChildren clone).

(** [copyUserInput]: the value of a text area becomes the content of its
    clone, the value of an input its [value] attribute. *)
Definition copyUserInput (original : Element) (clone : Working) : Working :=
  let clone1 :=
    match interface original with
    | HTMLTextAreaElement =>
        mkWorking (wIface clone) (wAttrs clone) (wStyle clone)
                  (if Js.truthyString (value original) then [Markup (value original)] else [])
    | _ => clone
    end in
  match interface original with
  | HTMLInputElement =>
      mkWorking (wIface clone1) (setAttribute (wAttrs clone1) "value" (value original))
                (wStyle clone1) (wChildren clone1)
  | _ => clone1
  end.

(** The loop of [fixSvg] over [width] and [height]; an attribute without
    a value leaves the callback, not the loop. *)
Definition mirrorAttribute (clone : Working) (attribute : string) : Working :=
  match getAttribute (wAttrs clone) attribute with
  | Some v =>
      if Js.truthyString v
      then mkWorking (wIface clone) (wAttrs clone)
                     (setProperty (wStyle clone) attribute v "") (wChildren clone)
      else clone
  | None => clone
  end.

Definition fixSvg (clone : Working) : Working :=
  if negb (isSVGElement (wIface clone)) then clone
  else
    let clone1 := mkWorking (wIface clone)
                            (setAttribute (wAttrs clone) "xmlns" "http://www.w3.org/2000/svg")
                            (wStyle clone) (wChildren clone) in
    match wIface clone1 with
    | SVGRectElement => fold_left mirrorAttribute ["width"; "height"] clone1
    | _ => clone1
    end.

(** [processClone]: nothing for a clone that is no element; the resolved
    style, the pseudo-elements, the user input and the SVG fixes, in this
    order, for one that is.  Reading the resolved style of a node that is
    no element is a type error. *)
Definition processClone (host : Host) (original : Node) (clone : option Clone)
  : Promise (option Clone) :=
  match clone with
  | Some (ClonedElement source iface attrs style children) =>
      match original with
      | ElementNode e _ =>
          let w := cloneStyle e (mkWorking iface attrs style children) in
          w <- clonePseudoElements host e w ;;
          let w := fixSvg (copyUserInput e w) in
          resolve (Some (ClonedElement source (wIface w) (wAttrs w) (wStyle w) (wChildren w)))
      | TextNode _ => reject (TypeError "getComputedStyle: not an Element")
      end
  | _ => resolve clone
  end.

(** [cloneNode]: [None] is the promise fulfilled with [undefined]. *)
Fixpoint cloneNode (host : Host) (node : Node) (filter : option (Node -> bool))
         (root : bool) {struct node} : Promise (option Clone) :=
  let excluded :=
    negb root && match filter with Some f => negb (f node) | None => false end in
  if excluded then resolve None
  else
    clone <- makeNodeCopy host node ;;
    clone <- match node with
             | ElementNode _ children =>
                 cloneChildren (fun child => cloneNode host child filter false) children clone
             | TextNode _ =>
                 cloneChildren (fun child => resolve None) [] clone
             end ;;
    processClone host node clone.

(* ================================================================== *)
(** ** [fontFaces] and [images] *)

(** [Promise.all]: every promise runs; the result is rejected when one is,
    pending when one is left pending, and the list of values otherwise.
    The promises are run in the order of the list. *)
Fixpoint promiseAll {A} (ps : list (Promise A)) : Promise (list A) :=
  match ps with
  | [] => resolve []
  | p :: ps' =>
      fun r =>
        let '(first, r1) := p r in
        let '(others, r2) := promiseAll ps' r1 in
        (match first, others with
         | Rejected e, _ => Rejected e
         | _, Rejected e => Rejected e
         | Pending, _ => Pending
         | _, Pending => Pending
         | Fulfilled a, Fulfilled l => Fulfilled (a :: l)
         end, r2)
  end.

Module fontFaces.

(** [getCssRules]: the rules of the sheets that own a [cssRules]; a sheet
    whose rules cannot be read is logged and passed over.  (What
    [forEach] pushes next to each rule has no [type] and is dropped by
    [selectWebFontRules].) *)
Fixpoint getCssRules (sheets : list StyleSheet) (r : Realm) : list CSSRule * Realm :=
  match sheets with
  | [] => ([], r)
  | sheet :: sheets' =>
      let '(rules, r1) :=
        if hasOwnCssRules sheet then
          match cssRules sheet with
          | inl rules => (rules, r)
          | inr e =>
              ([], consoleLog ["Error while reading CSS rules from "
                                 ++ Js.toStr (sheetHref sheet); e] r)
          end
        else ([], r) in
      let '(others, r2) := getCssRules sheets' r1 in
      ((rules ++ others)%list, r2)
  end.

Definition selectWebFontRules (rules : list CSSRule) : list CSSRule :=
  List.filter (fun rule => inliner.shouldProcess (getPropertyValue (ruleStyle rule) "src"))
              (List.filter isFontFaceRule rules).

(** [newWebFont(rule).resolve] *)
Definition resolveWebFont (host : Host) (webFontRule : CSSRule) : Promise string :=
  let baseUrl := parentHref webFontRule in
  inliner.inlineAll host (ruleCssText webFontRule) baseUrl None.

Definition readAll (host : Host) : Promise (list CSSRule) :=
  fun r =>
    let '(rules, r') := getCssRules (styleSheets host) r in
    (Fulfilled (selectWebFontRules rules), r').

Definition newline : string := Js.chr (ascii_of_nat 10).

Definition resolveAll (host : Host) : Promise string :=
  webFonts <- readAll host ;;
  cssStrings <- promiseAll (map (resolveWebFont host) webFonts) ;;
  resolve (String.concat newline cssStrings).

End fontFaces.

Module images.

(** [element.src]: the attribute resolved against the document, the
    empty string when there is none. *)
Definition srcOf (host : Host) (attrs : list (string * string)) : string :=
  match getAttribute attrs "src" with
  | Some v => if Js.truthyString v then resolveHref host v (baseURI host) else ""
  | None => ""
  end.

(** [newImage(element).inline]: the new source is awaited, and a source
    that fails to load settles the promise like one that loads. *)
Definition inline (host : Host) (attrs : list (string * string))
           (get : option inliner.Getter) : Promise (list (string * string)) :=
  let src := srcOf host attrs in
  if util.isDataUrl src then resolve attrs
  else
    data <- inliner.getter host get src ;;
    dataUrl <- resolve (util.dataAsUrl data (util.mimeType src)) ;;
    resolve (setAttribute attrs "src" dataUrl).

Definition inlineBackground (host : Host) (style : list Declaration)
  : Promise (list Declaration) :=
  let background := getPropertyValue style "background" in
  if negb (Js.truthyString background) then resolve style
  else
    inlined <- inliner.inlineAll host background None None ;;
    resolve (setProperty style "background" inlined (getPropertyPriority style "background")).

(** [inlineAll]: the clone tree is rewritten in place; here the rewritten
    tree is returned.  A created [<style>] has no background and only a
    text child, so it is left as it is. *)
Fixpoint inlineAll (host : Host) (node : Clone) {struct node} : Promise Clone :=
  match node with
  | ClonedElement original iface attrs style children =>
      style' <- inlineBackground host style ;;
      match iface with
      | HTMLImageElement =>
          attrs' <- inline host attrs None ;;
          resolve (ClonedElement original iface attrs' style' children)
      | _ =>
          children' <- promiseAll (map (inlineAll host) children) ;;
          resolve (ClonedElement original iface attrs style' children')
      end
  | _ => resolve node
  end.

End images.

(* ================================================================== *)
(** ** The entry points *)

(** [a || b] on a number that may be [undefined]. *)
Definition orElse (a : option Js.number) (b : Js.number) : Js.number :=
  match a with
  | Some x => if Js.truthyNumber x then x else b
  | None => b
  end.

Definition styleNodeOf (cssText : string) : Clone := StyleElement cssText.

Definition embedFonts (host : Host) (node : option Clone) : Promise (option Clone) :=
  cssText <- fontFaces.resolveAll host ;;
  appendChild node (styleNodeOf cssText).

Definition inlineImages (host : Host) (node : option Clone) : Promise (option Clone) :=
  match node with
  | Some n => n' <- images.inlineAll host n ;; resolve (Some n')
  | None => resolve None
  end.

(** Writing the [style] of the clone: a type error on [undefined]. *)
Definition withStyle (clone : option Clone) (f : list Declaration -> list Declaration)
  : Promise (option Clone) :=
  match clone with
  | Some (ClonedElement original iface attrs style children) =>
      resolve (Some (ClonedElement original iface attrs (f style) children))
  | Some _ => reject (TypeError "style of a node that is no element")
  | None => reject (TypeError "style of undefined")
  end.

Definition applyOptions (host : Host) (options : Options.t) (clone : option Clone)
  : Promise (option Clone) :=
  let number := Js.numberToString (fractionToString host) in
  clone <- (match Options.bgcolor options with
            | Some c =>
                if Js.truthyString c
                then withStyle clone (fun s => setProperty s "background-color" c "")
                else resolve clone
            | None => resolve clone
            end) ;;
  clone <- (match Options.width options with
            | Some w =>
                if Js.truthyNumber w
                then withStyle clone (fun s => setProperty s "width" (number w ++ "px") "")
                else resolve clone
            | None => resolve clone
            end) ;;
  clone <- (match Options.height options with
            | Some h =>
                if Js.truthyNumber h
                then withStyle clone (fun s => setProperty s "height" (number h ++ "px") "")
                else resolve clone
            | None => resolve clone
            end) ;;
  match Options.style options with
  | Some patch =>
      fold_left
        (fun done property =>
           clone <- done ;;
           withStyle clone (fun s => setProperty s (fst property) (snd property) ""))
        patch (resolve clone)
  | None => resolve clone
  end.

(** The double quote, which delimits the attributes of the markup. *)
Definition dq : string := Js.chr (ascii_of_nat 34).

Definition attribute (name v : string) : string := " " ++ name ++ "=" ++ dq ++ v ++ dq.

(** The [<style>] block both wrappers start with; [font] stands for the
    data URL of the font the script embeds. *)
Definition fontStyle (font : string) : string :=
  "<style" ++ attribute "type" "text/css" ++ "><![CDATA[ @font-face { font-family: "
    ++ dq ++ "aahub" ++ dq ++ "; src: url(" ++ font ++ ") format(" ++ dq ++ "woff2" ++ dq
    ++ "); font-display: swap; } ]]></style>".

Definition foreignObjectOf (font xhtml : string) : string :=
  "<foreignObject" ++ attribute "x" "0" ++ attribute "y" "0"
    ++ attribute "width" "100%" ++ attribute "height" "100%" ++ ">"
    ++ fontStyle font ++ xhtml ++ "</foreignObject>".

Definition svgOf (font width height foreignObject : string) : string :=
  "<svg" ++ attribute "xmlns" "http://www.w3.org/2000/svg"
    ++ attribute "width" width ++ attribute "height" height ++ ">"
    ++ fontStyle font ++ foreignObject ++ "</svg>".

(** [makeSvgDataUri]; [node.setAttribute] on [undefined] is a type error. *)
Definition makeSvgDataUri (host : Host) (font : string) (node : option Clone)
           (width height : Js.number) : Promise string :=
  let number := Js.numberToString (fractionToString host) in
  match node with
  | Some (ClonedElement original iface attrs style children) =>
      let node' := ClonedElement original iface
                     (setAttribute attrs "xmlns" "http://www.w3.org/1999/xhtml")
                     style children in
      xhtml <- resolve (util.escapeXhtml (serializeToString host node')) ;;
      foreignObject <- resolve (foreignObjectOf font xhtml) ;;
      svg <- resolve (svgOf font (number width) (number height) foreignObject) ;;
      resolve ("data:image/svg+xml;charset=utf-8," ++ svg)
  | _ => reject (TypeError "setAttribute is not a function")
  end.

(** [toSvg].  The size read off the node is the one of an element; a root
    that is none never gets as far as the last step, which then has no
    size to read. *)
Definition toSvg (host : Host) (font : string) (node : Node) (options : Options.t)
  : Promise string :=
  fun r =>
    (clone <- cloneNode host node (Options.filter options) true ;;
     clone <- embedFonts host clone ;;
     clone <- inlineImages host clone ;;
     clone <- applyOptions host options clone ;;
     match node with
     | ElementNode e _ =>
         makeSvgDataUri host font clone
                        (orElse (Options.width options) (util.width e))
                        (orElse (Options.height options) (util.height e))
     | TextNode _ => reject (TypeError "getComputedStyle: not an Element")
     end) (copyOptions options r).

(** The canvas [draw] returns: the size it holds, the colour it is filled
    with, and the image drawn on it with its scale. *)
Record Canvas := mkCanvas {
  canvasWidth : Z;
  canvasHeight : Z;
  fillStyle : option string;
  drawn : option (util.Image * Js.number)
}.

(** What [canvas.width] and [canvas.height] hold after a number is
    assigned to them.  Both are [unsigned long] attributes that reflect a
    content attribute: the number is converted, and a converted value
    above 2147483647 gives the default of the attribute instead (300 for
    the width, 150 for the height). *)
Definition reflected (default : Z) (x : Js.number) : Z :=
  let n := Js.toUnsignedLong x in
  if (n <=? 2147483647)%Z then n else default.

Definition newCanvas (options : Options.t) (domNode : Element) (scale : Js.number) : Canvas :=
  let w := (orElse (Options.width options) (util.width domNode) * scale)%float in
  let h := (orElse (Options.height options) (util.height domNode) * scale)%float in
  mkCanvas (reflected 300 w) (reflected 150 h)
           (match Options.bgcolor options with
            | Some c => if Js.truthyString c then Some c else None
            | None => None
            end)
           None.

(** [draw]: the settle delay changes nothing that is modelled. *)
Definition draw (host : Host) (font : string) (domNode : Node) (options : Options.t)
  : Promise Canvas :=
  uri <- toSvg host font domNode options ;;
  image <- util.makeImage host uri ;;
  match domNode with
  | ElementNode e _ =>
      let scale := match Options.scale options with Some k => k | None => 1%float end in
      let canvas := newCanvas options e scale in
      resolve (mkCanvas (canvasWidth canvas) (canvasHeight canvas) (fillStyle canvas)
                        (option_map (fun i => (i, scale)) image))
  | TextNode _ => reject (TypeError "getComputedStyle: not an Element")
  end.

Definition toCanvas := draw.

(** [canvas.toDataURL(type, quality)], as the host encodes a canvas. *)
Definition Encoder : Type := Canvas -> option string -> option Js.number -> string.

(** [toJpeg]: the canvas of [draw], encoded as JPEG at the quality of the
    options, or at 1. *)
Definition toJpeg (host : Host) (encode : Encoder) (font : string) (node : Node)
           (options : Options.t) : Promise string :=
  canvas <- draw host font node options ;;
  resolve (encode canvas (Some "image/jpeg")
                  (Some (orElse (Options.quality options) 1%float))).

(* ================================================================== *)
(** ** Concrete documents and hosts *)

Module Sample.

Definition tagOf (i : Interface) : string :=
  match i with
  | HTMLCanvasElement => "canvas"
  | HTMLTextAreaElement => "textarea"
  | HTMLInputElement => "input"
  | HTMLImageElement => "img"
  | HTMLElement => "div"
  | SVGRectElement => "rect"
  | SVGElement => "svg"
  end.

(** A serializer that writes tags, attributes and children. *)
Fixpoint serialize (c : Clone) : string :=
  match c with
  | ClonedText _ data => data
  | ClonedElement _ iface attrs _ children =>
      "<" ++ tagOf iface
          ++ String.concat "" (map (fun a => " " ++ fst a ++ "='" ++ snd a ++ "'") attrs)
          ++ ">" ++ String.concat "" (map serialize children)
          ++ "</" ++ tagOf iface ++ ">"
  | StyleElement text => "<style>" ++ text ++ "</style>"
  | Markup html => html
  end.

(** A host whose network knows one resource, [a.png] being missing. *)
Definition host : Host :=
  mkHost 1700000000000
         (fun _ => 0%N)
         (fun _ url =>
            if String.eqb url "b.png"
            then Reports [ReadyStateChange 2 200 "";
                          ReadyStateChange 4 200 "data:image/png;base64,QUJD"]
            else Reports [ReadyStateChange 4 404 ""])
         (fun _ => true)
         (fun url base => base ++ url)
         ""
         (fun _ => "0.5")
         []
         serialize.

Definition noStyle : CSSStyleDeclaration := mkStyle "" [].

Definition borders (leftRight topBottom : string) : CSSStyleDeclaration :=
  mkStyle ""
          [ mkDeclaration "border-left-width" leftRight "";
            mkDeclaration "border-right-width" leftRight "";
            mkDeclaration "border-top-width" topBottom "";
            mkDeclaration "border-bottom-width" topBottom "" ].

(** An element 200 by 100 with borders of 1px and 2px. *)
Definition box : Element :=
  mkElement HTMLElement [] [] "" (Pixels "") 200%float 100%float (borders "1px" "2px") noStyle noStyle.

Definition img (src : string) : Element :=
  mkElement HTMLImageElement [("src", src)] [] "" (Pixels "") 0%float 0%float
            (borders "0px" "0px") noStyle noStyle.

Definition widthOnly (w : Js.number) : Options.t :=
  Options.make None None (Some w) None None None None None None None.

Definition withPlaceholder (p : string) : Options.t :=
  Options.make None None None None None None None (Some p) None None.

Definition scaleOnly (k : Js.number) : Options.t :=
  Options.make None None None None None None (Some k) None None None.

End Sample.

(* ================================================================== *)
(** ** The vocabulary of the properties *)

(** *** Sizes *)

Definition uriPrefix : string := "data:image/svg+xml;charset=utf-8,".

(** The larger of an explicit dimension and a measured one, the measured
    one when there is no explicit one. *)
Definition larger (explicit : option Js.number) (measured : Js.number) : Js.number :=
  match explicit with
  | Some x => if (measured <? x)%float then x else measured
  | None => measured
  end.

(** *** The fetcher *)

(** An event that leaves the request running. *)
Definition running (e : XhrEvent) : Prop :=
  match e with
  | ReadyStateChange readyState _ _ => readyState <> 4%N
  | Timeout => False
  end.

(** The request has failed: it is done with a status other than 200, or
    it has timed out. *)
Definition failed (e : XhrEvent) : Prop :=
  match e with
  | ReadyStateChange readyState status _ => readyState = 4%N /\ status <> 200%N
  | Timeout => True
  end.

(** A host like the sample one, except that a request cannot be opened on
    a locator with a space in it. *)
Definition refusingHost : Host :=
  mkHost (getTime Sample.host) (random Sample.host)
         (fun credentials url =>
            if Js.includesChar " " url then Throws "SyntaxError"
            else request Sample.host credentials url)
         (imageLoads Sample.host) (resolveHref Sample.host) (baseURI Sample.host)
         (fractionToString Sample.host) (styleSheets Sample.host)
         (serializeToString Sample.host).

(** The document of the end-to-end scenario: one image, [a.png], which the
    network does not have. *)
Definition missingImage : Node :=
  ElementNode Sample.box [ElementNode (Sample.img "a.png") []].

(** *** The shared configuration *)

(** A promise that leaves the shared configuration as it finds it,
    however it settles. *)
Definition KeepsConfiguration {A} (p : Promise A) : Prop :=
  forall r, implOptions (snd (p r)) = implOptions r.

(** *** The cloner *)

Definition pseudoContent (original : Element) (element : string) : string :=
  getPropertyValue (declarations (getComputedPseudo original element)) "content".

(** An element without a class attribute whose [:before] has content. *)
Definition plainBefore : Element :=
  mkElement HTMLElement [] [] "" (Pixels "") 0%float 0%float Sample.noStyle
            (mkStyle "" [mkDeclaration "content" "'x'" ""]) Sample.noStyle.



Definition passes (filter : option (Node -> bool)) (node : Node) : bool :=
  match filter with Some f => f node | None => true end.


Definition isTextArea (e : Element) : bool :=
  match interface e with HTMLTextAreaElement => true | _ => false end.

(** What a clone tree is made of, node by node, the created nodes
    included: a clone of the source node [original] with what is below
    it, a created [<style>] element, or what the host parses out of a
    text assigned as content. *)
Inductive Outline : Type :=
| CloneOf (original : Node) (below : list Outline)
| CreatedStyle
| Parsed (html : string).

Fixpoint outline (c : Clone) : Outline :=
  match c with
  | ClonedText original _ => CloneOf original []
  | ClonedElement original _ _ _ children => CloneOf original (map outline children)
  | StyleElement _ => CreatedStyle
  | Markup html => Parsed html
  end.



(** The style elements created for an element: one for each of [:before]
    and [:after] whose resolved content is neither empty nor [none]. *)
Definition rule (original : Element) (element : string) : list Outline :=
  if String.eqb (pseudoContent original element) ""
     || String.eqb (pseudoContent original element) "none"
  then [] else [CreatedStyle].

Definition rules (original : Element) : list Outline :=
  (rule original ":before" ++ rule original ":after")%list.

(** The content of the clone of a text area: its current value, as the
    host parses it, and nothing when the value is empty. *)
Definition content (original : Element) : list Outline :=
  if Js.truthyString (value original) then [Parsed (value original)] else [].









(** *** Texts, references and blocks *)

(** Characters of a text with none of the quotes and parentheses, and
    texts made of them. *)
Definition plainChar (c : ascii) : bool :=
  negb (inliner.quote c || Ascii.eqb c "(" || Ascii.eqb c ")").

Fixpoint allChars (p : ascii -> bool) (s : string) : bool :=
  match s with
  | EmptyString => true
  | String c s' => p c && allChars p s'
  end.

Definition plain (s : string) : bool := allChars plainChar s.

(** A payload has, besides, no dollar sign (a base64 payload has none of
    these characters). *)
Definition payloadChar (c : ascii) : bool := plainChar c && negb (Ascii.eqb c "$").

Definition cleanPayload (s : string) : bool := allChars payloadChar s.

Definition hits (ps : list RegExp.Piece) : list RegExp.Match :=
  flat_map (fun p => match p with RegExp.Hit m => [m] | RegExp.Plain _ => [] end) ps.

Fixpoint plains (s : string) : list RegExp.Piece :=
  match s with
  | EmptyString => []
  | String c s' => RegExp.Plain c :: plains s'
  end.

Definition startsUrl (s : string) : bool := Js.startsWith "url(" s.

(** No [url(] anywhere in the text. *)
Fixpoint urlFree (s : string) : bool :=
  match s with
  | EmptyString => true
  | String c s' => negb (startsUrl s) && urlFree s'
  end.

(** A reference as it stands in a text: [url(], a quote or nothing, the
    target, a quote or nothing, [)]. *)
Record Reference := mkReference {
  opening : string;
  target : string;
  closing : string
}.

Definition written (ref : Reference) : string :=
  "url(" ++ opening ref ++ target ref ++ closing ref ++ ")".

(** Nothing, or one of the two quotes. *)
Definition quoteMark (s : string) : bool :=
  match s with
  | EmptyString => true
  | String c EmptyString => inliner.quote c
  | _ => false
  end.

(** The end of both patterns: an optional quote and [)]. *)
Definition closer : RegExp.regex :=
  RegExp.Seq (RegExp.Opt (RegExp.Class inliner.quote)) (RegExp.Chars ")").

Definition final : RegExp.Continuation := fun j s caps => Some (j, s, caps).

(** The group and the end of the scanning pattern. *)
Definition urlBody : RegExp.regex :=
  RegExp.Seq (RegExp.Group 1 (RegExp.LazyPlus inliner.notQuote)) closer.

(** The pattern of [inline] for the target [u]. *)
Definition literalBody (u : string) : RegExp.regex :=
  RegExp.Seq (RegExp.Group 2 (RegExp.Chars u)) (RegExp.Group 3 closer).

(** No suffix of [stretch], followed by [rest], starts with [url(]. *)
Fixpoint quiet (stretch rest : string) : bool :=
  match stretch with
  | EmptyString => true
  | String c st => negb (startsUrl (stretch ++ rest)) && quiet st rest
  end.

(** A block: references, each after a stretch of other text, and the text
    after the last one. *)
Fixpoint blockText (refs : list (string * Reference)) (last : string) : string :=
  match refs with
  | [] => last
  | (gap, ref) :: refs' => gap ++ written ref ++ blockText refs' last
  end.

(** A reference with optional quotes around a plain, non-empty target. *)
Definition wellFormed (ref : Reference) : bool :=
  quoteMark (opening ref) && quoteMark (closing ref)
  && plain (target ref) && Js.truthyString (target ref).

(** A block whose references are well formed and whose other text has no
    [url(]. *)
Definition wellFormedBlock (refs : list (string * Reference)) (last : string) : bool :=
  forallb (fun gr => urlFree (fst gr) && wellFormed (snd gr)) refs && urlFree last.

(** A reference whose target is [u], retargeted to [d]. *)
Definition retarget (u d : string) (gr : string * Reference) : string * Reference :=
  (fst gr,
   if String.eqb (target (snd gr)) u
   then mkReference (opening (snd gr)) d (closing (snd gr))
   else snd gr).

(** The MIME type the table gives for the extension of a URL, the empty
    string when the table does not have it. *)
Definition tableMime (url : string) : string :=
  match util.lookup util.mimes (Js.toLowerCase (util.parseExtension url)) with
  | Some type => type
  | None => ""
  end.

(** The extension is not the name of a member every object inherits. *)
Definition ownExtension (url : string) : bool :=
  match util.lookup util.inherited (Js.toLowerCase (util.parseExtension url)) with
  | Some _ => false
  | None => true
  end.

(** The data URL a reference to [url] is rewritten to. *)
Definition dataUrlOf (payload : string -> string) (url : string) : string :=
  "data:" ++ tableMime url ++ ";base64," ++ payload url.

(** The URL [inline] fetches for a reference. *)
Definition resolvedUrl (host : Host) (baseUrl : option string) (url : string) : string :=
  if Js.truthy baseUrl then resolveHref host url (Js.toStr baseUrl) else url.

(** Every fetch made under the configuration [o] is fulfilled with the
    payload of the reference, and leaves the configuration as it is. *)
Definition Fetches (host : Host) (baseUrl : option string) (get : option inliner.Getter)
           (payload : string -> string) (o : ImplOptions) : Prop :=
  forall url r0,
    implOptions r0 = o ->
    exists r1,
      inliner.getter host get (resolvedUrl host baseUrl url) r0
      = (Fulfilled (Some (payload url)), r1)
      /\ implOptions r1 = o.

(** One replacement, as text. *)
Definition rewrite (payload : string -> string) (text url : string) : string :=
  RegExp.replace (inliner.urlAsRegex url) ("$1" ++ dataUrlOf payload url ++ "$3") text.

(** A reference rewritten: its target becomes the data URL of its target,
    unless it is one already. *)
Definition inlined (payload : string -> string) (gr : string * Reference)
  : string * Reference :=
  (fst gr,
   if util.isDataUrl (target (snd gr))
   then snd gr
   else mkReference (opening (snd gr)) (dataUrlOf payload (target (snd gr)))
                    (closing (snd gr))).

(** A block with one reference to fetch and one that is a data URL. *)
Definition sampleBlock : list (string * Reference) :=
  [ ("background: ", mkReference "" "b.png" "");
    (", ", mkReference "'" "data:image/gif;base64,R0lG" "'") ].

(** What the sample network answers: [b.png] is there, nothing else is. *)
Definition samplePayload (url : string) : string :=
  if String.eqb url "b.png" then "QUJD" else "".

(** *** Locators *)

(** A character an extension can hold: no dot, no slash and no question
    mark. *)
Definition extensionChar (c : ascii) : bool :=
  util.notDotSlash c && negb (Ascii.eqb c "?").

(** Nothing, or a query. *)
Definition queryOrEnd (rest : string) : bool :=
  match rest with
  | EmptyString => true
  | String c _ => Ascii.eqb c "?"
  end.

(** What follows the group of the extension pattern: [(\?|$)]. *)
Definition extensionEnd : RegExp.regex :=
  RegExp.Group 2 (RegExp.Alt (RegExp.Chars "?") RegExp.Eol).

(** A continuation that gives up before every character but [?]. *)
Definition needsQuery (k : RegExp.Continuation) : Prop :=
  forall j c s caps, Ascii.eqb c "?" = false -> k j (String c s) caps = None.

(** *** Texts rewritten character by character *)

Fixpoint flatMapChars (f : ascii -> string) (s : string) : string :=
  match s with
  | EmptyString => EmptyString
  | String c s' => f c ++ flatMapChars f s'
  end.

(** A syntax character with a backslash before it, any other as it is. *)
Definition escapedChar (c : ascii) : string :=
  if RegExp.isSyntaxChar c then String "\" (Js.chr c) else Js.chr c.

Definition lineFeed : ascii := ascii_of_nat 10.

(** The number sign and the line feed percent-encoded, any other
    character as it is. *)
Definition xhtmlChar (c : ascii) : string :=
  if Ascii.eqb c "#" then "%23"
  else if Ascii.eqb c lineFeed then "%0A"
  else Js.chr c.

(** One character replaced by a text throughout. *)
Definition replacedChar (a : ascii) (by_ : string) (c : ascii) : string :=
  if Ascii.eqb c a then by_ else Js.chr c.

(** *** More hosts *)

(** A host whose requests never end: every one reports that the headers
    are in and that the body is loading, and nothing after that. *)
Definition stalledHost : Host :=
  mkHost (getTime Sample.host) (random Sample.host)
         (fun _ _ => Reports [ReadyStateChange 2 200 ""; ReadyStateChange 3 200 ""])
         (imageLoads Sample.host) (resolveHref Sample.host) (baseURI Sample.host)
         (fractionToString Sample.host) (styleSheets Sample.host)
         (serializeToString Sample.host).

(** The configuration with a placeholder and nothing else set. *)
Definition placeholderOnly (p : string) : ImplOptions :=
  mkImplOptions (Some p) (Some false) (Some false).

(** *** Fetches that are told from outside *)

(** A [get] argument that answers every request with the payload of the
    locator and notes the locator on the console. *)
Definition recording (payload : string -> string) : inliner.Getter :=
  fun url r => (Fulfilled (Some (payload url)), consoleLog [url] r).

(** The console after the locators [urls] were noted in turn. *)
Definition noted (urls : list string) (r : Realm) : Realm :=
  fold_left (fun r url => consoleLog [url] r) urls r.

(** *** What inlining the images leaves alone *)

(** A clone tree without its sources: the [src] of every image blanked,
    the [background] of every element removed. *)
Fixpoint withoutSources (c : Clone) : Clone :=
  match c with
  | ClonedElement original iface attrs style children =>
      ClonedElement original iface
                    (match iface with
                     | HTMLImageElement => setAttribute attrs "src" ""
                     | _ => attrs
                     end)
                    (removeProperty style "background")
                    (map withoutSources children)
  | _ => c
  end.

Definition isImage (iface : Interface) : bool :=
  match iface with HTMLImageElement => true | _ => false end.

(** A clone tree with no image and no background declared in a [style]
    attribute. *)
Fixpoint sourceFree (c : Clone) : bool :=
  match c with
  | ClonedElement _ iface _ style children =>
      negb (Js.truthyString (getPropertyValue style "background"))
      && negb (isImage iface)
      && forallb sourceFree children
  | _ => true
  end.

(** A clone with a background to fetch and two images below it, one of
    them a data URL already. *)
Definition sampleClone : Clone :=
  ClonedElement (ElementNode Sample.box []) HTMLElement [("id", "top")]
                [mkDeclaration "background" "url(b.png) no-repeat" "important"]
                [ ClonedText (TextNode "caption") "caption";
                  ClonedElement (ElementNode (Sample.img "b.png") []) HTMLImageElement
                                [("src", "b.png"); ("alt", "b")] [] [];
                  ClonedElement (ElementNode (Sample.img "data:image/gif;base64,R0lG") [])
                                HTMLImageElement
                                [("src", "data:image/gif;base64,R0lG")] [] [] ].

(** A host whose every request succeeds with a body that reads as a data
    URL without comma, as an empty body may. *)
Definition emptyBodyHost : Host :=
  mkHost (getTime Sample.host) (random Sample.host)
         (fun _ _ => Reports [ReadyStateChange 4 200 "data:"])
         (imageLoads Sample.host) (resolveHref Sample.host) (baseURI Sample.host)
         (fractionToString Sample.host) (styleSheets Sample.host)
         (serializeToString Sample.host).

(** *** What holds of every element of a clone *)

(** A test on the source node, the interface, the attributes and the
    [style] of a cloned element, passed by every element of the tree. *)
Fixpoint everyElement
         (P : Node -> Interface -> list (string * string) -> list Declaration -> bool)
         (c : Clone) : bool :=
  match c with
  | ClonedElement original iface attrs style children =>
      P original iface attrs style && forallb (everyElement P) children
  | _ => true
  end.

(** The test is passed by whatever [processClone] returns for the copy
    [makeNodeCopy] makes of an element, once its children are cloned. *)
Definition HoldsAfterProcess (host : Host)
           (P : Node -> Interface -> list (string * string) -> list Declaration -> bool)
  : Prop :=
  forall e kids iface attrs style children r0 r1 r iface' attrs' style' children' r',
    makeNodeCopy host (ElementNode e kids) r0
    = (Fulfilled (Some (ClonedElement (ElementNode e kids) iface attrs style [])), r1) ->
    processClone host (ElementNode e kids)
                 (Some (ClonedElement (ElementNode e kids) iface attrs style children)) r
    = (Fulfilled (Some (ClonedElement (ElementNode e kids) iface' attrs' style' children')), r') ->
    P (ElementNode e kids) iface' attrs' style' = true.

(** A created node: a [<style>], or parsed markup. *)
Definition isCreated (c : Clone) : bool :=
  match c with
  | StyleElement _ | Markup _ => true
  | _ => false
  end.

(** The clone of an input field has the current value for its [value]
    attribute. *)
Definition carriesValue (original : Node) (iface : Interface)
           (attrs : list (string * string)) (style : list Declaration) : bool :=
  match original with
  | ElementNode e _ =>
      match interface e with
      | HTMLInputElement =>
          match getAttribute attrs "value" with
          | Some v => String.eqb v (value e)
          | None => false
          end
      | _ => true
      end
  | TextNode _ => true
  end.

(** The clone of an SVG element declares the SVG namespace. *)
Definition svgFixed (original : Node) (iface : Interface)
           (attrs : list (string * string)) (style : list Declaration) : bool :=
  negb (isSVGElement iface)
  || match getAttribute attrs "xmlns" with
     | Some ns => String.eqb ns "http://www.w3.org/2000/svg"
     | None => false
     end.

(** A form: an input field the user has typed into, and an SVG drawing
    with a rectangle. *)
Definition sampleForm : Node :=
  ElementNode Sample.box
    [ ElementNode
        (mkElement HTMLInputElement [("type", "text"); ("value", "initial")] [] "typed"
                   (Pixels "") 0%float 0%float Sample.noStyle Sample.noStyle Sample.noStyle) [];
      ElementNode
        (mkElement SVGElement [] [] "" (Pixels "") 0%float 0%float
                   Sample.noStyle Sample.noStyle Sample.noStyle)
        [ ElementNode
            (mkElement SVGRectElement [("width", "10"); ("height", "")] [] "" (Pixels "")
                       0%float 0%float
                       (mkStyle "" [mkDeclaration "width" "auto" ""])
                       Sample.noStyle Sample.noStyle) [] ] ].

(** The clone of a canvas is an image whose source is the snapshot of the
    canvas, a snapshot that is not the empty data URL and that loads. *)
Definition snapshotImage (host : Host) (original : Node) (iface : Interface)
           (attrs : list (string * string)) (style : list Declaration) : bool :=
  match original with
  | ElementNode e _ =>
      match interface e with
      | HTMLCanvasElement =>
          match toDataURL e with
          | Pixels uri =>
              isImage iface
              && match getAttribute attrs "src" with
                 | Some v => String.eqb v uri
                 | None => false
                 end
              && imageLoads host uri
              && negb (String.eqb uri "data:,")
          | Tainted => false
          end
      | _ => true
      end
  | TextNode _ => true
  end.

(** A drawing surface with something on it, and a document that holds it
    next to a text. *)
Definition sampleCanvas : Element :=
  mkElement HTMLCanvasElement [("width", "2"); ("height", "2")] [] ""
            (Pixels "data:image/png;base64,iVBORw0KGgo=") 2%float 2%float
            Sample.noStyle Sample.noStyle Sample.noStyle.

Definition sampleDrawing : Node :=
  ElementNode Sample.box [TextNode "chart"; ElementNode sampleCanvas [TextNode "fallback"]].

(** *** How cloning settles *)

Fixpoint firstSome {A} (l : list (option A)) : option A :=
  match l with
  | [] => None
  | Some a :: _ => Some a
  | None :: l' => firstSome l'
  end.

(** No canvas of the subtree gives the empty data URL for its snapshot. *)
Fixpoint snapshotsNotEmpty (node : Node) : bool :=
  match node with
  | TextNode _ => true
  | ElementNode e kids =>
      match interface e with
      | HTMLCanvasElement =>
          match toDataURL e with
          | Pixels uri => negb (String.eqb uri "data:,")
          | Tainted => true
          end
      | _ => true
      end
      && forallb snapshotsNotEmpty kids
  end.

(** What the first canvas that cannot be copied fails with, in document
    order and among the nodes that are cloned: the exception of
    [toDataURL()] on a canvas that may not be read, the error of the image
    on a snapshot that does not load. *)
Fixpoint unloadable (host : Host) (filter : option (Node -> bool)) (root : bool)
         (node : Node) : option Reason :=
  if root || passes filter node then
    match node with
    | ElementNode e kids =>
        let below := firstSome (map (unloadable host filter false) kids) in
        match interface e with
        | HTMLCanvasElement =>
            match toDataURL e with
            | Tainted => Some (DOMException "SecurityError")
            | Pixels uri => if imageLoads host uri then below else Some (ImageError uri)
            end
        | _ => below
        end
    | TextNode _ => None
    end
  else None.

(** How cloning a node settles: rejected with what the first canvas that
    cannot be copied fails with, fulfilled when there is none. *)
Definition SettlesByCanvases (host : Host) (filter : option (Node -> bool)) (node : Node)
  : Prop :=
  snapshotsNotEmpty node = true ->
  forall root r,
    match unloadable host filter root node with
    | Some reason => exists r', cloneNode host node filter root r = (Rejected reason, r')
    | None => exists clone r', cloneNode host node filter root r = (Fulfilled clone, r')
    end.

(** A canvas on which an image of another origin was drawn, under a
    canvas that can be read. *)
Definition taintedCanvas : Element :=
  mkElement HTMLCanvasElement [("width", "2"); ("height", "2")] [] "" Tainted
            2%float 2%float Sample.noStyle Sample.noStyle Sample.noStyle.

Definition taintedDrawing : Node :=
  ElementNode Sample.box [ElementNode sampleCanvas []; ElementNode taintedCanvas []].

(** A host on which no image loads. *)
Definition brokenImagesHost : Host :=
  mkHost (getTime Sample.host) (random Sample.host) (request Sample.host)
         (fun _ => false) (resolveHref Sample.host) (baseURI Sample.host)
         (fractionToString Sample.host) (styleSheets Sample.host)
         (serializeToString Sample.host).

(** A canvas without any pixel: its snapshot is the empty data URL. *)
Definition emptyCanvas : Element :=
  mkElement HTMLCanvasElement [("width", "0"); ("height", "0")] [] "" (Pixels "data:,")
            0%float 0%float Sample.noStyle Sample.noStyle Sample.noStyle.

(** *** The quality of an encoding *)

(** The same options with another [quality]. *)
Definition withQuality (quality : option Js.number) (o : Options.t) : Options.t :=
  Options.make (Options.filter o) (Options.bgcolor o) (Options.width o) (Options.height o)
               (Options.style o) quality (Options.scale o) (Options.imagePlaceholder o)
               (Options.cacheBust o) (Options.useCredentials o).

(** An encoder that writes down what it is asked for. *)
Definition describing : Encoder :=
  fun canvas type quality =>
    match type with Some t => t | None => "image/png" end
    ++ match quality with
       | Some q => ";q=" ++ Js.numberToString (fun _ => "fraction") q
       | None => ""
       end.

(** *** Generated names *)

(** The name [util.uid] gives when its counter is at [i]. *)
Definition nameAt (host : Host) (i : nat) : string :=
  "u" ++ util.fourRandomChars host i ++ Js.intToString (N.of_nat i).

(** An element of class [note] whose two pseudo-elements have content. *)
Definition decorated : Element :=
  mkElement HTMLElement [("class", "note")] [] "" (Pixels "") 0%float 0%float Sample.noStyle
            (mkStyle "" [mkDeclaration "content" "'['" ""])
            (mkStyle "" [mkDeclaration "content" "']'" ""]).

(** *** Style sheets *)




(* ================================================================== *)
(** ** Promises: inversion *)

Lemma andThen_fulfilled {A B} (p : Promise A) (f : A -> Promise B) r b r' :
  andThen p f r = (Fulfilled b, r') ->
  exists a r1, p r = (Fulfilled a, r1) /\ f a r1 = (Fulfilled b, r').
Proof.
  unfold andThen. destruct (p r) as [[a | e |] r1]; intro H; try discriminate.
  exists a, r1. split; [reflexivity | exact H].
Qed.

(* ================================================================== *)
(** ** Sizes *)

Lemma makeSvgDataUri_fulfilled host font node w h r uri r' :
  makeSvgDataUri host font node w h r = (Fulfilled uri, r') ->
  exists xhtml,
    uri = uriPrefix
            ++ svgOf font (Js.numberToString (fractionToString host) w)
                          (Js.numberToString (fractionToString host) h)
                          (foreignObjectOf font xhtml).
Proof.
  unfold makeSvgDataUri.
  destruct node as [[ | original iface attrs style children | | ] | ]; try discriminate.
  cbn. intro H. injection H as <- _. eexists. reflexivity.
Qed.

(** What [toSvg] is fulfilled with is the markup of a container whose
    [width] and [height] print the explicit option when it is truthy and
    the scroll box of the root otherwise. *)
Lemma toSvg_fulfilled host font e kids options r uri r' :
  toSvg host font (ElementNode e kids) options r = (Fulfilled uri, r') ->
  exists xhtml,
    uri = uriPrefix
            ++ svgOf font
                 (Js.numberToString (fractionToString host)
                    (orElse (Options.width options) (util.width e)))
                 (Js.numberToString (fractionToString host)
                    (orElse (Options.height options) (util.height e)))
                 (foreignObjectOf font xhtml).
Proof.
  unfold toSvg. intro H.
  apply andThen_fulfilled in H as (c1 & r1 & _ & H).
  apply andThen_fulfilled in H as (c2 & r2 & _ & H).
  apply andThen_fulfilled in H as (c3 & r3 & _ & H).
  apply andThen_fulfilled in H as (c4 & r4 & _ & H).
  eapply makeSvgDataUri_fulfilled; eassumption.
Qed.

Lemma toSvg_text_root host font data options r :
  forall uri r', toSvg host font (TextNode data) options r <> (Fulfilled uri, r').
Proof.
  intros uri r' H. unfold toSvg in H.
  apply andThen_fulfilled in H as (c1 & r1 & _ & H).
  apply andThen_fulfilled in H as (c2 & r2 & _ & H).
  apply andThen_fulfilled in H as (c3 & r3 & _ & H).
  apply andThen_fulfilled in H as (c4 & r4 & _ & H).
  discriminate.
Qed.

Lemma toUnsignedLong_range x : (0 <= Js.toUnsignedLong x < 2 ^ 32)%Z.
Proof.
  unfold Js.toUnsignedLong. destruct (Prim2SF x); try (cbn; lia).
  apply Z.mod_pos_bound. lia.
Qed.

Lemma reflected_range default x :
  (0 <= default <= 2147483647)%Z -> (0 <= reflected default x <= 2147483647)%Z.
Proof.
  intro H. unfold reflected. cbn zeta.
  pose proof (toUnsignedLong_range x) as Hx.
  destruct (Js.toUnsignedLong x <=? 2147483647)%Z eqn:E; [| exact H].
  apply Z.leb_le in E. lia.
Qed.

(** [draw] is fulfilled with a canvas that was assigned the size of the
    container times the scale. *)
Lemma draw_fulfilled host font e kids options r canvas r' :
  draw host font (ElementNode e kids) options r = (Fulfilled canvas, r') ->
  let scale := match Options.scale options with Some k => k | None => 1%float end in
  canvasWidth canvas
  = reflected 300 (orElse (Options.width options) (util.width e) * scale)%float /\
  canvasHeight canvas
  = reflected 150 (orElse (Options.height options) (util.height e) * scale)%float.
Proof.
  unfold draw. intro H.
  apply andThen_fulfilled in H as (uri & r1 & _ & H).
  apply andThen_fulfilled in H as (image & r2 & _ & H).
  cbn in H. injection H as <- _. cbn. split; reflexivity.
Qed.

(** C5. A node with scroll width 200, scroll height 100, resolved left and
    right borders of 1px, top and bottom borders of 2px, converted without
    [width] or [height] option: the size read off it is 202 by 104, and
    whenever [toSvg] is fulfilled the container it wrote has [width] 202
    and [height] 104. *)
Theorem container_size_202_by_104 (host : Host) (font : string) (e : Element)
        (kids : list Node) (options : Options.t) :
  scrollWidth e = 200%float ->
  scrollHeight e = 100%float ->
  getPropertyValue (declarations (computedStyle e)) "border-left-width" = "1px" ->
  getPropertyValue (declarations (computedStyle e)) "border-right-width" = "1px" ->
  getPropertyValue (declarations (computedStyle e)) "border-top-width" = "2px" ->
  getPropertyValue (declarations (computedStyle e)) "border-bottom-width" = "2px" ->
  Options.width options = None ->
  Options.height options = None ->
  orElse (Options.width options) (util.width e) = 202%float /\
  orElse (Options.height options) (util.height e) = 104%float /\
  forall r uri r',
    toSvg host font (ElementNode e kids) options r = (Fulfilled uri, r') ->
    exists xhtml, uri = uriPrefix ++ svgOf font "202" "104" (foreignObjectOf font xhtml).
Proof.
  intros Hw Hh Hl Hr Ht Hb Ow Oh.
  assert (W : util.width e = 202%float).
  { unfold util.width, util.px. rewrite Hw, Hl, Hr. reflexivity. }
  assert (H : util.height e = 104%float).
  { unfold util.height, util.px. rewrite Hh, Ht, Hb. reflexivity. }
  rewrite Ow, Oh. cbn [orElse]. repeat split; try assumption.
  intros r uri r' Hrun.
  apply toSvg_fulfilled in Hrun as (xhtml & ->).
  rewrite Ow, Oh. cbn [orElse]. rewrite W, H. exists xhtml. reflexivity.
Qed.

(** The sample box, 200 by 100 with borders of 1px and 2px, and no size
    option. *)
Lemma container_size_202_by_104_witness :
  orElse (Options.width Options.none) (util.width Sample.box) = 202%float /\
  orElse (Options.height Options.none) (util.height Sample.box) = 104%float /\
  forall r uri r',
    toSvg Sample.host "" (ElementNode Sample.box []) Options.none r = (Fulfilled uri, r') ->
    exists xhtml, uri = uriPrefix ++ svgOf "" "202" "104" (foreignObjectOf "" xhtml).
Proof.
  apply (container_size_202_by_104 Sample.host "" Sample.box [] Options.none);
    reflexivity.
Defined.

(** C4, as stated, fails: with an explicit width of 50 on a node whose
    scroll box is 202 wide the container is 50 wide, not 202. *)
Lemma container_not_sized_to_larger :
  let node := ElementNode Sample.box [] in
  let options := Sample.widthOnly 50%float in
  let number := Js.numberToString (fractionToString Sample.host) in
  exists uri r' xhtml,
    toSvg Sample.host "" node options initialRealm = (Fulfilled uri, r') /\
    uri = uriPrefix ++ svgOf "" "50" "104" (foreignObjectOf "" xhtml) /\
    number (larger (Options.width options) (util.width Sample.box)) = "202" /\
    uri <> uriPrefix
             ++ svgOf "" (number (larger (Options.width options) (util.width Sample.box)))
                         (number (larger (Options.height options) (util.height Sample.box)))
                         (foreignObjectOf "" xhtml).
Proof.
  eexists. eexists.
  exists "<div xmlns='http://www.w3.org/1999/xhtml'><style></style></div>".
  split; [vm_compute; reflexivity |].
  split; [vm_compute; reflexivity |].
  split; [vm_compute; reflexivity |].
  vm_compute. discriminate.
Qed.

(** C4, amended. In each dimension the container [toSvg] writes is sized
    to the explicit option when that option is given and truthy, and to
    the scroll box of the node (scroll size plus the two resolved border
    widths) otherwise.  The canvas [draw] returns is assigned that size
    times the scale, and holds what a canvas makes of it: the product
    converted to an unsigned long (truncated towards zero, modulo 2^32),
    or the default of a canvas (300 wide, 150 high) when the converted
    value is above 2147483647; so each dimension of the canvas is a whole
    number from 0 to 2147483647. *)
Theorem container_sized_explicit_or_scroll_box (host : Host) (font : string)
        (e : Element) (kids : list Node) (options : Options.t) :
  let pick (explicit : option Js.number) (measured : Js.number) :=
    match explicit with
    | Some x => if Js.truthyNumber x then x else measured
    | None => measured
    end in
  let w := pick (Options.width options)
                (scrollWidth e + util.px e "border-left-width"
                 + util.px e "border-right-width")%float in
  let h := pick (Options.height options)
                (scrollHeight e + util.px e "border-top-width"
                 + util.px e "border-bottom-width")%float in
  let scale := match Options.scale options with Some k => k | None => 1%float end in
  (forall r uri r',
     toSvg host font (ElementNode e kids) options r = (Fulfilled uri, r') ->
     exists xhtml,
       uri = uriPrefix ++ svgOf font (Js.numberToString (fractionToString host) w)
                                     (Js.numberToString (fractionToString host) h)
                                     (foreignObjectOf font xhtml)) /\
  (forall r canvas r',
     draw host font (ElementNode e kids) options r = (Fulfilled canvas, r') ->
     canvasWidth canvas
     = (let n := Js.toUnsignedLong (w * scale)%float in
        if (n <=? 2147483647)%Z then n else 300%Z) /\
     canvasHeight canvas
     = (let n := Js.toUnsignedLong (h * scale)%float in
        if (n <=? 2147483647)%Z then n else 150%Z) /\
     (0 <= canvasWidth canvas <= 2147483647)%Z /\
     (0 <= canvasHeight canvas <= 2147483647)%Z).
Proof.
  cbn zeta. split.
  - intros r uri r' H. apply toSvg_fulfilled in H. exact H.
  - intros r canvas r' H. apply draw_fulfilled in H. cbn zeta in H.
    destruct H as [Hw Hh]. rewrite Hw, Hh.
    split; [reflexivity |]. split; [reflexivity |].
    split; apply reflected_range; lia.
Qed.

(** The sample box, 202 by 104.  With an explicit width of 50 and no
    explicit height the container is 50 by 104; at a scale of a quarter
    the canvas is 50 by 26, the half pixel of 50.5 being dropped; at a
    scale of -1 the canvas has the default size, 300 by 150. *)
Lemma container_sized_explicit_or_scroll_box_witness :
  (exists uri r' xhtml,
     toSvg Sample.host "" (ElementNode Sample.box []) (Sample.widthOnly 50%float) initialRealm
       = (Fulfilled uri, r') /\
     uri = uriPrefix ++ svgOf "" "50" "104" (foreignObjectOf "" xhtml)) /\
  (exists canvas r',
     draw Sample.host "" (ElementNode Sample.box []) (Sample.scaleOnly 0.25%float)
          initialRealm = (Fulfilled canvas, r') /\
     canvasWidth canvas = 50%Z /\ canvasHeight canvas = 26%Z) /\
  (exists canvas r',
     draw Sample.host "" (ElementNode Sample.box []) (Sample.scaleOnly (-1)%float)
          initialRealm = (Fulfilled canvas, r') /\
     canvasWidth canvas = 300%Z /\ canvasHeight canvas = 150%Z).
Proof.
  split; [| split].
  - destruct (toSvg Sample.host "" (ElementNode Sample.box []) (Sample.widthOnly 50%float)
                    initialRealm) as [s r'] eqn:Hrun.
    assert (Hs : s = fst (toSvg Sample.host "" (ElementNode Sample.box [])
                                (Sample.widthOnly 50%float) initialRealm))
      by (rewrite Hrun; reflexivity).
    vm_compute in Hs. subst s.
    destruct (container_sized_explicit_or_scroll_box
                Sample.host "" Sample.box [] (Sample.widthOnly 50%float)) as [Hsvg _].
    destruct (Hsvg _ _ _ Hrun) as (xhtml & Huri).
    eexists. exists r', xhtml. split; [reflexivity |].
    rewrite Huri. reflexivity.
  - destruct (draw Sample.host "" (ElementNode Sample.box []) (Sample.scaleOnly 0.25%float)
                   initialRealm) as [s r'] eqn:Hrun.
    assert (Hs : s = fst (draw Sample.host "" (ElementNode Sample.box [])
                               (Sample.scaleOnly 0.25%float) initialRealm))
      by (rewrite Hrun; reflexivity).
    vm_compute in Hs. subst s.
    destruct (container_sized_explicit_or_scroll_box
                Sample.host "" Sample.box [] (Sample.scaleOnly 0.25%float)) as [_ Hdraw].
    destruct (Hdraw _ _ _ Hrun) as (Hw & Hh & _).
    eexists. exists r'. split; [reflexivity |]. rewrite Hw, Hh. split; reflexivity.
  - destruct (draw Sample.host "" (ElementNode Sample.box []) (Sample.scaleOnly (-1)%float)
                   initialRealm) as [s r'] eqn:Hrun.
    assert (Hs : s = fst (draw Sample.host "" (ElementNode Sample.box [])
                               (Sample.scaleOnly (-1)%float) initialRealm))
      by (rewrite Hrun; reflexivity).
    vm_compute in Hs. subst s.
    destruct (container_sized_explicit_or_scroll_box
                Sample.host "" Sample.box [] (Sample.scaleOnly (-1)%float)) as [_ Hdraw].
    destruct (Hdraw _ _ _ Hrun) as (Hw & Hh & _).
    eexists. exists r'. split; [reflexivity |]. rewrite Hw, Hh. split; reflexivity.
Defined.

(* ================================================================== *)
(** ** The fetcher *)

Lemma handle_running placeholder url f e :
  running e -> util.handle placeholder url f e = f.
Proof.
  destruct e as [readyState status response | ]; cbn; [| contradiction].
  intro H. unfold util.done. apply N.eqb_neq in H. rewrite H. reflexivity.
Qed.

Lemma fold_running placeholder url pre f :
  Forall running pre -> fold_left (util.handle placeholder url) pre f = f.
Proof.
  intro H. revert f. induction H as [| e pre He _ IH]; intro f; cbn.
  - reflexivity.
  - rewrite handle_running by assumption. apply IH.
Qed.

Lemma handle_settled placeholder url w c e :
  fst (util.handle placeholder url (Some w, c) e) = Some w.
Proof.
  destruct e as [readyState status response | ]; cbn.
  - unfold util.done.
    destruct (negb (readyState =? 4)%N); [reflexivity |].
    destruct (negb (status =? 200)%N); [| reflexivity].
    destruct placeholder; reflexivity.
  - unfold util.timeout. destruct placeholder; reflexivity.
Qed.

Lemma fold_settled placeholder url post f w :
  fst f = Some w -> fst (fold_left (util.handle placeholder url) post f) = Some w.
Proof.
  revert f. induction post as [| e post IH]; intros f H; cbn; [exact H |].
  apply IH. destruct f as [v c]. cbn in H. subst v. apply handle_settled.
Qed.

(** The promise of [getAndEncode] is rejected exactly when sending the
    request throws, and then with what was thrown. *)
Lemma getAndEncode_rejected host url r reason :
  let o := implOptions r in
  fst (util.getAndEncode host url r) = Rejected reason
  <-> exists name,
        request host (util.truthyFlag (implUseCredentials o)) (util.bustedUrl host o url)
        = Throws name
        /\ reason = DOMException name.
Proof.
  cbn zeta. unfold util.getAndEncode.
  destruct (request host _ _) as [name | events].
  - cbn. split.
    + intro H. injection H as <-. eauto.
    + intros (name' & H & ->). injection H as ->. reflexivity.
  - split.
    + match goal with |- context [fold_left ?f ?l ?a] => destruct (fst (fold_left f l a)) end;
        cbn; discriminate.
    + intros (name & H & _). discriminate.
Qed.

(** What the request settles the promise with, by its first event that
    ends it. *)
Lemma getAndEncode_settles host url r pre e post :
  let o := implOptions r in
  request host (util.truthyFlag (implUseCredentials o)) (util.bustedUrl host o url)
    = Reports (pre ++ e :: post) ->
  Forall running pre ->
  forall w,
    fst (util.handle (util.placeholderOf o) (util.bustedUrl host o url) (None, console r) e)
      = Some w ->
    fst (util.getAndEncode host url r) = Fulfilled w.
Proof.
  cbn zeta. intros Hev Hpre w Hw.
  unfold util.getAndEncode. rewrite Hev, fold_left_app. cbn [fold_left].
  rewrite (fold_running _ _ pre) by assumption.
  rewrite (fold_settled _ _ post _ w Hw). reflexivity.
Qed.

Lemma handle_console placeholder url f e :
  exists later, snd (util.handle placeholder url f e) = (snd f ++ later)%list.
Proof.
  destruct f as [v c].
  destruct e as [readyState status response | ]; cbn.
  - unfold util.done.
    destruct (negb (readyState =? 4)%N); [exists []; cbn; now rewrite app_nil_r |].
    destruct (negb (status =? 200)%N).
    + destruct placeholder.
      * exists []. destruct v; cbn; now rewrite app_nil_r.
      * eexists [_]. destruct v; reflexivity.
    + exists []. destruct v; cbn; now rewrite app_nil_r.
  - unfold util.timeout. destruct placeholder.
    + exists []. destruct v; cbn; now rewrite app_nil_r.
    + eexists [_]. destruct v; reflexivity.
Qed.

Lemma fold_console placeholder url post f :
  exists later,
    snd (fold_left (util.handle placeholder url) post f) = (snd f ++ later)%list.
Proof.
  revert f. induction post as [| e post IH]; intro f; cbn.
  - exists []. now rewrite app_nil_r.
  - destruct (IH (util.handle placeholder url f e)) as (l2 & H2).
    destruct (handle_console placeholder url f e) as (l1 & H1).
    exists (l1 ++ l2)%list. rewrite H2, H1, app_assoc. reflexivity.
Qed.

(** A failed request without a placeholder goes through [fail]. *)
Lemma handle_failed_none url f e :
  failed e ->
  exists message, util.handle None url f e = util.fail message f.
Proof.
  destruct e as [readyState status response | ]; cbn.
  - intros [-> Hs]. apply N.eqb_neq in Hs. unfold util.done. cbn. rewrite Hs. cbn.
    eexists. reflexivity.
  - intros _. eexists. reflexivity.
Qed.

Lemma handle_failed_some p url f e :
  failed e -> util.handle (Some p) url f e = util.resolveWith (Some p) f.
Proof.
  destruct e as [readyState status response | ]; cbn.
  - intros [-> Hs]. apply N.eqb_neq in Hs. unfold util.done. cbn. rewrite Hs. reflexivity.
  - reflexivity.
Qed.

(** Cutting at the commas a text with exactly one comma. *)
Lemma split_no_comma s :
  Js.includesChar "," s = false -> Js.split "," s = [s].
Proof.
  induction s as [| c s IH]; cbn; [reflexivity |].
  intro H. apply orb_false_iff in H as [Hc Hs].
  rewrite Hc, (IH Hs). reflexivity.
Qed.

Lemma split_one_comma a b :
  Js.includesChar "," a = false ->
  Js.includesChar "," b = false ->
  Js.split "," (a ++ "," ++ b) = [a; b].
Proof.
  intros Ha Hb. change ("," ++ b) with (String "," b).
  induction a as [| c a IH]; cbn.
  - rewrite (split_no_comma b Hb). reflexivity.
  - cbn in Ha. apply orb_false_iff in Ha as [Hc Ha].
    rewrite Hc, (IH Ha). reflexivity.
Qed.

(** The placeholder payload of a configured data URL with one comma is
    what follows the comma. *)
Lemma placeholderOf_data_url o mime payload :
  implImagePlaceholder o = Some (mime ++ "," ++ payload) ->
  Js.includesChar "," mime = false ->
  Js.includesChar "," payload = false ->
  payload <> "" ->
  util.placeholderOf o = Some payload.
Proof.
  intros Ho Hm Hp Hne. unfold util.placeholderOf. rewrite Ho.
  pose proof (split_one_comma _ _ Hm Hp) as Hsplit.
  destruct (Js.truthyString (mime ++ "," ++ payload)) eqn:Ht.
  - rewrite Hsplit. cbn. destruct payload; [contradiction | reflexivity].
  - destruct mime; discriminate.
Qed.

Lemma getAndEncode_console host url r events :
  let o := implOptions r in
  request host (util.truthyFlag (implUseCredentials o)) (util.bustedUrl host o url)
    = Reports events ->
  console (snd (util.getAndEncode host url r))
  = snd (fold_left (util.handle (util.placeholderOf o) (util.bustedUrl host o url))
                   events (None, console r)).
Proof.
  cbn zeta. intro Hev. unfold util.getAndEncode. rewrite Hev.
  match goal with |- context [fold_left ?f ?l ?a] => destruct (fst (fold_left f l a)) end;
    reflexivity.
Qed.

(** The failure of a request, logged: with no placeholder payload the
    promise is fulfilled with the empty string, and an error is on the
    console. *)
Lemma getAndEncode_fails host url r pre e post :
  let o := implOptions r in
  request host (util.truthyFlag (implUseCredentials o)) (util.bustedUrl host o url)
    = Reports (pre ++ e :: post) ->
  Forall running pre ->
  failed e ->
  util.placeholderOf o = None ->
  fst (util.getAndEncode host url r) = Fulfilled (Some "") /\
  exists message later,
    console (snd (util.getAndEncode host url r))
    = (console r ++ ConsoleError message :: later)%list.
Proof.
  cbn zeta. intros Hev Hpre He Hnone.
  destruct (handle_failed_none (util.bustedUrl host (implOptions r) url)
                               (None, console r) e He) as (m & Hm).
  split.
  - apply (getAndEncode_settles host url r pre e post Hev Hpre). rewrite Hnone, Hm. reflexivity.
  - rewrite (getAndEncode_console host url r _ Hev), fold_left_app, Hnone. cbn [fold_left].
    rewrite (fold_running _ _ pre) by assumption. rewrite Hm.
    destruct (fold_console None (util.bustedUrl host (implOptions r) url) post
                           (util.fail m (None, console r))) as (later & Hl).
    exists m, later. rewrite Hl. cbn. rewrite <- app_assoc. reflexivity.
Qed.

(** C10, as stated, fails: the request is opened inside the executor of
    the promise, and on a locator that does not parse [open] throws, which
    rejects the promise. *)
Lemma getAndEncode_rejected_when_open_throws :
  util.getAndEncode refusingHost "http://a b/x.png" initialRealm
  = (Rejected (DOMException "SyntaxError"), initialRealm).
Proof. reflexivity. Qed.

(** C10, amended. The promise of [getAndEncode] is rejected exactly when
    sending the request throws.  Once the request is out and ends, the
    promise is fulfilled: with the payload of the response read as a data
    URL when the status is 200; with the payload of the configured
    placeholder, what follows the comma of that data URL, when the request
    failed (another status, or a timeout); and with the empty string, an
    error being logged, when it failed and no placeholder payload is to be
    had, as when none is configured. *)
Theorem getAndEncode_rejects_only_on_throw (host : Host) (url : string) (r : Realm) :
  let o := implOptions r in
  let sent :=
    request host (util.truthyFlag (implUseCredentials o)) (util.bustedUrl host o url) in
  let result := util.getAndEncode host url r in
  (forall reason,
     fst result = Rejected reason
     <-> exists name, sent = Throws name /\ reason = DOMException name) /\
  (implImagePlaceholder o = None -> util.placeholderOf o = None) /\
  (forall pre e post,
     sent = Reports (pre ++ e :: post) ->
     Forall running pre ->
     (forall response,
        e = ReadyStateChange 4 200 response ->
        fst result = Fulfilled (nth_error (Js.split "," response) 1) /\
        (forall mime payload,
           response = mime ++ "," ++ payload ->
           Js.includesChar "," mime = false ->
           Js.includesChar "," payload = false ->
           fst result = Fulfilled (Some payload))) /\
     (forall mime payload,
        failed e ->
        implImagePlaceholder o = Some (mime ++ "," ++ payload) ->
        Js.includesChar "," mime = false ->
        Js.includesChar "," payload = false ->
        payload <> "" ->
        fst result = Fulfilled (Some payload)) /\
     (failed e -> util.placeholderOf o = None ->
      fst result = Fulfilled (Some "") /\
      exists message later,
        console (snd result) = (console r ++ ConsoleError message :: later)%list)).
Proof.
  cbn zeta. split; [intro reason; apply getAndEncode_rejected |].
  split; [intro H; unfold util.placeholderOf; rewrite H; reflexivity |].
  intros pre e post Hev Hpre. split; [| split].
  - intros response ->. split.
    + eapply getAndEncode_settles; eauto.
    + intros mime payload -> Hm Hp.
      eapply getAndEncode_settles; eauto.
      unfold util.handle, util.done. cbn [N.eqb Pos.eqb negb].
      rewrite (split_one_comma _ _ Hm Hp). reflexivity.
  - intros mime payload Hf Ho Hm Hp Hne. eapply getAndEncode_settles; eauto.
    rewrite (placeholderOf_data_url _ mime payload Ho Hm Hp Hne).
    rewrite handle_failed_some by assumption. reflexivity.
  - intros Hf Hnone. apply (getAndEncode_fails host url r pre e post Hev Hpre Hf Hnone).
Qed.

(** On the sample host the request of [b.png] succeeds and the one of
    [a.png] ends with status 404: the first promise is fulfilled with the
    payload, the second with the payload of the placeholder when one is
    configured, and with the empty string when none is. *)
Lemma getAndEncode_rejects_only_on_throw_witness :
  let r := copyOptions (Sample.withPlaceholder "data:image/png;base64,UExBQ0U=") initialRealm in
  fst (util.getAndEncode Sample.host "b.png" initialRealm) = Fulfilled (Some "QUJD") /\
  fst (util.getAndEncode Sample.host "a.png" r) = Fulfilled (Some "UExBQ0U=") /\
  fst (util.getAndEncode Sample.host "a.png" initialRealm) = Fulfilled (Some "") /\
  exists message later,
    console (snd (util.getAndEncode Sample.host "a.png" initialRealm))
    = (console initialRealm ++ ConsoleError message :: later)%list.
Proof.
  cbn zeta.
  destruct (getAndEncode_rejects_only_on_throw Sample.host "b.png" initialRealm)
    as (_ & _ & Hb).
  destruct (Hb [ReadyStateChange 2 200 ""]
               (ReadyStateChange 4 200 "data:image/png;base64,QUJD") [])
    as (Hok & _).
  { reflexivity. }
  { constructor; [cbn; discriminate | constructor]. }
  destruct (Hok _ eq_refl) as [_ Hpayload].
  split.
  { apply (Hpayload "data:image/png;base64" "QUJD"); reflexivity. }
  destruct (getAndEncode_rejects_only_on_throw
              Sample.host "a.png"
              (copyOptions (Sample.withPlaceholder "data:image/png;base64,UExBQ0U=")
                           initialRealm)) as (_ & _ & Hp).
  destruct (Hp [] (ReadyStateChange 4 404 "") []) as (_ & Hplace & _).
  { reflexivity. }
  { constructor. }
  split.
  { apply (Hplace "data:image/png;base64" "UExBQ0U=");
      [cbn; split; [reflexivity | discriminate] | reflexivity .. | discriminate]. }
  destruct (getAndEncode_rejects_only_on_throw Sample.host "a.png" initialRealm)
    as (_ & _ & Ha).
  destruct (Ha [] (ReadyStateChange 4 404 "") []) as (_ & _ & Hfail).
  { reflexivity. }
  { constructor. }
  apply Hfail.
  - cbn. split; [reflexivity | discriminate].
  - reflexivity.
Defined.

(** C7. A request that times out and one that is done with a status other
    than 200 settle the promise alike: what it is fulfilled with depends on
    the configuration only, the placeholder payload when there is one and
    the empty string of [fail] when there is none; each of the two
    handlers resolves with the placeholder payload in the first case and
    calls [fail] in the second; and the placeholder payload of a data URL
    is what follows its comma. *)
Theorem timeout_like_failed_status (host : Host) (url : string) (r : Realm)
        (pre post : list XhrEvent) (e : XhrEvent) :
  let o := implOptions r in
  let url' := util.bustedUrl host o url in
  request host (util.truthyFlag (implUseCredentials o)) url' = Reports (pre ++ e :: post) ->
  Forall running pre ->
  failed e ->
  fst (util.getAndEncode host url r)
    = Fulfilled (Some (match util.placeholderOf o with Some p => p | None => "" end)) /\
  (forall (f : util.Fetch) (status : N) (response : string),
     status <> 200%N ->
     match util.placeholderOf o with
     | Some p =>
         util.done (Some p) url' 4 status response f = util.resolveWith (Some p) f /\
         util.timeout (Some p) url' f = util.resolveWith (Some p) f
     | None =>
         exists m1 m2,
           util.done None url' 4 status response f = util.fail m1 f /\
           util.timeout None url' f = util.fail m2 f
     end) /\
  (forall mime payload,
     implImagePlaceholder o = Some (mime ++ "," ++ payload) ->
     Js.includesChar "," mime = false ->
     Js.includesChar "," payload = false ->
     payload <> "" ->
     util.placeholderOf o = Some payload).
Proof.
  cbn zeta. intros Hev Hpre Hf. repeat split.
  - eapply getAndEncode_settles; eauto.
    destruct (util.placeholderOf (implOptions r)) as [p |].
    + rewrite handle_failed_some by assumption. reflexivity.
    + destruct (handle_failed_none (util.bustedUrl host (implOptions r) url)
                                   (None, console r) e Hf) as (m & ->).
      reflexivity.
  - intros f status response Hs.
    destruct (util.placeholderOf (implOptions r)) as [p |].
    + split.
      * apply (handle_failed_some p (util.bustedUrl host (implOptions r) url) f
                                  (ReadyStateChange 4 status response)).
        cbn. split; [reflexivity | assumption].
      * reflexivity.
    + destruct (handle_failed_none (util.bustedUrl host (implOptions r) url) f
                                   (ReadyStateChange 4 status response)) as (m1 & H1).
      { cbn. split; [reflexivity | assumption]. }
      exists m1. eexists. split; [exact H1 | reflexivity].
  - intros mime payload. apply placeholderOf_data_url.
Qed.

(** With a placeholder configured, the 404 of [a.png] is fulfilled with the
    payload of the placeholder. *)
Lemma timeout_like_failed_status_witness :
  let r := copyOptions (Sample.withPlaceholder "data:image/png;base64,UExBQ0U=") initialRealm in
  fst (util.getAndEncode Sample.host "a.png" r) = Fulfilled (Some "UExBQ0U=").
Proof.
  cbn zeta.
  destruct (timeout_like_failed_status
              Sample.host "a.png"
              (copyOptions (Sample.withPlaceholder "data:image/png;base64,UExBQ0U=")
                           initialRealm)
              [] [] (ReadyStateChange 4 404 "")) as [H _].
  - reflexivity.
  - constructor.
  - cbn. split; [reflexivity | discriminate].
  - exact H.
Defined.

(** C1, on the code. Without a placeholder the failed fetch of [a.png]
    fulfils the promise of [getAndEncode] with the empty string after
    logging the error, and the conversion goes on: [toSvg] is fulfilled,
    with an image whose source is a data URL without payload. *)
Theorem failed_fetch_is_fulfilled :
  util.getAndEncode Sample.host "a.png" initialRealm
    = (Fulfilled (Some ""),
       mkRealm emptyImplOptions
               [ConsoleError "cannot fetch resource: a.png, status: 404"] 0) /\
  toSvg Sample.host "" missingImage Options.none initialRealm
    = (Fulfilled
         (uriPrefix
            ++ svgOf "" "202" "104"
                 (foreignObjectOf ""
                    ("<div xmlns='http://www.w3.org/1999/xhtml'>"
                       ++ "<img src='data:image/png;base64,'></img>"
                       ++ "<style></style></div>"))),
       mkRealm defaultOptions
               [ConsoleError "cannot fetch resource: a.png, status: 404"] 0).
Proof. split; vm_compute; reflexivity. Qed.

(* ================================================================== *)
(** ** The cloner: pseudo-elements *)

(** No content, or [none]: the clone and the realm are left as they are. *)
Lemma clonePseudoElement_skips host original element clone r :
  pseudoContent original element = "" \/ pseudoContent original element = "none" ->
  clonePseudoElement host original element clone r = (Fulfilled clone, r).
Proof.
  unfold pseudoContent, clonePseudoElement. intros [-> | ->]; reflexivity.
Qed.

(** Any other content: one rule is appended, under a fresh [uid]; the
    class list gets that name when the clone has a class attribute that is
    not empty, and is left alone when it has none. *)
Lemma clonePseudoElement_appends host original element clone r :
  pseudoContent original element <> "" ->
  pseudoContent original element <> "none" ->
  let className :=
    "u" ++ util.fourRandomChars host (uidIndex r) ++ Js.intToString (N.of_nat (uidIndex r)) in
  let rule :=
    StyleElement (formatPseudoElementStyle className element
                                           (getComputedPseudo original element)) in
  clonePseudoElement host original element clone r
  = (Fulfilled
       (mkWorking (wIface clone)
                  (if Js.truthy (getAttribute (wAttrs clone) "class")
                   then setAttribute (wAttrs clone) "class"
                          (Js.toStr (getAttribute (wAttrs clone) "class") ++ " " ++ className)
                   else wAttrs clone)
                  (wStyle clone)
                  (wChildren clone ++ [rule])%list),
     mkRealm (implOptions r) (console r) (S (uidIndex r))).
Proof.
  unfold pseudoContent, clonePseudoElement. intros H1 H2.
  apply String.eqb_neq in H1, H2. rewrite H1, H2. reflexivity.
Qed.

(** C3, on the code. Cloning an element that has no class attribute and
    whose [:before] has content appends the synthesized rule for the class
    [u00000] to the clone, and leaves the clone without any class. *)
Theorem pseudo_element_class_not_added :
  cloneNode Sample.host (ElementNode plainBefore []) None true initialRealm
  = (Fulfilled
       (Some (ClonedElement (ElementNode plainBefore []) HTMLElement []
                            [mkDeclaration "font-stretch" "normal" ""]
                            [StyleElement ".u00000::before{content: 'x';}"])),
     mkRealm emptyImplOptions [] 1).
Proof. vm_compute. reflexivity. Qed.

(* ================================================================== *)
(** ** The cloner: which nodes the clone holds *)

(** Induction on a node, with the property at hand for all its children. *)
Lemma Node_induction (P : Node -> Prop) :
  (forall data, P (TextNode data)) ->
  (forall e kids, Forall P kids -> P (ElementNode e kids)) ->
  forall node, P node.
Proof.
  intros Htext Helem.
  fix IH 1. intros [data | e kids].
  - apply Htext.
  - apply Helem. induction kids as [| k kids IHkids]; constructor.
    + apply IH.
    + exact IHkids.
Qed.

Lemma cloneNode_unfold host node filter root :
  cloneNode host node filter root
  = if negb root && match filter with Some f => negb (f node) | None => false end
    then resolve None
    else
      clone <- makeNodeCopy host node ;;
      clone <- cloneChildren (fun child => cloneNode host child filter false)
                             (childNodes node) clone ;;
      processClone host node clone.
Proof. destruct node; reflexivity. Qed.

Lemma excluded_passes filter root node :
  negb root && match filter with Some f => negb (f node) | None => false end
  = negb (root || passes filter node).
Proof. destruct root, filter as [f |]; cbn; try reflexivity. Qed.

(** A pseudo-element adds its created style element after what the clone
    holds, and nothing else. *)
Lemma clonePseudoElement_outline host original element clone r :
  exists clone' r',
    clonePseudoElement host original element clone r = (Fulfilled clone', r') /\
    map outline (wChildren clone')
    = (map outline (wChildren clone) ++ rule original element)%list.
Proof.
  unfold rule.
  destruct (String.eqb (pseudoContent original element) "") eqn:H1.
  { apply String.eqb_eq in H1. eexists. eexists. split.
    - apply clonePseudoElement_skips. left. exact H1.
    - cbn [orb]. rewrite app_nil_r. reflexivity. }
  destruct (String.eqb (pseudoContent original element) "none") eqn:H2.
  { apply String.eqb_eq in H2. eexists. eexists. split.
    - apply clonePseudoElement_skips. right. exact H2.
    - cbn [orb]. rewrite app_nil_r. reflexivity. }
  apply String.eqb_neq in H1, H2. eexists. eexists. split.
  - apply clonePseudoElement_appends; assumption.
  - cbn [wChildren orb]. rewrite map_app. reflexivity.
Qed.

Lemma clonePseudoElements_outline host original clone r :
  exists clone' r',
    clonePseudoElements host original clone r = (Fulfilled clone', r') /\
    map outline (wChildren clone') = (map outline (wChildren clone) ++ rules original)%list.
Proof.
  unfold clonePseudoElements. cbn [fold_left]. unfold andThen at 1 2. cbn [resolve].
  destruct (clonePseudoElement_outline host original ":before" clone r)
    as (c1 & r1 & -> & E1).
  destruct (clonePseudoElement_outline host original ":after" c1 r1)
    as (c2 & r2 & -> & E2).
  exists c2, r2. split; [reflexivity |].
  rewrite E2, E1. unfold rules. rewrite app_assoc. reflexivity.
Qed.

Lemma fixSvg_children clone : wChildren (fixSvg clone) = wChildren clone.
Proof.
  unfold fixSvg. destruct (negb (isSVGElement (wIface clone))); [reflexivity |].
  cbn [wIface]. destruct (wIface clone); try reflexivity.
  cbn [fold_left]. unfold mirrorAttribute. cbn [wAttrs wChildren wIface wStyle].
  repeat match goal with
         | |- context [match ?x with _ => _ end] => destruct x; cbn [wAttrs wChildren wIface wStyle]
         end; reflexivity.
Qed.

Lemma copyUserInput_outline original clone :
  map outline (wChildren (copyUserInput original clone))
  = if isTextArea original then content original else map outline (wChildren clone).
Proof.
  unfold copyUserInput, isTextArea, content.
  destruct (interface original); cbn; try reflexivity.
  destruct (Js.truthyString (value original)); reflexivity.
Qed.

(** [processClone] on the clone of an element: below it are the clones of
    the children followed by the created style elements, unless the
    element is a text area, below which is its content. *)
Lemma processClone_outline host e kids source iface attrs style children r :
  exists iface' attrs' style' children' r',
    processClone host (ElementNode e kids)
                 (Some (ClonedElement source iface attrs style children)) r
    = (Fulfilled (Some (ClonedElement source iface' attrs' style' children')), r') /\
    map outline children'
    = if isTextArea e then content e else (map outline children ++ rules e)%list.
Proof.
  unfold processClone.
  destruct (clonePseudoElements_outline
              host e (cloneStyle e (mkWorking iface attrs style children)) r)
    as (w & r' & Hw & E).
  unfold andThen. rewrite Hw. cbn [resolve].
  do 4 eexists. exists r'. split; [reflexivity |].
  rewrite fixSvg_children, copyUserInput_outline, E. reflexivity.
Qed.













(* ================================================================== *)
(** ** Strings and patterns: the facts the inliner needs *)

Lemma append_nil_r (s : string) : s ++ "" = s.
Proof. induction s as [| c s IH]; cbn; [reflexivity | now rewrite IH]. Qed.

Lemma append_assoc (a b c : string) : (a ++ b) ++ c = a ++ (b ++ c).
Proof. induction a as [| x a IH]; cbn; [reflexivity | now rewrite IH]. Qed.

Lemma length_append (a b : string) :
  String.length (a ++ b) = String.length a + String.length b.
Proof. induction a as [| x a IH]; cbn; [reflexivity | now rewrite IH]. Qed.

Lemma take_append (a b : string) : RegExp.take (String.length a) (a ++ b) = a.
Proof. induction a as [| x a IH]; cbn; [destruct b; reflexivity | now rewrite IH]. Qed.

Lemma dropPrefix_append (p s : string) : Js.dropPrefix p (p ++ s) = Some s.
Proof.
  induction p as [| c p IH]; cbn; [reflexivity |]. rewrite Ascii.eqb_refl. exact IH.
Qed.

Lemma dropPrefix_some (p s rest : string) :
  Js.dropPrefix p s = Some rest -> s = p ++ rest.
Proof.
  revert s. induction p as [| c p IH]; intros s H; cbn in *.
  - congruence.
  - destruct s as [| b s]; [discriminate |].
    destruct (Ascii.eqb_spec c b) as [-> |]; [| discriminate].
    rewrite (IH s H). reflexivity.
Qed.

Lemma concat_app (l1 l2 : list string) :
  String.concat "" (l1 ++ l2) = String.concat "" l1 ++ String.concat "" l2.
Proof.
  induction l1 as [| a l1 IH]; [reflexivity |].
  destruct l1 as [| b l1].
  - cbn. destruct l2; cbn; [now rewrite append_nil_r | reflexivity].
  - change (String.concat "" ((a :: b :: l1) ++ l2))
      with (a ++ String.concat "" ((b :: l1) ++ l2)).
    rewrite IH. cbn [String.concat]. cbn. now rewrite append_assoc.
Qed.

Lemma concat_cons (a : string) (l : list string) :
  String.concat "" (a :: l) = a ++ String.concat "" l.
Proof. destruct l; cbn; [now rewrite append_nil_r | reflexivity]. Qed.

Lemma allChars_app p a b : allChars p (a ++ b) = allChars p a && allChars p b.
Proof. induction a as [| c a IH]; cbn; [reflexivity | now rewrite IH, andb_assoc]. Qed.

Lemma allChars_weaken (p q : ascii -> bool) s :
  (forall c, p c = true -> q c = true) -> allChars p s = true -> allChars q s = true.
Proof.
  intro Hpq. induction s as [| c s IH]; cbn; [reflexivity |].
  intro H. apply andb_prop in H as [Hc Hs]. now rewrite (Hpq c Hc), (IH Hs).
Qed.

Lemma plainChar_not_quote c : plainChar c = true -> inliner.quote c = false.
Proof.
  unfold plainChar. intro H. apply negb_true_iff in H.
  apply orb_false_iff in H as [H _]. apply orb_false_iff in H as [H _]. exact H.
Qed.

Lemma plainChar_not_open c : plainChar c = true -> Ascii.eqb c "(" = false.
Proof.
  unfold plainChar. intro H. apply negb_true_iff in H.
  apply orb_false_iff in H as [H _]. apply orb_false_iff in H as [_ H]. exact H.
Qed.

Lemma plainChar_not_close c : plainChar c = true -> Ascii.eqb c ")" = false.
Proof.
  unfold plainChar. intro H. apply negb_true_iff in H.
  apply orb_false_iff in H as [_ H]. exact H.
Qed.

(** *** The replacement template of [inline] *)

Lemma substitute_payload (d tail : string) groups before m :
  allChars (fun c => negb (Ascii.eqb c "$")) d = true ->
  RegExp.substitute (d ++ tail) groups before m
  = d ++ RegExp.substitute tail groups before m.
Proof.
  induction d as [| c d IH]; cbn [append allChars]; [reflexivity |].
  intro H. apply andb_prop in H as [Hc Hd].
  cbn [RegExp.substitute]. rewrite Hc. cbn [negb]. now rewrite (IH Hd).
Qed.

(** With three groups and a text that has no dollar sign and starts with
    a letter, the template [$1 text $3] is the first group, the text, and
    the third group. *)
Lemma substitute_template (c : ascii) (d : string) before m :
  RegExp.digitOf c = None ->
  Ascii.eqb c "$" = false ->
  allChars (fun c => negb (Ascii.eqb c "$")) d = true ->
  RegExp.substitute ("$1" ++ String c d ++ "$3") 3 before m
  = RegExp.captured m 1 ++ String c d ++ RegExp.captured m 3.
Proof.
  intros Hdigit Hdollar Hd.
  change ("$1" ++ String c d ++ "$3") with (String "$" (String "1" (String c (d ++ "$3")))).
  cbn [RegExp.substitute Ascii.eqb Bool.eqb negb].
  change (RegExp.digitOf "1") with (Some 1). cbn match. rewrite Hdigit.
  cbn [Nat.leb andb]. rewrite Hdollar. cbn [negb].
  rewrite (substitute_payload d "$3" 3 before m Hd).
  change (RegExp.substitute "$3" 3 before m) with (RegExp.captured m 3 ++ "").
  rewrite append_nil_r. reflexivity.
Qed.

(** *** A global pass over a text *)

Lemma pieces_step r i c s :
  RegExp.pieces r i (String c s) 0
  = match RegExp.attemptAt r i (String c s) with
    | Some m =>
        match String.length (RegExp.matched m) with
        | O => RegExp.Hit m :: RegExp.Plain c :: RegExp.pieces r (S i) s 0
        | S n => RegExp.Hit m :: RegExp.pieces r (S i) s n
        end
    | None => RegExp.Plain c :: RegExp.pieces r (S i) s 0
    end.
Proof. reflexivity. Qed.

(** The characters a match covers are passed over. *)
Lemma pieces_skip r a rest i :
  RegExp.pieces r i (a ++ rest) (String.length a)
  = RegExp.pieces r (i + String.length a) rest 0.
Proof.
  revert i. induction a as [| c a IH]; intro i; cbn [append String.length].
  - rewrite Nat.add_0_r. reflexivity.
  - cbn [RegExp.pieces]. rewrite IH. f_equal. lia.
Qed.

(** A stretch where no attempt succeeds is left as it is. *)
Lemma pieces_dead r stretch rest i :
  (forall a b, stretch = a ++ b -> b <> "" ->
               RegExp.attemptAt r (i + String.length a) (b ++ rest) = None) ->
  RegExp.pieces r i (stretch ++ rest) 0
  = (plains stretch ++ RegExp.pieces r (i + String.length stretch) rest 0)%list.
Proof.
  revert i. induction stretch as [| c st IH]; intros i H; cbn [append String.length plains].
  - rewrite Nat.add_0_r. reflexivity.
  - rewrite pieces_step.
    assert (H0 := H "" (String c st) eq_refl).
    cbn [String.length append] in H0. rewrite Nat.add_0_r in H0.
    rewrite H0 by discriminate.
    cbn [List.app]. f_equal. rewrite IH.
    + f_equal. f_equal. lia.
    + intros a b -> Hb. specialize (H (String c a) b eq_refl Hb).
      cbn [String.length] in H. rewrite <- H. f_equal. lia.
Qed.

(** A match at the head of the text is recorded, and the pass goes on
    after it. *)
Lemma pieces_hit r w rest i m :
  RegExp.attemptAt r i (w ++ rest) = Some m ->
  RegExp.matched m = w ->
  w <> "" ->
  RegExp.pieces r i (w ++ rest) 0
  = RegExp.Hit m :: RegExp.pieces r (i + String.length w) rest 0.
Proof.
  intros Hm Hw Hne. destruct w as [| c w]; [contradiction |].
  cbn [append]. rewrite pieces_step. cbn [append] in Hm. rewrite Hm, Hw.
  cbn [String.length]. f_equal. rewrite pieces_skip. f_equal. lia.
Qed.

Lemma execFrom_none r s :
  forall i, RegExp.execFrom r i s = None -> hits (RegExp.pieces r i s 0) = [].
Proof.
  induction s as [| c s IH]; intros i H; cbn [RegExp.execFrom] in H.
  - cbn [RegExp.pieces]. destruct (RegExp.attemptAt r i ""); [discriminate | reflexivity].
  - rewrite pieces_step. destruct (RegExp.attemptAt r i (String c s)); [discriminate |].
    cbn. apply IH. exact H.
Qed.

Lemma emit_plains r template whole s l :
  String.concat "" (map (RegExp.emit r template whole) (plains s ++ l)%list)
  = s ++ String.concat "" (map (RegExp.emit r template whole) l).
Proof.
  induction s as [| c s IH]; [reflexivity |].
  cbn [plains List.app map]. rewrite concat_cons, IH. reflexivity.
Qed.

Lemma hits_plains s l : hits (plains s ++ l)%list = hits l.
Proof. induction s as [| c s IH]; [reflexivity | exact IH]. Qed.

(** *** Text that does not start a reference *)

(** When [a ++ s] starts with [url(] and [a] is not empty, either [a]
    does already, or [s] begins with one of the last three characters. *)
Lemma startsUrl_app a s :
  a <> "" ->
  startsUrl (a ++ s) = true ->
  startsUrl a = true \/
  exists c s', s = String c s' /\ (c = "r" \/ c = "l" \/ c = "(")%char.
Proof.
  intros Ha H. unfold startsUrl, Js.startsWith in *.
  destruct a as [| c0 a]; [contradiction |].
  cbn [append Js.dropPrefix] in *.
  destruct (Ascii.eqb "u" c0); [| discriminate].
  destruct a as [| c1 a]; cbn [append Js.dropPrefix] in *.
  { destruct s as [| c s']; [discriminate |].
    destruct (Ascii.eqb_spec "r" c) as [<- |]; [| discriminate].
    right. exists "r"%char, s'. split; [reflexivity | auto]. }
  destruct (Ascii.eqb "r" c1); [| discriminate].
  destruct a as [| c2 a]; cbn [append Js.dropPrefix] in *.
  { destruct s as [| c s']; [discriminate |].
    destruct (Ascii.eqb_spec "l" c) as [<- |]; [| discriminate].
    right. exists "l"%char, s'. split; [reflexivity | auto]. }
  destruct (Ascii.eqb "l" c2); [| discriminate].
  destruct a as [| c3 a]; cbn [append Js.dropPrefix] in *.
  { destruct s as [| c s']; [discriminate |].
    destruct (Ascii.eqb_spec "(" c) as [<- |]; [| discriminate].
    right. exists "("%char, s'. split; [reflexivity | auto]. }
  destruct (Ascii.eqb "(" c3); [| discriminate].
  left. reflexivity.
Qed.

Lemma urlFree_suffix a b : urlFree (a ++ b) = true -> urlFree b = true.
Proof.
  induction a as [| c a IH]; [trivial |].
  cbn [append urlFree]. intro H. apply andb_prop in H as [_ H]. exact (IH H).
Qed.

Lemma urlFree_not_start b : b <> "" -> urlFree b = true -> startsUrl b = false.
Proof.
  destruct b as [| c b]; [contradiction |]. intros _ H.
  cbn [urlFree] in H. apply andb_prop in H as [H _]. now apply negb_true_iff in H.
Qed.

Lemma plain_not_start b : plain b = true -> startsUrl b = false.
Proof.
  unfold plain, startsUrl, Js.startsWith.
  destruct b as [| c0 [| c1 [| c2 [| c3 b]]]]; cbn [Js.dropPrefix]; try reflexivity;
    try (destruct (Ascii.eqb "u" c0); [| reflexivity]);
    try (destruct (Ascii.eqb "r" c1); [| reflexivity]);
    try (destruct (Ascii.eqb "l" c2); [| reflexivity]);
    try reflexivity.
  cbn [allChars]. intro H.
  apply andb_prop in H as [_ H]. apply andb_prop in H as [_ H].
  apply andb_prop in H as [_ H]. apply andb_prop in H as [H _].
  apply plainChar_not_open in H. rewrite Ascii.eqb_sym, H. reflexivity.
Qed.

Lemma plain_suffix a b : plain (a ++ b) = true -> plain b = true.
Proof.
  unfold plain. rewrite allChars_app. intro H. apply andb_prop in H as [_ H]. exact H.
Qed.

(** *** References, as they are written *)

Lemma quote_not_close q : inliner.quote q = true -> Ascii.eqb ")" q = false.
Proof.
  unfold inliner.quote. intro H. apply orb_prop in H as [H | H];
    apply Ascii.eqb_eq in H; subst q; reflexivity.
Qed.

Lemma closer_plain c s j caps k :
  plainChar c = true -> RegExp.run closer j (String c s) caps k = None.
Proof.
  intro H. cbn [closer RegExp.run Js.dropPrefix].
  rewrite (plainChar_not_quote c H).
  rewrite Ascii.eqb_sym, (plainChar_not_close c H). reflexivity.
Qed.

Lemma closer_close closing rest j caps k :
  quoteMark closing = true ->
  RegExp.run closer j (closing ++ ")" ++ rest) caps k
  = k (j + String.length closing + 1) rest caps.
Proof.
  intro H. destruct closing as [| q [| c closing]]; cbn [quoteMark] in H; try discriminate.
  - cbn. rewrite Nat.add_0_r. reflexivity.
  - cbn [closer RegExp.run append Js.dropPrefix String.length].
    rewrite H, Ascii.eqb_refl, (quote_not_close q H).
    replace (j + 1 + 1) with (S j + 1) by lia.
    destruct (k (S j + 1) rest caps); reflexivity.
Qed.

Lemma lazyStar_plain t s i caps k :
  plain t = true ->
  (forall c s' j, plainChar c = true -> k j (String c s') caps = None) ->
  RegExp.lazyStar inliner.notQuote i (t ++ s) caps k
  = RegExp.lazyStar inliner.notQuote (i + String.length t) s caps k.
Proof.
  intros Ht Hk. revert i. induction t as [| c t IH]; intro i; cbn [append String.length].
  - rewrite Nat.add_0_r. reflexivity.
  - cbn [plain allChars] in Ht. apply andb_prop in Ht as [Hc Ht].
    cbn [RegExp.lazyStar]. rewrite (Hk c _ i Hc).
    unfold inliner.notQuote at 1. rewrite (plainChar_not_quote c Hc). cbn [negb].
    rewrite (IH Ht). f_equal. lia.
Qed.

(** One step of the matcher, pattern by pattern. *)
Lemma run_Seq r1 r2 i s caps k :
  RegExp.run (RegExp.Seq r1 r2) i s caps k
  = RegExp.run r1 i s caps (fun j s' caps' => RegExp.run r2 j s' caps' k).
Proof. reflexivity. Qed.

Lemma run_Chars lit i s caps k :
  RegExp.run (RegExp.Chars lit) i s caps k
  = match Js.dropPrefix lit s with
    | Some rest => k (i + String.length lit) rest caps
    | None => None
    end.
Proof. reflexivity. Qed.

Lemma run_Opt r i s caps k :
  RegExp.run (RegExp.Opt r) i s caps k
  = match RegExp.run r i s caps k with
    | Some a => Some a
    | None => k i s caps
    end.
Proof. reflexivity. Qed.

Lemma run_Class p i c s caps k :
  RegExp.run (RegExp.Class p) i (String c s) caps k
  = if p c then k (S i) s caps else None.
Proof. reflexivity. Qed.

Lemma run_Group n r i s caps k :
  RegExp.run (RegExp.Group n r) i s caps k
  = RegExp.run r i s caps (fun j s' caps' => k j s' ((n, RegExp.take (j - i) s) :: caps')).
Proof. reflexivity. Qed.

Lemma run_LazyPlus p i c s caps k :
  RegExp.run (RegExp.LazyPlus p) i (String c s) caps k
  = if p c then RegExp.lazyStar p (S i) s caps k else None.
Proof. reflexivity. Qed.

(** An optional quote before [k]: skipped before a plain character, and
    taken when it is there and [k] succeeds after it. *)
Lemma optional_quote_absent c s i caps k :
  plainChar c = true ->
  RegExp.run (RegExp.Opt (RegExp.Class inliner.quote)) i (String c s) caps k
  = k i (String c s) caps.
Proof.
  intro H. rewrite run_Opt, run_Class, (plainChar_not_quote c H). reflexivity.
Qed.

Lemma optional_quote_taken q s i caps k a :
  inliner.quote q = true ->
  k (S i) s caps = Some a ->
  RegExp.run (RegExp.Opt (RegExp.Class inliner.quote)) i (String q s) caps k = Some a.
Proof.
  intros H Hk. rewrite run_Opt, run_Class, H, Hk. reflexivity.
Qed.

Lemma written_app ref rest :
  written ref ++ rest
  = "url(" ++ opening ref ++ target ref ++ closing ref ++ ")" ++ rest.
Proof.
  unfold written. rewrite !append_assoc. reflexivity.
Qed.

Lemma written_length ref :
  String.length (written ref)
  = 4 + String.length (opening ref) + String.length (target ref)
    + String.length (closing ref) + 1.
Proof.
  unfold written. rewrite !length_append. cbn [String.length]. lia.
Qed.

(** [take_append], whichever way the appends of the goal are folded. *)
Ltac take_app a b :=
  let E := fresh "E" in
  pose proof (take_append a b) as E;
  cbn [append] in E; cbn [append]; rewrite E; clear E.

(** Two results that differ in how the end index is written. *)
Ltac same_index :=
  cbn [String.length];
  match goal with
  | |- Some (?a, _, _) = Some (?b, _, _) => replace a with b by lia; reflexivity
  end.

(** Rewriting with a fact, whichever way the appends are folded. *)
Ltac rewrite_mod H :=
  let E := fresh "E" in
  pose proof H as E;
  cbn [append] in E; cbn [append]; rewrite E; clear E.

Lemma urlBody_matches t c rest j caps :
  plain t = true -> t <> "" -> quoteMark c = true ->
  RegExp.run urlBody j (t ++ c ++ ")" ++ rest) caps final
  = Some (j + String.length t + String.length c + 1, rest, (1, t) :: caps).
Proof.
  intros Ht Hne Hc. destruct t as [| t0 t]; [contradiction |].
  pose proof Ht as Ht'. cbn [plain allChars] in Ht'. apply andb_prop in Ht' as [Ht0 Htail].
  unfold urlBody. rewrite run_Seq, run_Group. cbn [append].
  rewrite run_LazyPlus. unfold inliner.notQuote at 1.
  rewrite (plainChar_not_quote t0 Ht0). cbn [negb].
  rewrite lazyStar_plain; [| exact Htail |].
  2:{ intros c0 s' j0 H0. apply closer_plain. exact H0. }
  assert (Hhere : forall k s,
             RegExp.lazyStar inliner.notQuote (S j + String.length t) s caps k
             = match k (S j + String.length t) s caps with
               | Some a => Some a
               | None =>
                   match s with
                   | String x s' =>
                       if inliner.notQuote x
                       then RegExp.lazyStar inliner.notQuote (S (S j + String.length t)) s' caps k
                       else None
                   | EmptyString => None
                   end
               end).
  { intros k s. destruct s; reflexivity. }
  rewrite Hhere, (closer_close c rest _ _ _ Hc). unfold final.
  replace (S j + String.length t - j) with (String.length (String t0 t))
    by (cbn [String.length]; lia).
  take_app (String t0 t) (c ++ ")" ++ rest).
  cbn [String.length]. do 3 f_equal. lia.
Qed.

(** The scanning pattern matches a reference as it is written, and its
    group is the target. *)
Lemma URL_REGEX_matches ref rest i :
  quoteMark (opening ref) = true ->
  quoteMark (closing ref) = true ->
  plain (target ref) = true ->
  target ref <> "" ->
  RegExp.attemptAt inliner.URL_REGEX i (written ref ++ rest)
  = Some (RegExp.mkMatch i (written ref) rest [(1, target ref)]).
Proof.
  destruct ref as [o t c]. cbn [opening target closing]. intros Ho Hc Ht Hne.
  set (ref := mkReference o t c).
  unfold RegExp.attemptAt, RegExp.matchAt.
  change inliner.URL_REGEX
    with (RegExp.Seq (RegExp.Chars "url(")
                     (RegExp.Seq (RegExp.Opt (RegExp.Class inliner.quote)) urlBody)).
  rewrite run_Seq, run_Chars, written_app, dropPrefix_append, run_Seq.
  fold final. cbn [opening target closing ref]. change (String.length "url(") with 4.
  assert (Hrun :
            RegExp.run (RegExp.Opt (RegExp.Class inliner.quote)) (i + 4)
                       (o ++ t ++ c ++ ")" ++ rest) []
                       (fun j s' caps' => RegExp.run urlBody j s' caps' final)
            = Some (i + String.length (written ref), rest, [(1, t)])).
  { rewrite written_length. cbn [opening target closing ref String.length].
    destruct o as [| q [| x o]]; cbn [quoteMark] in Ho; try discriminate.
    - destruct t as [| t0 t]; [contradiction |].
      cbn [append]. rewrite optional_quote_absent.
      + cbv beta.
        rewrite_mod (urlBody_matches (String t0 t) c rest (i + 4) [] Ht Hne Hc).
        same_index.
      + cbn [plain allChars] in Ht. apply andb_prop in Ht as [H _]. exact H.
    - cbn [append]. eapply optional_quote_taken; [exact Ho |]. cbv beta.
      rewrite_mod (urlBody_matches t c rest (S (i + 4)) [] Ht Hne Hc).
      same_index. }
  rewrite Hrun.
  replace (i + String.length (written ref) - i) with (String.length (written ref)) by lia.
  rewrite <- (written_app ref), take_append. reflexivity.
Qed.

Lemma URL_REGEX_needs_url s i :
  startsUrl s = false -> RegExp.attemptAt inliner.URL_REGEX i s = None.
Proof.
  unfold startsUrl, Js.startsWith, RegExp.attemptAt, RegExp.matchAt, inliner.URL_REGEX.
  rewrite run_Seq, run_Chars. destruct (Js.dropPrefix "url(" s); [discriminate | reflexivity].
Qed.

(** *** The pattern [inline] builds for one target *)

Lemma not_syntax_not_backslash c :
  RegExp.isSyntaxChar c = false -> Ascii.eqb c "\" = false.
Proof.
  unfold RegExp.isSyntaxChar. cbn [Js.includesChar]. intro H.
  do 14 (apply orb_false_iff in H as [_ H]).
  apply orb_false_iff in H as [H _]. rewrite Ascii.eqb_sym. exact H.
Qed.

Lemma ESCAPE_REGEX_attempt i c s :
  RegExp.attemptAt util.ESCAPE_REGEX i (String c s)
  = if RegExp.isSyntaxChar c
    then Some (RegExp.mkMatch i (Js.chr c) s [(1, Js.chr c)])
    else None.
Proof.
  unfold RegExp.attemptAt, RegExp.matchAt, util.ESCAPE_REGEX.
  rewrite run_Group, run_Class. destruct (RegExp.isSyntaxChar c); [| reflexivity].
  replace (S i - i) with 1 by lia. cbn. destruct s; reflexivity.
Qed.

(** What [util.escape] writes spells the text it was given. *)
Lemma literalSource_escape_from whole s :
  forall i,
    RegExp.literalSource
      (String.concat "" (map (RegExp.emit util.ESCAPE_REGEX "\$1" whole)
                             (RegExp.pieces util.ESCAPE_REGEX i s 0)))
    = Some s.
Proof.
  induction s as [| c s IH]; intro i.
  - cbn [RegExp.pieces]. unfold RegExp.attemptAt, RegExp.matchAt, util.ESCAPE_REGEX.
    rewrite run_Group. reflexivity.
  - rewrite pieces_step, ESCAPE_REGEX_attempt.
    destruct (RegExp.isSyntaxChar c) eqn:Hc.
    + cbn [RegExp.matched Js.chr String.length map]. rewrite concat_cons.
      cbn [RegExp.emit]. cbn [util.ESCAPE_REGEX RegExp.groupCount Nat.max].
      change (RegExp.substitute "\$1" 1 ?b ?m) with (String "\" (RegExp.captured m 1 ++ "")).
      cbn [RegExp.captured RegExp.group RegExp.captures RegExp.capture Nat.eqb Js.chr append].
      cbn [RegExp.literalSource]. cbn [Ascii.eqb Bool.eqb]. rewrite Hc, IH. reflexivity.
    + cbn [map]. rewrite concat_cons. cbn [RegExp.emit Js.chr append].
      cbn [RegExp.literalSource]. rewrite (not_syntax_not_backslash c Hc), Hc, IH.
      reflexivity.
Qed.

Lemma escaped_escape u : inliner.escaped (util.escape u) = RegExp.Chars u.
Proof.
  unfold inliner.escaped, util.escape, RegExp.replace.
  rewrite literalSource_escape_from. reflexivity.
Qed.

Lemma urlAsRegex_eq u :
  inliner.urlAsRegex u
  = RegExp.Seq (RegExp.Group 1 (RegExp.Seq (RegExp.Chars "url(")
                                           (RegExp.Opt (RegExp.Class inliner.quote))))
               (literalBody u).
Proof. unfold inliner.urlAsRegex. rewrite escaped_escape. reflexivity. Qed.

Lemma literalBody_matches u c rest j caps :
  quoteMark c = true ->
  RegExp.run (literalBody u) j (u ++ c ++ ")" ++ rest) caps final
  = Some (j + String.length u + String.length c + 1, rest,
          (3, c ++ ")") :: (2, u) :: caps).
Proof.
  intro Hc. unfold literalBody.
  rewrite run_Seq, run_Group, run_Chars, dropPrefix_append, run_Group.
  rewrite (closer_close c rest _ _ _ Hc). unfold final.
  replace (j + String.length u - j) with (String.length u) by lia.
  rewrite take_append.
  replace (j + String.length u + String.length c + 1 - (j + String.length u))
    with (String.length (c ++ ")")) by (rewrite length_append; cbn [String.length]; lia).
  rewrite <- (append_assoc c ")" rest), take_append. reflexivity.
Qed.

(** A plain text that starts [t ++ tail], [tail] beginning with a quote or
    a parenthesis, is a prefix of the plain [t]. *)
Lemma dropPrefix_plain u t c rest x :
  plain u = true -> quoteMark c = true ->
  Js.dropPrefix u (t ++ c ++ ")" ++ rest) = Some x ->
  exists t', t = u ++ t' /\ x = t' ++ c ++ ")" ++ rest.
Proof.
  intros Hu Hc. revert t. induction u as [| u0 u IH]; intros t H.
  - cbn in H. injection H as <-. exists t. split; reflexivity.
  - cbn [plain allChars] in Hu. apply andb_prop in Hu as [Hu0 Hu].
    destruct t as [| t0 t].
    + exfalso. cbn [append] in H.
      destruct c as [| q [| c1 c]]; cbn [quoteMark] in Hc; try discriminate;
        cbn [append Js.dropPrefix] in H.
      * rewrite (plainChar_not_close u0 Hu0) in H. discriminate.
      * destruct (Ascii.eqb_spec u0 q) as [-> |]; [| discriminate].
        rewrite (plainChar_not_quote q Hu0) in Hc. discriminate.
    + cbn [append Js.dropPrefix] in H.
      destruct (Ascii.eqb_spec u0 t0) as [-> |]; [| discriminate].
      destruct (IH Hu t H) as (t' & -> & ->). exists t'. split; reflexivity.
Qed.

Lemma literalBody_fails u t c rest j caps :
  plain u = true -> plain t = true -> quoteMark c = true -> t <> u ->
  RegExp.run (literalBody u) j (t ++ c ++ ")" ++ rest) caps final = None.
Proof.
  intros Hu Ht Hc Hne. unfold literalBody.
  rewrite run_Seq, run_Group, run_Chars.
  destruct (Js.dropPrefix u (t ++ c ++ ")" ++ rest)) as [x |] eqn:Hx; [| reflexivity].
  destruct (dropPrefix_plain u t c rest x Hu Hc Hx) as (t' & -> & ->).
  destruct t' as [| t0 t'].
  - rewrite append_nil_r in Hne. contradiction.
  - rewrite run_Group. cbn [append]. apply closer_plain.
    apply plain_suffix in Ht. cbn [plain allChars] in Ht.
    apply andb_prop in Ht as [H _]. exact H.
Qed.

Lemma literalBody_at_quote u q s j caps :
  plain u = true -> u <> "" -> inliner.quote q = true ->
  RegExp.run (literalBody u) j (String q s) caps final = None.
Proof.
  intros Hu Hne Hq. unfold literalBody. rewrite run_Seq, run_Group, run_Chars.
  destruct u as [| u0 u]; [contradiction |].
  cbn [plain allChars] in Hu. apply andb_prop in Hu as [Hu0 _].
  cbn [Js.dropPrefix].
  destruct (Ascii.eqb_spec u0 q) as [-> |]; [| reflexivity].
  rewrite (plainChar_not_quote q Hu0) in Hq. discriminate.
Qed.

Lemma urlAsRegex_needs_url u s i :
  startsUrl s = false -> RegExp.attemptAt (inliner.urlAsRegex u) i s = None.
Proof.
  unfold startsUrl, Js.startsWith, RegExp.attemptAt, RegExp.matchAt.
  rewrite urlAsRegex_eq, run_Seq, run_Group, run_Seq, run_Chars.
  destruct (Js.dropPrefix "url(" s); [discriminate | reflexivity].
Qed.

(** The attempt of the pattern for [u] at a written reference, down to
    the optional quote. *)
Lemma urlAsRegex_at_reference u ref rest i :
  RegExp.matchAt (inliner.urlAsRegex u) i (written ref ++ rest)
  = RegExp.run (RegExp.Opt (RegExp.Class inliner.quote)) (i + 4)
               (opening ref ++ target ref ++ closing ref ++ ")" ++ rest) []
               (fun j s' caps' =>
                  RegExp.run (literalBody u) j s'
                             ((1, RegExp.take (j - i) (written ref ++ rest)) :: caps') final).
Proof.
  unfold RegExp.matchAt.
  rewrite urlAsRegex_eq, run_Seq, run_Group, run_Seq, run_Chars.
  rewrite (written_app ref rest) at 1. rewrite dropPrefix_append. reflexivity.
Qed.

(** The pattern for [u] matches a reference to [u] as it is written; its
    first group ends after the opening quote and its third starts at the
    closing one. *)
Lemma urlAsRegex_matches ref rest i :
  quoteMark (opening ref) = true ->
  quoteMark (closing ref) = true ->
  plain (target ref) = true ->
  target ref <> "" ->
  RegExp.attemptAt (inliner.urlAsRegex (target ref)) i (written ref ++ rest)
  = Some (RegExp.mkMatch i (written ref) rest
                         [(3, closing ref ++ ")"); (2, target ref);
                          (1, "url(" ++ opening ref)]).
Proof.
  intros Ho Hc Ht Hne.
  assert (Hrun :
            RegExp.matchAt (inliner.urlAsRegex (target ref)) i (written ref ++ rest)
            = Some (i + String.length (written ref), rest,
                    [(3, closing ref ++ ")"); (2, target ref);
                     (1, "url(" ++ opening ref)])).
  { rewrite urlAsRegex_at_reference, written_length.
    rewrite (written_app ref rest).
    destruct ref as [o t c]. cbn [opening target closing] in *.
    destruct o as [| q [| x o]]; cbn [quoteMark] in Ho; try discriminate.
    - destruct t as [| t0 t]; [contradiction |].
      cbn [append]. rewrite optional_quote_absent.
      + cbv beta.
        rewrite_mod (literalBody_matches (String t0 t) c rest (i + 4)
                       [(1, RegExp.take (i + 4 - i) (String "u" (String "r" (String "l"
                              (String "(" (String t0 (t ++ c ++ ")" ++ rest)))))))] Hc).
        replace (i + 4 - i) with 4 by lia. cbn [RegExp.take]. same_index.
      + cbn [plain allChars] in Ht. apply andb_prop in Ht as [H _]. exact H.
    - cbn [append]. eapply optional_quote_taken; [exact Ho |]. cbv beta.
      rewrite_mod (literalBody_matches t c rest (S (i + 4))
                     [(1, RegExp.take (S (i + 4) - i) (String "u" (String "r" (String "l"
                            (String "(" (String q (t ++ c ++ ")" ++ rest)))))))] Hc).
      replace (S (i + 4) - i) with 5 by lia. cbn [RegExp.take]. same_index. }
  unfold RegExp.attemptAt. rewrite Hrun.
  replace (i + String.length (written ref) - i) with (String.length (written ref)) by lia.
  rewrite take_append. reflexivity.
Qed.

(** It matches no reference to another plain target. *)
Lemma urlAsRegex_other u ref rest i :
  quoteMark (opening ref) = true ->
  quoteMark (closing ref) = true ->
  plain (target ref) = true ->
  target ref <> "" ->
  plain u = true ->
  u <> "" ->
  target ref <> u ->
  RegExp.attemptAt (inliner.urlAsRegex u) i (written ref ++ rest) = None.
Proof.
  intros Ho Hc Ht Hne Hu Hune Hdiff.
  unfold RegExp.attemptAt. rewrite urlAsRegex_at_reference.
  destruct ref as [o t c]. cbn [opening target closing] in *.
  destruct o as [| q [| x o]]; cbn [quoteMark] in Ho; try discriminate.
  - destruct t as [| t0 t]; [contradiction |].
    cbn [append]. rewrite optional_quote_absent.
    + cbv beta.
      rewrite_mod (literalBody_fails u (String t0 t) c rest (i + 4)
                     [(1, RegExp.take (i + 4 - i)
                            (written (mkReference "" (String t0 t) c) ++ rest))]
                     Hu Ht Hc Hdiff).
      reflexivity.
    + cbn [plain allChars] in Ht. apply andb_prop in Ht as [H _]. exact H.
  - cbn [append]. rewrite run_Opt, run_Class, Ho.
    rewrite_mod (literalBody_fails u t c rest (S (i + 4))
                   [(1, RegExp.take (S (i + 4) - i)
                          (written (mkReference (String q "") t c) ++ rest))]
                   Hu Ht Hc Hdiff).
    rewrite literalBody_at_quote by assumption. reflexivity.
Qed.

(** *** Stretches of text where no reference starts *)

Lemma quiet_app s1 s2 rest :
  quiet (s1 ++ s2) rest = quiet s1 (s2 ++ rest) && quiet s2 rest.
Proof.
  induction s1 as [| c s1 IH]; [reflexivity |].
  cbn [append quiet]. rewrite IH, andb_assoc.
  change (String c (s1 ++ s2) ++ rest) with (String c ((s1 ++ s2) ++ rest)).
  rewrite append_assoc. reflexivity.
Qed.

Lemma quiet_dead r stretch rest :
  (forall s i, startsUrl s = false -> RegExp.attemptAt r i s = None) ->
  quiet stretch rest = true ->
  forall a b, stretch = a ++ b -> b <> "" ->
              forall j, RegExp.attemptAt r j (b ++ rest) = None.
Proof.
  intros Hr Hq a. revert stretch Hq.
  induction a as [| x a IH]; intros stretch Hq b -> Hb j.
  - destruct b as [| c b]; [contradiction |]. cbn [append quiet] in Hq.
    apply andb_prop in Hq as [Hq _]. apply negb_true_iff in Hq. apply Hr. exact Hq.
  - cbn [append quiet] in Hq. apply andb_prop in Hq as [_ Hq].
    apply (IH (a ++ b) Hq b eq_refl Hb).
Qed.

(** A quiet stretch is left as it is by a pass of a pattern that needs
    [url(]. *)
Lemma pieces_quiet r stretch rest i :
  (forall s i, startsUrl s = false -> RegExp.attemptAt r i s = None) ->
  quiet stretch rest = true ->
  RegExp.pieces r i (stretch ++ rest) 0
  = (plains stretch ++ RegExp.pieces r (i + String.length stretch) rest 0)%list.
Proof.
  intros Hr Hq. apply pieces_dead. intros a b Hab Hb.
  apply (quiet_dead r stretch rest Hr Hq a b Hab Hb).
Qed.

(** A stretch without [url(], before the end of the text or before a
    written reference, is quiet. *)
Lemma quiet_gap g next :
  urlFree g = true ->
  (next = "" \/ exists s, next = String "u" s) ->
  quiet g next = true.
Proof.
  intros Hg Hnext. induction g as [| c g IH]; [reflexivity |].
  cbn [quiet]. pose proof Hg as Hg'. cbn [urlFree] in Hg'.
  apply andb_prop in Hg' as [Hhead Htail]. rewrite (IH Htail), andb_true_r.
  apply negb_true_iff. destruct (startsUrl (String c g ++ next)) eqn:E; [| reflexivity].
  exfalso. apply startsUrl_app in E as [E | (x & s' & E & Hx)]; [| | discriminate].
  - apply negb_true_iff in Hhead. congruence.
  - destruct Hnext as [-> | (s & ->)]; [discriminate |].
    injection E as <- _. destruct Hx as [Hx | [Hx | Hx]]; discriminate.
Qed.

(** So is a plain text before a quote or a closing parenthesis. *)
Lemma quiet_plain t c rest :
  plain t = true -> quoteMark c = true -> quiet t (c ++ ")" ++ rest) = true.
Proof.
  intros Ht Hc. induction t as [| t0 t IH]; [reflexivity |].
  cbn [quiet]. pose proof Ht as Ht'. cbn [plain allChars] in Ht'.
  apply andb_prop in Ht' as [_ Htail]. rewrite (IH Htail), andb_true_r.
  apply negb_true_iff.
  destruct (startsUrl (String t0 t ++ c ++ ")" ++ rest)) eqn:E; [| reflexivity].
  exfalso. apply startsUrl_app in E as [E | (x & s' & E & Hx)]; [| | discriminate].
  - rewrite (plain_not_start _ Ht) in E. discriminate.
  - destruct c as [| q [| c1 c]]; cbn [quoteMark] in Hc; try discriminate;
      cbn [append] in E; injection E as <- _.
    + destruct Hx as [Hx | [Hx | Hx]]; discriminate.
    + destruct Hx as [Hx | [Hx | Hx]]; subst q; discriminate.
Qed.

Lemma quiet_mark q rest : quoteMark q = true -> quiet q rest = true.
Proof.
  destruct q as [| c [| c1 q]]; cbn [quoteMark]; try discriminate; [reflexivity |].
  intro H. cbn [quiet append]. rewrite andb_true_r. apply negb_true_iff.
  unfold startsUrl, Js.startsWith. cbn [Js.dropPrefix].
  destruct (Ascii.eqb_spec "u" c) as [<- |]; [discriminate | reflexivity].
Qed.

(** The text of a written reference after its first character. *)
Lemma quiet_written ref rest :
  quoteMark (opening ref) = true ->
  quoteMark (closing ref) = true ->
  plain (target ref) = true ->
  quiet ("rl(" ++ opening ref ++ target ref ++ closing ref ++ ")") rest = true.
Proof.
  intros Ho Hc Ht.
  rewrite (quiet_app "rl(" _ rest), (quiet_app (opening ref) _ rest),
          (quiet_app (target ref) _ rest), (quiet_app (closing ref) ")" rest).
  rewrite (quiet_mark _ _ Ho), (quiet_mark _ _ Hc).
  rewrite (append_assoc (closing ref) ")" rest), (quiet_plain _ _ _ Ht Hc).
  reflexivity.
Qed.

(** *** Blocks of text with written references *)

Lemma wellFormed_parts ref :
  wellFormed ref = true ->
  quoteMark (opening ref) = true /\ quoteMark (closing ref) = true /\
  plain (target ref) = true /\ target ref <> "".
Proof.
  unfold wellFormed. intro H.
  apply andb_prop in H as [H H4]. apply andb_prop in H as [H H3].
  apply andb_prop in H as [H1 H2]. repeat split; try assumption.
  intro E. rewrite E in H4. discriminate.
Qed.

Lemma written_starts ref rest : exists s, written ref ++ rest = String "u" s.
Proof. eexists. reflexivity. Qed.

Lemma pieces_end r j :
  (forall s i, startsUrl s = false -> RegExp.attemptAt r i s = None) ->
  RegExp.pieces r j "" 0 = [].
Proof.
  intro Hr. cbn [RegExp.pieces]. rewrite Hr by reflexivity. reflexivity.
Qed.

Lemma pieces_last r last i :
  (forall s i, startsUrl s = false -> RegExp.attemptAt r i s = None) ->
  urlFree last = true ->
  RegExp.pieces r i last 0 = plains last.
Proof.
  intros Hr Hlast. rewrite <- (append_nil_r last) at 1.
  rewrite pieces_quiet; [| exact Hr | apply quiet_gap; auto].
  rewrite (pieces_end r _ Hr), app_nil_r. reflexivity.
Qed.

(** The scan of a well-formed block finds its references, in order. *)
Lemma scan_block refs last :
  wellFormedBlock refs last = true ->
  forall i,
    map (fun m => Js.toStr (RegExp.group m 1))
        (hits (RegExp.pieces inliner.URL_REGEX i (blockText refs last) 0))
    = map (fun gr => target (snd gr)) refs.
Proof.
  unfold wellFormedBlock. intro H. apply andb_prop in H as [Hrefs Hlast].
  induction refs as [| [gap ref] refs IH]; intro i; cbn [blockText map].
  - rewrite pieces_last by (auto using URL_REGEX_needs_url).
    rewrite <- (app_nil_r (plains last)), hits_plains. reflexivity.
  - cbn [forallb fst snd] in Hrefs. apply andb_prop in Hrefs as [Hhead Hrefs].
    apply andb_prop in Hhead as [Hgap Hwf].
    destruct (wellFormed_parts ref Hwf) as (Ho & Hc & Ht & Hne).
    rewrite pieces_quiet;
      [| apply URL_REGEX_needs_url
       | apply quiet_gap; [exact Hgap | right; apply written_starts]].
    rewrite hits_plains.
    rewrite (pieces_hit _ _ _ _ _ (URL_REGEX_matches ref _ _ Ho Hc Ht Hne) eq_refl)
      by (unfold written; discriminate).
    cbn [hits flat_map List.app map]. fold (hits (RegExp.pieces inliner.URL_REGEX
      (i + String.length gap + String.length (written ref)) (blockText refs last) 0)).
    rewrite (IH Hrefs). reflexivity.
Qed.

Lemma groupCount_urlAsRegex u : RegExp.groupCount (inliner.urlAsRegex u) = 3.
Proof. rewrite urlAsRegex_eq. reflexivity. Qed.

(** The replacement [inline] makes in a well-formed block retargets the
    references to [u] and leaves everything else as it is. *)
Lemma replace_block u d0 d refs last :
  wellFormedBlock refs last = true ->
  plain u = true -> u <> "" ->
  RegExp.digitOf d0 = None ->
  Ascii.eqb d0 "$" = false ->
  allChars (fun c => negb (Ascii.eqb c "$")) d = true ->
  forall whole i,
    String.concat ""
      (map (RegExp.emit (inliner.urlAsRegex u) ("$1" ++ String d0 d ++ "$3") whole)
           (RegExp.pieces (inliner.urlAsRegex u) i (blockText refs last) 0))
    = blockText (map (retarget u (String d0 d)) refs) last.
Proof.
  unfold wellFormedBlock. intros H Hu Hune Hd0 Hd0' Hd whole.
  apply andb_prop in H as [Hrefs Hlast].
  induction refs as [| [gap ref] refs IH]; intro i; cbn [blockText map].
  - rewrite pieces_last by (auto using urlAsRegex_needs_url).
    rewrite <- (app_nil_r (plains last)), emit_plains. cbn. apply append_nil_r.
  - cbn [forallb fst snd] in Hrefs. apply andb_prop in Hrefs as [Hhead Hrefs].
    apply andb_prop in Hhead as [Hgap Hwf].
    destruct (wellFormed_parts ref Hwf) as (Ho & Hc & Ht & Hne).
    rewrite pieces_quiet;
      [| apply urlAsRegex_needs_url
       | apply quiet_gap; [exact Hgap | right; apply written_starts]].
    rewrite emit_plains. unfold retarget at 1. cbn [fst snd]. f_equal.
    destruct (String.eqb_spec (target ref) u) as [E | E].
    + subst u.
      rewrite (pieces_hit _ _ _ _ _ (urlAsRegex_matches ref _ _ Ho Hc Ht Hne) eq_refl)
        by (unfold written; discriminate).
      cbn [map]. rewrite concat_cons, (IH Hrefs). f_equal.
      cbn [RegExp.emit]. rewrite groupCount_urlAsRegex.
      rewrite (substitute_template d0 d _ _ Hd0 Hd0' Hd).
      unfold written. cbn [opening target closing RegExp.captured RegExp.group
                           RegExp.captures RegExp.capture Nat.eqb].
      rewrite !append_assoc. reflexivity.
    + assert (Hw : written ref ++ blockText refs last
                  = String "u" (("rl(" ++ opening ref ++ target ref ++ closing ref ++ ")")
                                  ++ blockText refs last)).
      { unfold written. cbn [append]. rewrite !append_assoc. reflexivity. }
      rewrite Hw at 1. rewrite pieces_step. rewrite <- Hw.
      rewrite (urlAsRegex_other u ref _ _ Ho Hc Ht Hne Hu Hune E).
      rewrite pieces_quiet;
        [| apply urlAsRegex_needs_url | apply quiet_written; assumption].
      cbn [map]. rewrite concat_cons, emit_plains, (IH Hrefs).
      cbn [RegExp.emit Js.chr]. unfold written. cbn [append].
      rewrite !append_assoc. reflexivity.
Qed.

(** *** MIME types and data URLs *)

Lemma mimes_clean key type :
  util.lookup util.mimes key = Some type ->
  Js.truthyString type = true /\ allChars payloadChar type = true.
Proof.
  unfold util.mimes, util.lookup, util.WOFF, util.JPEG.
  repeat match goal with
         | |- context [String.eqb ?a key] => destruct (String.eqb a key)
         end;
    intro H; try discriminate; injection H as <-; split; reflexivity.
Qed.

Lemma mimeType_table url :
  ownExtension url = true -> util.mimeType url = tableMime url.
Proof.
  unfold ownExtension, util.mimeType, tableMime, util.member.
  destruct (util.lookup util.mimes _) as [type |] eqn:E.
  - intros _. destruct (mimes_clean _ _ E) as [-> _]. reflexivity.
  - destruct (util.lookup util.inherited _); [discriminate | reflexivity].
Qed.

Lemma tableMime_clean url : allChars payloadChar (tableMime url) = true.
Proof.
  unfold tableMime. destruct (util.lookup util.mimes _) as [type |] eqn:E; [| reflexivity].
  apply (mimes_clean _ _ E).
Qed.

Lemma isDataUrl_data s : util.isDataUrl ("data:" ++ s) = true.
Proof. reflexivity. Qed.

Lemma payloadChar_plain c : payloadChar c = true -> plainChar c = true.
Proof. unfold payloadChar. intro H. apply andb_prop in H as [H _]. exact H. Qed.

Lemma payloadChar_no_dollar c : payloadChar c = true -> negb (Ascii.eqb c "$") = true.
Proof. unfold payloadChar. intro H. apply andb_prop in H as [_ H]. exact H. Qed.

Lemma dataUrlOf_clean payload url :
  cleanPayload (payload url) = true ->
  allChars payloadChar (dataUrlOf payload url) = true.
Proof.
  intro H. unfold dataUrlOf. rewrite !allChars_app, tableMime_clean.
  unfold cleanPayload in H. rewrite H. reflexivity.
Qed.

(** *** [inline] and [inlineAll] on a block *)

Lemma inline_fulfilled host baseUrl get payload o text url r0 :
  Fetches host baseUrl get payload o ->
  ownExtension url = true ->
  implOptions r0 = o ->
  exists r1,
    inliner.inline host text url baseUrl get r0 = (Fulfilled (rewrite payload text url), r1)
    /\ implOptions r1 = o.
Proof.
  intros Hfetch Hown Hr0. destruct (Hfetch url r0 Hr0) as (r1 & Hget & Hr1).
  exists r1. split; [| exact Hr1].
  unfold inliner.inline, andThen. cbn [resolve].
  fold (resolvedUrl host baseUrl url). rewrite Hget.
  unfold rewrite, dataUrlOf, util.dataAsUrl. rewrite (mimeType_table url Hown).
  reflexivity.
Qed.

Lemma inline_fold host baseUrl get payload o urls :
  Fetches host baseUrl get payload o ->
  (forall url, In url urls -> ownExtension url = true) ->
  forall (done : Promise string) text,
    (forall r0, implOptions r0 = o ->
                exists r1, done r0 = (Fulfilled text, r1) /\ implOptions r1 = o) ->
    forall r0,
      implOptions r0 = o ->
      exists r1,
        fold_left (fun done url =>
                     andThen done (fun text' => inliner.inline host text' url baseUrl get))
                  urls done r0
        = (Fulfilled (fold_left (rewrite payload) urls text), r1)
        /\ implOptions r1 = o.
Proof.
  intros Hfetch. induction urls as [| url urls IH]; intros Hown done text Hdone r0 Hr0.
  - exact (Hdone r0 Hr0).
  - cbn [fold_left]. apply IH.
    + intros u Hu. apply Hown. right. exact Hu.
    + clear r0 Hr0. intros r0 Hr0.
      destruct (Hdone r0 Hr0) as (r1 & Hrun & Hr1).
      unfold andThen. rewrite Hrun.
      apply (inline_fulfilled host baseUrl get payload o text url r1 Hfetch);
        [apply Hown; left; reflexivity | exact Hr1].
    + exact Hr0.
Qed.

Lemma retarget_wellFormed payload u refs last :
  cleanPayload (payload u) = true ->
  wellFormedBlock refs last = true ->
  wellFormedBlock (map (retarget u (dataUrlOf payload u)) refs) last = true.
Proof.
  intros Hp. unfold wellFormedBlock. intro H. apply andb_prop in H as [Hrefs Hlast].
  rewrite Hlast, andb_true_r. clear Hlast.
  induction refs as [| [gap ref] refs IH]; [reflexivity |].
  cbn [map forallb] in *. apply andb_prop in Hrefs as [Hhead Hrefs].
  rewrite (IH Hrefs), andb_true_r. unfold retarget. cbn [fst snd] in *.
  apply andb_prop in Hhead as [Hgap Hwf]. rewrite Hgap. cbn [andb].
  destruct (String.eqb (target ref) u); [| exact Hwf].
  destruct (wellFormed_parts ref Hwf) as (Ho & Hc & _ & _).
  unfold wellFormed. cbn [opening target closing]. rewrite Ho, Hc. cbn [andb].
  apply andb_true_intro. split; [| reflexivity].
  apply (allChars_weaken payloadChar plainChar _ payloadChar_plain).
  apply dataUrlOf_clean. exact Hp.
Qed.

(** The replacements, one target after the other, as retargetings. *)
Lemma rewrite_fold payload urls :
  (forall url, cleanPayload (payload url) = true) ->
  (forall url, In url urls -> plain url = true /\ url <> "") ->
  forall refs last,
    wellFormedBlock refs last = true ->
    fold_left (rewrite payload) urls (blockText refs last)
    = blockText (fold_left (fun refs u => map (retarget u (dataUrlOf payload u)) refs)
                           urls refs)
                last.
Proof.
  intros Hp. induction urls as [| u urls IH]; intros Hurls refs last Hwf; [reflexivity |].
  cbn [fold_left]. destruct (Hurls u (or_introl eq_refl)) as [Hu Hune].
  assert (Hstep : rewrite payload (blockText refs last) u
                  = blockText (map (retarget u (dataUrlOf payload u)) refs) last).
  { unfold rewrite, RegExp.replace, dataUrlOf.
    change ("data:" ++ tableMime u ++ ";base64," ++ payload u)
      with (String "d" ("ata:" ++ tableMime u ++ ";base64," ++ payload u)).
    apply replace_block; try assumption; try reflexivity.
    rewrite !allChars_app.
    rewrite (allChars_weaken payloadChar _ _ payloadChar_no_dollar (tableMime_clean u)).
    rewrite (allChars_weaken payloadChar _ _ payloadChar_no_dollar (Hp u)).
    reflexivity. }
  rewrite Hstep. apply IH.
  - intros url Hin. apply Hurls. right. exact Hin.
  - apply retarget_wellFormed; [apply Hp | exact Hwf].
Qed.

Lemma retarget_fold_map payload urls :
  forall refs,
    fold_left (fun refs u => map (retarget u (dataUrlOf payload u)) refs) urls refs
    = map (fun gr => fold_left (fun gr u => retarget u (dataUrlOf payload u) gr) urls gr)
          refs.
Proof.
  induction urls as [| u urls IH]; intro refs; cbn [fold_left].
  - symmetry. apply map_id.
  - rewrite IH, map_map. reflexivity.
Qed.

Lemma retarget_data payload urls gr :
  (forall u, In u urls -> util.isDataUrl u = false) ->
  util.isDataUrl (target (snd gr)) = true ->
  fold_left (fun gr u => retarget u (dataUrlOf payload u) gr) urls gr = gr.
Proof.
  intros Hurls Hdata. induction urls as [| u urls IH]; [reflexivity |].
  cbn [fold_left]. unfold retarget at 2.
  destruct (String.eqb_spec (target (snd gr)) u) as [E | E].
  - specialize (Hurls u (or_introl eq_refl)). rewrite <- E, Hdata in Hurls. discriminate.
  - destruct gr as [gap ref]. cbn [fst snd] in *. apply IH.
    intros u' Hu'. apply Hurls. right. exact Hu'.
Qed.

Lemma retarget_external payload urls gr :
  (forall u, In u urls -> util.isDataUrl u = false) ->
  In (target (snd gr)) urls ->
  fold_left (fun gr u => retarget u (dataUrlOf payload u) gr) urls gr
  = (fst gr, mkReference (opening (snd gr)) (dataUrlOf payload (target (snd gr)))
                         (closing (snd gr))).
Proof.
  intros Hurls. induction urls as [| u urls IH]; intro Hin; [contradiction |].
  assert (Hrest : forall u', In u' urls -> util.isDataUrl u' = false).
  { intros u' Hu'. apply Hurls. right. exact Hu'. }
  cbn [fold_left]. unfold retarget at 2.
  destruct (String.eqb_spec (target (snd gr)) u) as [E | E].
  - subst u. apply retarget_data; [exact Hrest | apply isDataUrl_data].
  - destruct gr as [gap ref]. cbn [fst snd] in *.
    destruct Hin as [Hin | Hin]; [congruence |]. apply (IH Hrest Hin).
Qed.

Lemma readUrls_block refs last :
  wellFormedBlock refs last = true ->
  inliner.readUrls (blockText refs last)
  = List.filter (fun url => negb (util.isDataUrl url)) (map (fun gr => target (snd gr)) refs).
Proof.
  intro Hwf. unfold inliner.readUrls, RegExp.matchAll.
  fold (hits (RegExp.pieces inliner.URL_REGEX 0 (blockText refs last) 0)).
  rewrite (scan_block refs last Hwf 0). reflexivity.
Qed.

Lemma inlined_wellFormed payload refs last :
  (forall url, cleanPayload (payload url) = true) ->
  wellFormedBlock refs last = true ->
  wellFormedBlock (map (inlined payload) refs) last = true.
Proof.
  intros Hp. unfold wellFormedBlock. intro H. apply andb_prop in H as [Hrefs Hlast].
  rewrite Hlast, andb_true_r. clear Hlast.
  induction refs as [| [gap ref] refs IH]; [reflexivity |].
  cbn [map forallb] in *. apply andb_prop in Hrefs as [Hhead Hrefs].
  rewrite (IH Hrefs), andb_true_r. unfold inlined. cbn [fst snd] in *.
  apply andb_prop in Hhead as [Hgap Hwf]. rewrite Hgap. cbn [andb].
  destruct (util.isDataUrl (target ref)); [exact Hwf |].
  destruct (wellFormed_parts ref Hwf) as (Ho & Hc & _ & _).
  unfold wellFormed. cbn [opening target closing]. rewrite Ho, Hc. cbn [andb].
  apply andb_true_intro. split; [| reflexivity].
  apply (allChars_weaken payloadChar plainChar _ payloadChar_plain).
  apply dataUrlOf_clean. apply Hp.
Qed.

Lemma inlined_is_data payload gr :
  util.isDataUrl (target (snd (inlined payload gr))) = true.
Proof.
  unfold inlined. cbn [snd].
  destruct (util.isDataUrl (target (snd gr))) eqn:E; [exact E | reflexivity].
Qed.


(** C8, as stated, fails: with every fetch fulfilled, inlining a block in
    which one reference is nested in another leaves, after the rewrite, a
    reference that is no data URL. *)
Lemma nested_reference_survives :
  let get : option inliner.Getter := Some (fun _ => resolve (Some "QUJD")) in
  let text := "url(a.png) url(url(a.png))" in
  let text' := "url(data:image/png;base64,QUJD) url(url(data:image/png;base64,QUJD))" in
  inliner.readUrls text = ["a.png"; "url(a.png"] /\
  inliner.inlineAll Sample.host text None get initialRealm = (Fulfilled text', initialRealm) /\
  inliner.readUrls text' = ["url(data:image/png;base64,QUJD"] /\
  inliner.readUrls text' <> [].
Proof.
  cbn zeta. split; [vm_compute; reflexivity |].
  split; [vm_compute; reflexivity |].
  split; [vm_compute; reflexivity |].
  vm_compute. discriminate.
Qed.

(** C8, amended. In a block whose references are written with optional
    quotes around a plain, non-empty target (no quote and no parenthesis
    in it) whose extension is not the name of an inherited member, and
    whose other text has no [url(], with every fetch fulfilled with a
    payload that has no quote, parenthesis or dollar sign (a base64
    payload has none): [inlineAll] is fulfilled with the block in which
    every reference that was no data URL has become exactly
    [data:<mime>;base64,<payload>], between the same quotes, [<mime>] being
    what the table gives for the extension and the empty string when the
    table does not have it; everything else is as it was, and scanning
    the result for references that are no data URL finds none. *)
Theorem inlineAll_rewrites_references (host : Host) (baseUrl : option string)
        (get : option inliner.Getter) (payload : string -> string)
        (refs : list (string * Reference)) (last : string) (r : Realm) :
  wellFormedBlock refs last = true ->
  (forall gr, In gr refs -> ownExtension (target (snd gr)) = true) ->
  (forall url, cleanPayload (payload url) = true) ->
  Fetches host baseUrl get payload (implOptions r) ->
  exists r',
    inliner.inlineAll host (blockText refs last) baseUrl get r
    = (Fulfilled (blockText (map (inlined payload) refs) last), r') /\
    inliner.readUrls (blockText (map (inlined payload) refs) last) = [] /\
    (forall gr,
       In gr refs ->
       util.isDataUrl (target (snd gr)) = false ->
       inlined payload gr
       = (fst gr,
          mkReference (opening (snd gr))
                      ("data:" ++ tableMime (target (snd gr)) ++ ";base64,"
                               ++ payload (target (snd gr)))
                      (closing (snd gr))) /\
       util.mimeType (target (snd gr)) = tableMime (target (snd gr))).
Proof.
  intros Hwf Hown Hp Hfetch.
  assert (Hscan := readUrls_block refs last Hwf).
  assert (Hclean : inliner.readUrls (blockText (map (inlined payload) refs) last) = []).
  { rewrite (readUrls_block _ _ (inlined_wellFormed payload refs last Hp Hwf)).
    rewrite map_map. clear. induction refs as [| gr refs IH]; [reflexivity |].
    cbn [map List.filter]. rewrite inlined_is_data. exact IH. }
  assert (Hlast : forall gr,
             In gr refs ->
             util.isDataUrl (target (snd gr)) = false ->
             inlined payload gr
             = (fst gr,
                mkReference (opening (snd gr))
                            ("data:" ++ tableMime (target (snd gr)) ++ ";base64,"
                                     ++ payload (target (snd gr)))
                            (closing (snd gr))) /\
             util.mimeType (target (snd gr)) = tableMime (target (snd gr))).
  { intros gr Hin Hext. split.
    - unfold inlined. rewrite Hext. reflexivity.
    - apply mimeType_table, Hown, Hin. }
  assert (Hparts : forall gr, In gr refs -> wellFormed (snd gr) = true).
  { unfold wellFormedBlock in Hwf. apply andb_prop in Hwf as [Hrefs _].
    rewrite forallb_forall in Hrefs. intros gr Hin.
    specialize (Hrefs gr Hin). apply andb_prop in Hrefs as [_ H]. exact H. }
  unfold inliner.inlineAll.
  destruct (inliner.shouldProcess (blockText refs last)) eqn:Hshould; cbn [negb].
  - unfold andThen at 1. cbn [resolve]. rewrite Hscan.
    set (urls := List.filter (fun url => negb (util.isDataUrl url))
                             (map (fun gr => target (snd gr)) refs)).
    assert (Hurls : forall url, In url urls ->
                      exists gr, In gr refs /\ target (snd gr) = url
                                 /\ util.isDataUrl url = false).
    { intros url Hin. apply filter_In in Hin as [Hin Hext].
      apply in_map_iff in Hin as (gr & <- & Hin).
      exists gr. repeat split; [exact Hin | now apply negb_true_iff in Hext]. }
    destruct (inline_fold host baseUrl get payload (implOptions r) urls Hfetch)
      with (done := resolve (A := string) (blockText refs last))
           (text := blockText refs last) (r0 := r)
      as (r' & Hrun & _).
    + intros url Hin. destruct (Hurls url Hin) as (gr & Hgr & <- & _). apply Hown, Hgr.
    + intros r0 Hr0. exists r0. split; [reflexivity | exact Hr0].
    + reflexivity.
    + exists r'. split; [| split; [exact Hclean | exact Hlast]].
      rewrite Hrun. f_equal. f_equal.
      rewrite rewrite_fold; [| exact Hp | | exact Hwf].
      2:{ intros url Hin. destruct (Hurls url Hin) as (gr & Hgr & <- & _).
          destruct (wellFormed_parts _ (Hparts gr Hgr)) as (_ & _ & Ht & Hne).
          split; assumption. }
      f_equal. rewrite retarget_fold_map. apply map_ext_in. intros gr Hgr.
      unfold inlined. destruct (util.isDataUrl (target (snd gr))) eqn:Hdata.
      * rewrite retarget_data; [destruct gr; reflexivity | | exact Hdata].
        intros u Hu. destruct (Hurls u Hu) as (_ & _ & _ & H). exact H.
      * apply retarget_external.
        -- intros u Hu. destruct (Hurls u Hu) as (_ & _ & _ & H). exact H.
        -- apply filter_In. split.
           ++ apply (in_map (fun gr => target (snd gr)) refs gr Hgr).
           ++ now rewrite Hdata.
  - exists r. split; [| split; [exact Hclean | exact Hlast]].
    assert (Hnone : map (fun gr => target (snd gr)) refs = []).
    { rewrite <- (scan_block refs last Hwf 0). unfold inliner.shouldProcess, RegExp.test in Hshould.
      destruct (RegExp.exec inliner.URL_REGEX (blockText refs last)) eqn:E; [discriminate |].
      rewrite (execFrom_none _ _ 0 E). reflexivity. }
    destruct refs; [reflexivity | discriminate].
Qed.

Lemma sample_fetches : Fetches Sample.host None None samplePayload emptyImplOptions.
Proof.
  unfold Fetches. intros url r0 Hr0.
  unfold inliner.getter, resolvedUrl, util.getAndEncode. cbn [Js.truthy].
  rewrite Hr0. unfold samplePayload. cbn.
  destruct (String.eqb url "b.png"); eexists; split; reflexivity.
Qed.

(** A block of one plain reference and one reference that is a data URL
    already. *)
Lemma inlineAll_rewrites_references_witness :
  exists r',
    inliner.inlineAll Sample.host
                      "background: url(b.png), url('data:image/gif;base64,R0lG') no-repeat"
                      None None initialRealm
    = (Fulfilled
         "background: url(data:image/png;base64,QUJD), url('data:image/gif;base64,R0lG') no-repeat",
       r')
    /\ inliner.readUrls
         "background: url(data:image/png;base64,QUJD), url('data:image/gif;base64,R0lG') no-repeat"
       = [].
Proof.
  destruct (inlineAll_rewrites_references
              Sample.host None None samplePayload sampleBlock " no-repeat" initialRealm)
    as (r' & Hrun & Hclean & _).
  - reflexivity.
  - intros gr [<- | [<- | []]]; reflexivity.
  - intro url. unfold samplePayload. destruct (String.eqb url "b.png"); reflexivity.
  - exact sample_fetches.
  - exists r'. split; [exact Hrun | exact Hclean].
Defined.






(* ================================================================== *)
(** ** [util]: the extension of a locator and its MIME type *)

Lemma extensionEnd_needsQuery k : needsQuery (fun j s caps => RegExp.run extensionEnd j s caps k).
Proof.
  intros j c s caps Hc. unfold extensionEnd. rewrite run_Group.
  cbn [RegExp.run Js.dropPrefix]. rewrite Ascii.eqb_sym, Hc. reflexivity.
Qed.

(** The lazy run of the extension gives up at the next dot when no query
    comes before it. *)
Lemma lazyStar_next_dot a t i caps k :
  needsQuery k ->
  Js.includesChar "?" a = false ->
  RegExp.lazyStar util.notDotSlash i (a ++ String "." t) caps k = None.
Proof.
  intros Hk. revert i. induction a as [| c a IH]; intros i Ha; cbn [append RegExp.lazyStar].
  - rewrite Hk by reflexivity. reflexivity.
  - cbn [Js.includesChar] in Ha. apply orb_false_iff in Ha as [Hc Ha].
    rewrite (Hk _ _ _ _ Hc). destruct (util.notDotSlash c); [apply IH; exact Ha | reflexivity].
Qed.

(** It stops at the end of the extension. *)
Lemma lazyStar_extension ext rest i caps k x :
  needsQuery k ->
  allChars extensionChar ext = true ->
  k (i + String.length ext) rest caps = Some x ->
  RegExp.lazyStar util.notDotSlash i (ext ++ rest) caps k = Some x.
Proof.
  intros Hk. revert i. induction ext as [| c ext IH]; intros i He Hx;
    cbn [append String.length] in *.
  - rewrite Nat.add_0_r in Hx. destruct rest; cbn [RegExp.lazyStar]; rewrite Hx; reflexivity.
  - apply andb_prop in He as [Hc He]. unfold extensionChar in Hc.
    apply andb_prop in Hc as [Hp Hq]. apply negb_true_iff in Hq.
    cbn [RegExp.lazyStar]. rewrite (Hk _ _ _ _ Hq), Hp. apply IH; [exact He |].
    rewrite <- Hx. f_equal. lia.
Qed.

Lemma EXTENSION_REGEX_unfold i s :
  RegExp.attemptAt util.EXTENSION_REGEX i s
  = match Js.dropPrefix "." s with
    | Some rest =>
        match RegExp.lazyStar util.notDotSlash (i + 1) rest []
                (fun j s' caps =>
                   RegExp.run extensionEnd j s'
                              ((1, RegExp.take (j - (i + 1)) rest) :: caps) final) with
        | Some (j, after, caps) => Some (RegExp.mkMatch i (RegExp.take (j - i) s) after caps)
        | None => None
        end
    | None => None
    end.
Proof.
  unfold RegExp.attemptAt, RegExp.matchAt, util.EXTENSION_REGEX.
  rewrite run_Seq, run_Chars. destruct (Js.dropPrefix "." s); reflexivity.
Qed.

Lemma group_needsQuery (f : nat -> RegExp.Captures -> RegExp.Captures) k :
  needsQuery (fun j s caps => RegExp.run extensionEnd j s (f j caps) k).
Proof. intros j c s caps Hc. apply (extensionEnd_needsQuery k j c s (f j caps) Hc). Qed.

(** No match starts before the last dot. *)
Lemma EXTENSION_REGEX_before b t i :
  b <> "" ->
  Js.includesChar "?" b = false ->
  RegExp.attemptAt util.EXTENSION_REGEX i (b ++ String "." t) = None.
Proof.
  intros Hne Hb. destruct b as [| c b]; [contradiction |].
  rewrite EXTENSION_REGEX_unfold. cbn [append Js.dropPrefix].
  destruct (Ascii.eqb "." c); [| reflexivity].
  cbn [Js.includesChar] in Hb. apply orb_false_iff in Hb as [_ Hb].
  rewrite lazyStar_next_dot; [reflexivity | | exact Hb].
  apply (group_needsQuery (fun j caps => (1, RegExp.take (j - (i + 1)) (b ++ String "." t)) :: caps)).
Qed.

Lemma includesChar_app c a b :
  Js.includesChar c (a ++ b) = Js.includesChar c a || Js.includesChar c b.
Proof. induction a as [| x a IH]; cbn; [reflexivity | now rewrite IH, orb_assoc]. Qed.

(** A search passes over a stretch where no attempt succeeds. *)
Lemma execFrom_dead r stretch rest i :
  (forall a b, stretch = a ++ b -> b <> "" ->
               RegExp.attemptAt r (i + String.length a) (b ++ rest) = None) ->
  RegExp.execFrom r i (stretch ++ rest) = RegExp.execFrom r (i + String.length stretch) rest.
Proof.
  revert i. induction stretch as [| c st IH]; intros i H; cbn [append String.length].
  - rewrite Nat.add_0_r. reflexivity.
  - cbn [RegExp.execFrom].
    assert (H0 := H "" (String c st) eq_refl).
    cbn [String.length append] in H0. rewrite Nat.add_0_r in H0.
    rewrite H0 by discriminate.
    rewrite IH.
    + f_equal. lia.
    + intros a b -> Hb. specialize (H (String c a) b eq_refl Hb).
      cbn [String.length] in H. rewrite <- H. f_equal. lia.
Qed.

(** The match at the last dot: the extension is the first group. *)
Lemma EXTENSION_REGEX_at_dot ext rest i :
  allChars extensionChar ext = true ->
  queryOrEnd rest = true ->
  exists m,
    RegExp.attemptAt util.EXTENSION_REGEX i (String "." (ext ++ rest)) = Some m /\
    RegExp.group m 1 = Some ext.
Proof.
  intros He Hr. rewrite EXTENSION_REGEX_unfold. cbn [Js.dropPrefix Ascii.eqb Bool.eqb].
  set (k := fun (j : nat) (s' : string) (caps : RegExp.Captures) =>
              RegExp.run extensionEnd j s'
                         ((1, RegExp.take (j - (i + 1)) (ext ++ rest)) :: caps) final).
  assert (Hend : exists j after two,
             k (i + 1 + String.length ext) rest [] = Some (j, after, [(2, two); (1, ext)])).
  { unfold k. replace (i + 1 + String.length ext - (i + 1)) with (String.length ext) by lia.
    rewrite take_append. unfold extensionEnd. rewrite run_Group.
    destruct rest as [| c rest]; cbn [queryOrEnd] in Hr.
    - cbn. do 3 eexists. reflexivity.
    - apply Ascii.eqb_eq in Hr. subst c. cbn. do 3 eexists. reflexivity. }
  destruct Hend as (j & after & two & Hend).
  rewrite (lazyStar_extension ext rest (i + 1) [] k (j, after, [(2, two); (1, ext)])).
  - eexists. split; [reflexivity |]. reflexivity.
  - apply (group_needsQuery (fun j caps => (1, RegExp.take (j - (i + 1)) (ext ++ rest)) :: caps)).
  - exact He.
  - exact Hend.
Qed.

(** The extension stands between the last dot before any query and the
    query, or the end. *)
Lemma parseExtension_between (pre ext rest : string) :
  Js.includesChar "?" pre = false ->
  allChars extensionChar ext = true ->
  queryOrEnd rest = true ->
  util.parseExtension (pre ++ "." ++ ext ++ rest) = ext.
Proof.
  intros Hpre He Hr. unfold util.parseExtension, RegExp.exec.
  change ("." ++ ext ++ rest) with (String "." (ext ++ rest)).
  rewrite execFrom_dead.
  - destruct (EXTENSION_REGEX_at_dot ext rest (0 + String.length pre) He Hr) as (m & Hm & Hg).
    cbn [RegExp.execFrom]. rewrite Hm, Hg. reflexivity.
  - intros a b -> Hb. apply EXTENSION_REGEX_before; [exact Hb |].
    rewrite includesChar_app in Hpre. apply orb_false_iff in Hpre as [_ Hpre]. exact Hpre.
Qed.

(** X1. The extension of a locator is what stands between the last dot
    that comes before any query and the query, or the end: a name of
    characters other than dot, slash and question mark, after a text
    without question mark, and followed by nothing or by a query. *)
Theorem parseExtension_last_dot (pre ext rest : string) :
  Js.includesChar "?" pre = false ->
  allChars extensionChar ext = true ->
  queryOrEnd rest = true ->
  util.parseExtension (pre ++ "." ++ ext ++ rest) = ext.
Proof. exact (parseExtension_between pre ext rest). Qed.

(** A locator with dots in its host and its path, and a query with one. *)
Lemma parseExtension_last_dot_witness :
  util.parseExtension "http://example.com/a.b/photo.PNG?v=1.2" = "PNG".
Proof.
  apply (parseExtension_last_dot "http://example.com/a.b/photo" "PNG" "?v=1.2"); reflexivity.
Defined.

Lemma EXTENSION_REGEX_needs_dot s i :
  Js.startsWith "." s = false -> RegExp.attemptAt util.EXTENSION_REGEX i s = None.
Proof.
  unfold Js.startsWith. rewrite EXTENSION_REGEX_unfold.
  destruct (Js.dropPrefix "." s); [discriminate | reflexivity].
Qed.

Lemma parseExtension_no_dot url i :
  Js.includesChar "." url = false -> RegExp.execFrom util.EXTENSION_REGEX i url = None.
Proof.
  revert i. induction url as [| c url IH]; intros i H; cbn [RegExp.execFrom].
  - rewrite EXTENSION_REGEX_needs_dot; reflexivity.
  - cbn [Js.includesChar] in H. apply orb_false_iff in H as [Hc H].
    rewrite EXTENSION_REGEX_needs_dot.
    + apply IH. exact H.
    + unfold Js.startsWith. cbn [Js.dropPrefix]. rewrite Ascii.eqb_sym, Hc. reflexivity.
Qed.

(** X2. A locator without any dot has no extension, and its MIME type is
    the empty string. *)
Theorem mimeType_without_dot (url : string) :
  Js.includesChar "." url = false ->
  util.parseExtension url = "" /\ util.mimeType url = "".
Proof.
  intro H. assert (E : util.parseExtension url = "").
  { unfold util.parseExtension, RegExp.exec. rewrite parseExtension_no_dot; [reflexivity | exact H]. }
  split; [exact E |]. unfold util.mimeType. rewrite E. reflexivity.
Qed.

Lemma mimeType_without_dot_witness :
  util.parseExtension "fonts/icons" = "" /\ util.mimeType "fonts/icons" = "".
Proof. apply (mimeType_without_dot "fonts/icons"). reflexivity. Defined.

Lemma lowerChar_extensionChar c :
  extensionChar c = true -> extensionChar (Js.lowerChar c) = true.
Proof.
  destruct c as [[] [] [] [] [] [] [] []]; intro H; try reflexivity; discriminate H.
Qed.

Lemma lowerChar_twice c : Js.lowerChar (Js.lowerChar c) = Js.lowerChar c.
Proof. destruct c as [[] [] [] [] [] [] [] []]; reflexivity. Qed.

Lemma toLowerCase_extension ext :
  allChars extensionChar ext = true -> allChars extensionChar (Js.toLowerCase ext) = true.
Proof.
  induction ext as [| c ext IH]; cbn [allChars Js.toLowerCase]; [reflexivity |].
  intro H. apply andb_prop in H as [Hc He].
  now rewrite (lowerChar_extensionChar c Hc), (IH He).
Qed.

Lemma toLowerCase_twice s : Js.toLowerCase (Js.toLowerCase s) = Js.toLowerCase s.
Proof.
  induction s as [| c s IH]; cbn [Js.toLowerCase]; [reflexivity |].
  now rewrite lowerChar_twice, IH.
Qed.

(** X3. The MIME type of a locator depends on its extension alone, and
    not on the case it is written in: whatever comes before the last dot
    and whatever the query, the type is the one of the lower-case
    extension standing by itself. *)
Theorem mimeType_extension_only (pre ext rest : string) :
  Js.includesChar "?" pre = false ->
  allChars extensionChar ext = true ->
  queryOrEnd rest = true ->
  util.mimeType (pre ++ "." ++ ext ++ rest) = util.mimeType ("." ++ Js.toLowerCase ext).
Proof.
  intros Hpre He Hr. unfold util.mimeType.
  rewrite (parseExtension_between pre ext rest Hpre He Hr).
  pose proof (parseExtension_between "" (Js.toLowerCase ext) "" eq_refl
                                      (toLowerCase_extension ext He) eq_refl) as E.
  rewrite append_nil_r in E. cbn [append] in E. cbn [append].
  rewrite E, toLowerCase_twice. reflexivity.
Qed.

Lemma mimeType_extension_only_witness :
  util.mimeType "http://example.com/a.b/photo.JPG?v=1.2" = "image/jpeg".
Proof.
  etransitivity.
  - apply (mimeType_extension_only "http://example.com/a.b/photo" "JPG" "?v=1.2");
      reflexivity.
  - reflexivity.
Defined.

(* ================================================================== *)
(** ** [util]: data URLs *)

Lemma DATA_REGEX_later i s : RegExp.execFrom util.DATA_REGEX (S i) s = None.
Proof.
  revert i. induction s as [| c s IH]; intro i; cbn [RegExp.execFrom];
    unfold RegExp.attemptAt, RegExp.matchAt, util.DATA_REGEX; rewrite run_Seq;
    cbn [RegExp.run]; [reflexivity | apply IH].
Qed.

Lemma isDataUrl_startsWith url : util.isDataUrl url = Js.startsWith "data:" url.
Proof.
  unfold util.isDataUrl, RegExp.test, RegExp.exec, Js.startsWith.
  assert (E : RegExp.attemptAt util.DATA_REGEX 0 url
              = match Js.dropPrefix "data:" url with
                | Some rest => Some (RegExp.mkMatch 0 (RegExp.take (5 - 0) url) rest
                                                    [(1, RegExp.take (5 - 0) url)])
                | None => None
                end).
  { unfold RegExp.attemptAt, RegExp.matchAt, util.DATA_REGEX.
    rewrite run_Seq. cbn [RegExp.run]. destruct (Js.dropPrefix "data:" url); reflexivity. }
  destruct url as [| c url]; cbn [RegExp.execFrom]; rewrite E.
  - reflexivity.
  - destruct (Js.dropPrefix "data:" (String c url)); [reflexivity |].
    rewrite DATA_REGEX_later. reflexivity.
Qed.

(** X4. A text is taken for a data URL exactly when it starts with the
    five characters [data:], in lower case and with nothing before them. *)
Theorem isDataUrl_exactly_prefix (url : string) :
  util.isDataUrl url = true <-> exists rest, url = "data:" ++ rest.
Proof.
  rewrite isDataUrl_startsWith. unfold Js.startsWith. split.
  - destruct (Js.dropPrefix "data:" url) as [rest |] eqn:E; [| discriminate].
    intros _. exists rest. apply dropPrefix_some. exact E.
  - intros [rest ->]. rewrite dropPrefix_append. reflexivity.
Qed.

(* ================================================================== *)
(** ** [util]: escaping *)

Lemma flatMapChars_app f a b :
  flatMapChars f (a ++ b) = flatMapChars f a ++ flatMapChars f b.
Proof.
  induction a as [| c a IH]; cbn [append flatMapChars]; [reflexivity |].
  now rewrite IH, append_assoc.
Qed.

Lemma escape_from whole s :
  forall i,
    String.concat "" (map (RegExp.emit util.ESCAPE_REGEX "\$1" whole)
                          (RegExp.pieces util.ESCAPE_REGEX i s 0))
    = flatMapChars escapedChar s.
Proof.
  induction s as [| c s IH]; intro i.
  - cbn [RegExp.pieces]. unfold RegExp.attemptAt, RegExp.matchAt, util.ESCAPE_REGEX.
    rewrite run_Group. reflexivity.
  - rewrite pieces_step, ESCAPE_REGEX_attempt. cbn [flatMapChars]. unfold escapedChar at 1.
    destruct (RegExp.isSyntaxChar c) eqn:Hc.
    + cbn [RegExp.matched Js.chr String.length map]. rewrite concat_cons.
      cbn [RegExp.emit]. cbn [util.ESCAPE_REGEX RegExp.groupCount Nat.max].
      change (RegExp.substitute "\$1" 1 ?b ?m) with (String "\" (RegExp.captured m 1 ++ "")).
      cbn [RegExp.captured RegExp.group RegExp.captures RegExp.capture Nat.eqb Js.chr append].
      rewrite IH. reflexivity.
    + cbn [map]. rewrite concat_cons. cbn [RegExp.emit Js.chr append].
      rewrite IH. reflexivity.
Qed.

(** X5. [escape] puts a backslash before each of the characters
    [. * + ? ^ $ { } ( ) | [ ] / \] of a text and leaves every other
    character as it is. *)
Theorem escape_by_character (text : string) :
  util.escape text = flatMapChars escapedChar text.
Proof. unfold util.escape, RegExp.replace. apply escape_from. Qed.

(** X6. What [escape] writes, read as the source of a pattern, spells the
    text it was given: the pattern [inline] compiles from an escaped
    target matches that target, character for character. *)
Theorem escape_read_back (text : string) :
  RegExp.literalSource (util.escape text) = Some text /\
  inliner.escaped (util.escape text) = RegExp.Chars text.
Proof.
  split; [| apply escaped_escape].
  unfold util.escape, RegExp.replace. apply literalSource_escape_from.
Qed.

Lemma attemptAt_char a i c s :
  RegExp.attemptAt (RegExp.Chars (Js.chr a)) i (String c s)
  = if Ascii.eqb a c then Some (RegExp.mkMatch i (Js.chr c) s []) else None.
Proof.
  unfold RegExp.attemptAt, RegExp.matchAt. rewrite run_Chars. cbn [Js.chr Js.dropPrefix].
  destruct (Ascii.eqb a c); [| reflexivity].
  replace (i + String.length (Js.chr a) - i) with 1 by (cbn; lia).
  cbn. destruct s; reflexivity.
Qed.

Lemma substitute_plain (d : string) groups before m :
  allChars (fun c => negb (Ascii.eqb c "$")) d = true ->
  RegExp.substitute d groups before m = d.
Proof.
  intro H. pose proof (substitute_payload d "" groups before m H) as E.
  rewrite append_nil_r in E. rewrite E. cbn [RegExp.substitute]. apply append_nil_r.
Qed.

(** A global replacement of one character by a text without dollar sign. *)
Lemma replace_char_from a by_ whole s :
  allChars (fun c => negb (Ascii.eqb c "$")) by_ = true ->
  forall i,
    String.concat "" (map (RegExp.emit (RegExp.Chars (Js.chr a)) by_ whole)
                          (RegExp.pieces (RegExp.Chars (Js.chr a)) i s 0))
    = flatMapChars (replacedChar a by_) s.
Proof.
  intro Hby. induction s as [| c s IH]; intro i.
  - reflexivity.
  - rewrite pieces_step, attemptAt_char. cbn [flatMapChars]. unfold replacedChar at 1.
    rewrite (Ascii.eqb_sym c a). destruct (Ascii.eqb a c).
    + cbn [RegExp.matched Js.chr String.length map]. rewrite concat_cons.
      cbn [RegExp.emit]. rewrite IH, (substitute_plain by_ _ _ _ Hby). reflexivity.
    + cbn [map]. rewrite concat_cons. cbn [RegExp.emit]. rewrite IH. reflexivity.
Qed.

Lemma replace_char a by_ s :
  allChars (fun c => negb (Ascii.eqb c "$")) by_ = true ->
  RegExp.replace (RegExp.Chars (Js.chr a)) by_ s = flatMapChars (replacedChar a by_) s.
Proof. intro H. unfold RegExp.replace. apply replace_char_from. exact H. Qed.

Lemma escapeXhtml_flat text : util.escapeXhtml text = flatMapChars xhtmlChar text.
Proof.
  unfold util.escapeXhtml.
  change (RegExp.Chars "#") with (RegExp.Chars (Js.chr "#")).
  rewrite (replace_char "#" "%23" text) by reflexivity.
  change (ascii_of_nat 10) with lineFeed.
  rewrite (replace_char lineFeed "%0A") by reflexivity.
  induction text as [| c text IH]; [reflexivity |].
  cbn [flatMapChars]. rewrite flatMapChars_app, IH. f_equal.
  unfold replacedChar at 2, xhtmlChar.
  destruct (Ascii.eqb c "#"); [reflexivity |].
  cbn [Js.chr flatMapChars]. unfold replacedChar. rewrite append_nil_r. reflexivity.
Qed.

Lemma includesChar_flatMapChars a f s :
  (forall c, Js.includesChar a (f c) = false) ->
  Js.includesChar a (flatMapChars f s) = false.
Proof.
  intro H. induction s as [| c s IH]; cbn [flatMapChars]; [reflexivity |].
  now rewrite includesChar_app, H, IH.
Qed.

Lemma xhtmlChar_clean a c :
  a = "#"%char \/ a = lineFeed -> Js.includesChar a (xhtmlChar c) = false.
Proof.
  unfold xhtmlChar. intros [-> | ->].
  - destruct (Ascii.eqb c "#") eqn:E1; [reflexivity |].
    destruct (Ascii.eqb c lineFeed); [reflexivity |].
    cbn. rewrite E1. reflexivity.
  - destruct (Ascii.eqb c "#"); [reflexivity |].
    destruct (Ascii.eqb c lineFeed) eqn:E2; [reflexivity |].
    cbn [Js.chr Js.includesChar]. rewrite E2. reflexivity.
Qed.

(** X7. [escapeXhtml] writes [%23] for each number sign and [%0A] for
    each line feed and leaves every other character as it is; what it
    returns holds no number sign and no line feed. *)
Theorem escapeXhtml_by_character (text : string) :
  util.escapeXhtml text = flatMapChars xhtmlChar text /\
  Js.includesChar "#" (util.escapeXhtml text) = false /\
  Js.includesChar lineFeed (util.escapeXhtml text) = false.
Proof.
  rewrite escapeXhtml_flat. split; [reflexivity |].
  split; apply includesChar_flatMapChars; intro c; apply xhtmlChar_clean; auto.
Qed.

(** X8. [escapeXhtml] does not encode the percent sign, and so cannot be
    undone: a number sign and a [%23] that the text held already come out
    the same. *)
Theorem escapeXhtml_not_reversible (before after : string) :
  util.escapeXhtml (before ++ "#" ++ after) = util.escapeXhtml (before ++ "%23" ++ after).
Proof.
  rewrite !escapeXhtml_flat, !flatMapChars_app. reflexivity.
Qed.

(* ================================================================== *)
(** ** [util.uid]: generated names *)

Lemma length_substring (n m : nat) (s : string) :
  n + m <= String.length s -> String.length (String.substring n m s) = m.
Proof.
  revert n m. induction s as [| c s IH]; intros n m H; cbn [String.length] in H.
  - replace n with 0 by lia. replace m with 0 by lia. reflexivity.
  - destruct n as [| n]; cbn [String.substring].
    + destruct m as [| m]; [reflexivity |]. cbn [String.length]. rewrite IH; lia.
    + apply IH. lia.
Qed.

Lemma length_fourRandomChars host call :
  String.length (util.fourRandomChars host call) = 4.
Proof.
  unfold util.fourRandomChars, util.lastFour. apply length_substring.
  rewrite length_append. cbn [String.length]. lia.
Qed.

Lemma append_same_length (a a' b b' : string) :
  String.length a = String.length a' -> a ++ b = a' ++ b' -> b = b'.
Proof.
  revert a'. induction a as [| c a IH]; intros [| c' a'] Hl H; cbn in *;
    try discriminate; [exact H |].
  injection H as _ H. apply (IH a'); [lia | exact H].
Qed.

Lemma to_uint_not_nil n : N.to_uint n <> Decimal.Nil.
Proof. destruct n as [| p]; [discriminate | apply DecimalPos.Unsigned.to_uint_nonnil]. Qed.

Lemma intToString_inj n m : Js.intToString n = Js.intToString m -> n = m.
Proof.
  unfold Js.intToString. intro H.
  apply DecimalN.Unsigned.to_uint_inj.
  pose proof (NilZero.usu (N.to_uint n) (to_uint_not_nil n)) as En.
  pose proof (NilZero.usu (N.to_uint m) (to_uint_not_nil m)) as Em.
  rewrite H in En. congruence.
Qed.

(** X9. A generated name is [u], four characters and the counter, and the
    counter moves on with every call: the names of two calls whose
    counters differ are different, whatever the random characters. *)
Theorem uid_never_repeats (host : Host) (r1 r2 : Realm) :
  uidIndex r1 <> uidIndex r2 ->
  fst (util.uid host r1) <> fst (util.uid host r2) /\
  uidIndex (snd (util.uid host r1)) = S (uidIndex r1) /\
  exists four,
    String.length four = 4 /\
    fst (util.uid host r1)
    = Fulfilled ("u" ++ four ++ Js.intToString (N.of_nat (uidIndex r1))).
Proof.
  intro Hne. unfold util.uid. cbn [fst snd uidIndex]. repeat split.
  - intro H. injection H as H. apply Hne.
    apply append_same_length in H; [| now rewrite !length_fourRandomChars].
    apply intToString_inj in H. lia.
  - exists (util.fourRandomChars host (uidIndex r1)).
    split; [apply length_fourRandomChars | reflexivity].
Qed.

(** Two calls in a row, from the start of a session. *)
Lemma uid_never_repeats_witness :
  fst (util.uid Sample.host initialRealm)
  <> fst (util.uid Sample.host (snd (util.uid Sample.host initialRealm))).
Proof.
  apply (uid_never_repeats Sample.host initialRealm
                           (snd (util.uid Sample.host initialRealm))).
  cbn. discriminate.
Defined.

(* ================================================================== *)
(** ** [util.getAndEncode]: requests that do not end, placeholders, cache busting *)

(** X10. Once the request is out, only an event that ends it settles the
    promise: while the request reports states other than 4 and no
    timeout, the promise stays pending, and nothing is logged or
    changed. *)
Theorem getAndEncode_pending_until_done (host : Host) (url : string) (r : Realm)
        (events : list XhrEvent) :
  let o := implOptions r in
  request host (util.truthyFlag (implUseCredentials o)) (util.bustedUrl host o url)
    = Reports events ->
  Forall running events ->
  util.getAndEncode host url r = (Pending, r).
Proof.
  cbn zeta. intros Hev H. unfold util.getAndEncode. rewrite Hev.
  rewrite (fold_running _ _ _ _ H). destruct r; reflexivity.
Qed.

Lemma split_at_comma a rest :
  Js.includesChar "," a = false ->
  Js.split "," (a ++ "," ++ rest) = a :: Js.split "," rest.
Proof.
  intro Ha. change ("," ++ rest) with (String "," rest).
  induction a as [| c a IH]; cbn [append Js.split].
  - reflexivity.
  - cbn [Js.includesChar] in Ha. apply orb_false_iff in Ha as [Hc Ha].
    rewrite Hc, (IH Ha). reflexivity.
Qed.

Lemma getAndEncode_pending_until_done_witness :
  util.getAndEncode stalledHost "a.png" initialRealm = (Pending, initialRealm).
Proof.
  apply (getAndEncode_pending_until_done
           stalledHost "a.png" initialRealm
           [ReadyStateChange 2 200 ""; ReadyStateChange 3 200 ""]).
  - reflexivity.
  - repeat constructor; cbn; discriminate.
Defined.

(** X11. The placeholder payload is the piece of the configured text
    between its first and its second comma: what follows a second comma
    is dropped. *)
Theorem placeholder_cut_at_second_comma (o : ImplOptions) (mime payload rest : string) :
  implImagePlaceholder o = Some (mime ++ "," ++ payload ++ "," ++ rest) ->
  Js.includesChar "," mime = false ->
  Js.includesChar "," payload = false ->
  payload <> "" ->
  util.placeholderOf o = Some payload.
Proof.
  intros Ho Hm Hp Hne. unfold util.placeholderOf. rewrite Ho.
  rewrite (split_at_comma mime _ Hm), (split_at_comma payload rest Hp).
  destruct (Js.truthyString _) eqn:Ht; [| destruct mime; discriminate].
  cbn [nth_error]. destruct payload; [contradiction | reflexivity].
Qed.

(** A placeholder written as markup: the commas of its attributes cut it. *)
Lemma placeholder_cut_at_second_comma_witness :
  util.placeholderOf (placeholderOnly "data:image/svg+xml;utf8,<svg viewBox='0,0,1,1'/>")
  = Some "<svg viewBox='0".
Proof.
  apply (placeholder_cut_at_second_comma
           (placeholderOnly "data:image/svg+xml;utf8,<svg viewBox='0,0,1,1'/>")
           "data:image/svg+xml;utf8" "<svg viewBox='0" "0,1,1'/>");
    [reflexivity | reflexivity | reflexivity | discriminate].
Defined.

Lemma placeholderOf_none o p :
  implImagePlaceholder o = Some p ->
  Js.includesChar "," p = false
  \/ (exists mime, p = mime ++ "," /\ Js.includesChar "," mime = false) ->
  util.placeholderOf o = None.
Proof.
  intros Ho H. unfold util.placeholderOf. rewrite Ho.
  destruct (Js.truthyString p); [| reflexivity].
  destruct H as [H | (mime & -> & H)].
  - rewrite (split_no_comma p H). reflexivity.
  - change (mime ++ ",") with (mime ++ "," ++ "").
    rewrite (split_at_comma mime "" H). reflexivity.
Qed.

(** X12. A configured placeholder that has no comma, or nothing after its
    only comma, is no placeholder: a request that fails is then settled
    as without one, with the empty string and an error on the console. *)
Theorem placeholder_without_payload_ignored (host : Host) (url p : string) (r : Realm)
        (pre post : list XhrEvent) (e : XhrEvent) :
  let o := implOptions r in
  implImagePlaceholder o = Some p ->
  Js.includesChar "," p = false
  \/ (exists mime, p = mime ++ "," /\ Js.includesChar "," mime = false) ->
  request host (util.truthyFlag (implUseCredentials o)) (util.bustedUrl host o url)
    = Reports (pre ++ e :: post) ->
  Forall running pre ->
  failed e ->
  util.placeholderOf o = None /\
  fst (util.getAndEncode host url r) = Fulfilled (Some "") /\
  exists message later,
    console (snd (util.getAndEncode host url r))
    = (console r ++ ConsoleError message :: later)%list.
Proof.
  cbn zeta. intros Ho Hp Hev Hpre He.
  pose proof (placeholderOf_none _ p Ho Hp) as Hnone.
  split; [exact Hnone |].
  apply (getAndEncode_fails host url r pre e post Hev Hpre He Hnone).
Qed.

Lemma placeholder_without_payload_ignored_witness :
  let r := copyOptions (Sample.withPlaceholder "placeholder.png") initialRealm in
  fst (util.getAndEncode Sample.host "a.png" r) = Fulfilled (Some "").
Proof.
  cbn zeta.
  destruct (placeholder_without_payload_ignored
              Sample.host "a.png" "placeholder.png"
              (copyOptions (Sample.withPlaceholder "placeholder.png") initialRealm)
              [] [] (ReadyStateChange 4 404 "")) as (_ & H & _).
  - reflexivity.
  - left. reflexivity.
  - reflexivity.
  - constructor.
  - cbn. split; [reflexivity | discriminate].
  - exact H.
Defined.

(* ================================================================== *)
(** ** [inliner]: what is read, and what is fetched *)

(** Every match of a pass was found by an attempt somewhere. *)
Lemma hits_attempted r m s :
  forall i skip,
    In m (hits (RegExp.pieces r i s skip)) -> exists j t, RegExp.attemptAt r j t = Some m.
Proof.
  induction s as [| c s IH]; intros i skip H.
  - destruct skip; cbn [RegExp.pieces] in H; [| contradiction].
    destruct (RegExp.attemptAt r i "") as [m' |] eqn:E; [| contradiction].
    destruct H as [<- | []]. eauto.
  - destruct skip as [| skip]; [| apply (IH (S i) skip H)].
    rewrite pieces_step in H.
    destruct (RegExp.attemptAt r i (String c s)) as [m' |] eqn:E.
    + destruct (String.length (RegExp.matched m')); cbn in H;
        (destruct H as [<- | H]; [eauto | apply (IH _ _ H)]).
    + apply (IH _ _ H).
Qed.

(** What a lazy run has taken when the match goes through. *)
Lemma lazyStar_taken p s a :
  forall i caps (k : RegExp.Continuation),
    RegExp.lazyStar p i s caps k = Some a ->
    exists taken rest,
      s = taken ++ rest /\ allChars p taken = true /\
      k (i + String.length taken) rest caps = Some a.
Proof.
  induction s as [| c s IH]; intros i caps k H; cbn [RegExp.lazyStar] in H.
  - exists "", "". cbn. rewrite Nat.add_0_r.
    destruct (k i "" caps); [auto | discriminate].
  - destruct (k i (String c s) caps) eqn:E.
    + exists "", (String c s). cbn. rewrite Nat.add_0_r. rewrite E. auto.
    + destruct (p c) eqn:Hc; [| discriminate].
      destruct (IH _ _ _ H) as (taken & rest & -> & Ht & Hk).
      exists (String c taken), rest. cbn [append allChars String.length].
      rewrite Hc, Ht. repeat split. rewrite <- Hk. f_equal. lia.
Qed.

(** The end of the pattern leaves the groups as they are. *)
Lemma closer_captures j s caps a :
  RegExp.run closer j s caps final = Some a -> snd a = caps.
Proof.
  unfold closer. rewrite run_Seq, run_Opt.
  destruct s as [| c s].
  - cbn. discriminate.
  - rewrite run_Class. destruct (inliner.quote c).
    + rewrite !run_Chars. destruct (Js.dropPrefix ")" s).
      * intro H. injection H as <-. reflexivity.
      * destruct (Js.dropPrefix ")" (String c s)); [| discriminate].
        intro H. injection H as <-. reflexivity.
    + rewrite run_Chars. destruct (Js.dropPrefix ")" (String c s)); [| discriminate].
      intro H. injection H as <-. reflexivity.
Qed.

Lemma urlBody_group j s a :
  RegExp.run urlBody j s [] final = Some a ->
  exists u, snd a = [(1, u)] /\ u <> "" /\ allChars inliner.notQuote u = true.
Proof.
  unfold urlBody. rewrite run_Seq, run_Group.
  destruct s as [| c s]; [discriminate |].
  rewrite run_LazyPlus. destruct (inliner.notQuote c) eqn:Hc; [| discriminate].
  intro H. apply lazyStar_taken in H as (taken & rest & -> & Ht & Hk).
  apply closer_captures in Hk. exists (String c taken).
  split; [| split; [discriminate | cbn [allChars]; now rewrite Hc, Ht]].
  rewrite Hk. f_equal. f_equal.
  replace (S j + String.length taken - j) with (String.length (String c taken))
    by (cbn [String.length]; lia).
  change (String c (taken ++ rest)) with (String c taken ++ rest).
  apply take_append.
Qed.

(** The first group of a match of the scanning pattern: a text that is
    not empty and holds no quote. *)
Lemma URL_REGEX_group i s m :
  RegExp.attemptAt inliner.URL_REGEX i s = Some m ->
  exists u, RegExp.group m 1 = Some u /\ u <> "" /\ allChars inliner.notQuote u = true.
Proof.
  unfold RegExp.attemptAt, RegExp.matchAt.
  destruct (RegExp.run inliner.URL_REGEX i s [] (fun j s' caps => Some (j, s', caps)))
    as [[[j rest] caps] |] eqn:E; [| discriminate].
  intro H. injection H as <-. unfold RegExp.group. cbn [RegExp.captures].
  unfold inliner.URL_REGEX in E. rewrite run_Seq, run_Chars in E.
  destruct (Js.dropPrefix "url(" s) as [s1 |]; [| discriminate].
  rewrite run_Seq, run_Opt in E.
  assert (Hbody : exists j1 s2, RegExp.run urlBody j1 s2 [] final = Some (j, rest, caps)).
  { destruct (RegExp.run (RegExp.Class inliner.quote) (i + String.length "url(") s1 [] _)
      as [a |] eqn:E1.
    - injection E as ->. destruct s1 as [| c s1]; [discriminate |].
      rewrite run_Class in E1. destruct (inliner.quote c); [| discriminate]. eauto.
    - eauto. }
  destruct Hbody as (j1 & s2 & Hbody). apply urlBody_group in Hbody as (u & Hu & Hne & Hq).
  cbn [snd] in Hu. subst caps. exists u. cbn. auto.
Qed.

(** X13. The targets [readUrls] returns are not empty, hold neither of
    the two quotes, and do not start with [data:], whatever the text. *)
Theorem readUrls_reads_targets (text url : string) :
  In url (inliner.readUrls text) ->
  url <> "" /\ allChars inliner.notQuote url = true /\ util.isDataUrl url = false.
Proof.
  unfold inliner.readUrls. intro H. apply filter_In in H as [H Hdata].
  apply negb_true_iff in Hdata. apply in_map_iff in H as (m & <- & Hm).
  apply hits_attempted in Hm as (j & t & Hm).
  apply URL_REGEX_group in Hm as (u & Hu & Hne & Hq). rewrite Hu in *. cbn [Js.toStr] in *.
  auto.
Qed.

Lemma readUrls_reads_targets_witness :
  "a.png" <> "" /\ allChars inliner.notQuote "a.png" = true /\ util.isDataUrl "a.png" = false.
Proof.
  apply (readUrls_reads_targets
           "src: url('a.png'), url(data:font/woff2;base64,AAAA); content: 'url()'" "a.png").
  left. reflexivity.
Defined.

Lemma shouldProcess_false text :
  inliner.shouldProcess text = false -> inliner.readUrls text = [].
Proof.
  unfold inliner.shouldProcess, RegExp.test, RegExp.exec. intro H.
  destruct (RegExp.execFrom inliner.URL_REGEX 0 text) eqn:E; [discriminate |].
  unfold inliner.readUrls, RegExp.matchAll.
  change (flat_map _ (RegExp.pieces inliner.URL_REGEX 0 text 0))
    with (hits (RegExp.pieces inliner.URL_REGEX 0 text 0)).
  rewrite (execFrom_none _ _ 0 E). reflexivity.
Qed.

Lemma inline_recorded host baseUrl payload urls :
  forall (done : Promise string) text r r1,
    done r = (Fulfilled text, r1) ->
    exists text',
      fold_left
        (fun done url =>
           andThen done (fun text' =>
                           inliner.inline host text' url baseUrl (Some (recording payload))))
        urls done r
      = (Fulfilled text', noted (map (resolvedUrl host baseUrl) urls) r1).
Proof.
  induction urls as [| url urls IH]; intros done text r r1 Hdone; cbn [fold_left map].
  - exists text. exact Hdone.
  - unfold noted. cbn [fold_left]. eapply IH.
    unfold andThen. rewrite Hdone. unfold inliner.inline, andThen. cbn [resolve inliner.getter].
    fold (resolvedUrl host baseUrl url). unfold recording. reflexivity.
Qed.

(** X14. [inlineAll] fetches once for each target [readUrls] returns, in
    the order of the text and as often as the target is written, and
    fetches nothing else: with a [get] that notes what it is asked for,
    the console ends up with these locators, resolved against the base
    when there is one. *)
Theorem inlineAll_fetches_each_target (host : Host) (text : string)
        (baseUrl : option string) (payload : string -> string) (r : Realm) :
  exists text',
    inliner.inlineAll host text baseUrl (Some (recording payload)) r
    = (Fulfilled text',
       noted (map (resolvedUrl host baseUrl) (inliner.readUrls text)) r).
Proof.
  unfold inliner.inlineAll.
  destruct (inliner.shouldProcess text) eqn:E; cbn [negb].
  - unfold andThen at 1. cbn [resolve].
    apply (inline_recorded host baseUrl payload (inliner.readUrls text)
                           (resolve text) text r r eq_refl).
  - rewrite (shouldProcess_false text E). exists text. reflexivity.
Qed.

(* ================================================================== *)
(** ** [images]: what inlining changes *)

(** Induction on a clone, with the property at hand for its children. *)
Lemma Clone_induction (P : Clone -> Prop) :
  (forall original data, P (ClonedText original data)) ->
  (forall original iface attrs style children,
     Forall P children -> P (ClonedElement original iface attrs style children)) ->
  (forall text, P (StyleElement text)) ->
  (forall html, P (Markup html)) ->
  forall c, P c.
Proof.
  intros Htext Helem Hstyle Hmarkup.
  fix IH 1. intros [original data | original iface attrs style children | text | html].
  - apply Htext.
  - apply Helem. induction children as [| k children IHc]; constructor.
    + apply IH.
    + apply IHc.
  - apply Hstyle.
  - apply Hmarkup.
Qed.

(** [Promise.all] fulfilled: every promise was, with the value at its
    place in the list. *)
Lemma promiseAll_fulfilled {A B} (f : A -> Promise B) (l : list A) :
  forall r l' r',
    promiseAll (map f l) r = (Fulfilled l', r') ->
    Forall2 (fun a b => exists r1 r2, f a r1 = (Fulfilled b, r2)) l l'.
Proof.
  induction l as [| a l IH]; intros r l' r' H; cbn [map promiseAll] in H.
  - injection H as <- _. constructor.
  - destruct (f a r) as [first r1] eqn:E1.
    destruct (promiseAll (map f l) r1) as [others r2] eqn:E2.
    destruct first as [b | e |], others as [bs | e' |]; try discriminate.
    injection H as <- _. constructor; [eauto | apply (IH _ _ _ E2)].
Qed.

Lemma removeProperty_replaceProperty ds d :
  removeProperty (replaceProperty ds d) (propName d) = removeProperty ds (propName d).
Proof.
  induction ds as [| d0 ds IH]; cbn [replaceProperty removeProperty].
  - rewrite String.eqb_refl. reflexivity.
  - destruct (String.eqb (propName d0) (propName d)) eqn:E; cbn [removeProperty].
    + rewrite String.eqb_refl. reflexivity.
    + rewrite E, IH. reflexivity.
Qed.

Lemma removeProperty_twice ds name :
  removeProperty (removeProperty ds name) name = removeProperty ds name.
Proof.
  induction ds as [| d ds IH]; cbn [removeProperty]; [reflexivity |].
  destruct (String.eqb (propName d) name) eqn:E; [exact IH |].
  cbn [removeProperty]. rewrite E, IH. reflexivity.
Qed.

Lemma removeProperty_setProperty ds name v priority :
  removeProperty (setProperty ds name v priority) name = removeProperty ds name.
Proof.
  unfold setProperty. destruct (Js.truthyString v).
  - apply (removeProperty_replaceProperty ds (mkDeclaration name v priority)).
  - apply removeProperty_twice.
Qed.

Lemma setAttribute_twice attrs name v w :
  setAttribute (setAttribute attrs name v) name w = setAttribute attrs name w.
Proof.
  induction attrs as [| [n v0] attrs IH]; cbn [setAttribute].
  - rewrite String.eqb_refl. reflexivity.
  - destruct (String.eqb n name) eqn:E; cbn [setAttribute]; rewrite E; [reflexivity |].
    now rewrite IH.
Qed.

Lemma inlineBackground_fulfilled host style r style' r' :
  images.inlineBackground host style r = (Fulfilled style', r') ->
  removeProperty style' "background" = removeProperty style "background".
Proof.
  unfold images.inlineBackground.
  destruct (negb (Js.truthyString (getPropertyValue style "background"))).
  - intro H. injection H as <- _. reflexivity.
  - intro H. apply andThen_fulfilled in H as (inlined & r1 & _ & H).
    injection H as <- _. apply removeProperty_setProperty.
Qed.

Lemma inline_image_fulfilled host attrs get r attrs' r' :
  images.inline host attrs get r = (Fulfilled attrs', r') ->
  setAttribute attrs' "src" "" = setAttribute attrs "src" "".
Proof.
  unfold images.inline. destruct (util.isDataUrl (images.srcOf host attrs)).
  - intro H. injection H as <- _. reflexivity.
  - intro H. apply andThen_fulfilled in H as (data & r1 & _ & H).
    apply andThen_fulfilled in H as (dataUrl & r2 & _ & H).
    injection H as <- _. apply setAttribute_twice.
Qed.

Lemma images_inlineAll_element host original iface attrs style children :
  images.inlineAll host (ClonedElement original iface attrs style children)
  = andThen (images.inlineBackground host style)
            (fun style' =>
               if isImage iface
               then andThen (images.inline host attrs None)
                            (fun attrs' =>
                               resolve (ClonedElement original iface attrs' style' children))
               else andThen (promiseAll (map (images.inlineAll host) children))
                            (fun children' =>
                               resolve (ClonedElement original iface attrs style' children'))).
Proof. destruct iface; reflexivity. Qed.

(** X15. Inlining the images of a clone changes nothing but the [src] of
    its images and the [background] declarations of its elements: with
    those taken away, the tree it returns is the tree it was given, node
    for node. *)
Theorem images_inlineAll_changes_sources_only (host : Host) (node node' : Clone)
        (r r' : Realm) :
  images.inlineAll host node r = (Fulfilled node', r') ->
  withoutSources node' = withoutSources node.
Proof.
  revert r node' r'.
  induction node as [original data | original iface attrs style children IH | text | html]
    using Clone_induction; intros r node' r' H;
    try (cbn in H; injection H as <- _; reflexivity).
  rewrite images_inlineAll_element in H.
  apply andThen_fulfilled in H as (style' & r1 & Hstyle & H).
  apply inlineBackground_fulfilled in Hstyle.
  destruct (isImage iface) eqn:Hi.
  - apply andThen_fulfilled in H as (attrs' & r2 & Hattrs & H).
    apply inline_image_fulfilled in Hattrs. injection H as <- _.
    destruct iface; try discriminate. cbn [withoutSources]. now rewrite Hstyle, Hattrs.
  - apply andThen_fulfilled in H as (children' & r2 & Hall & H). injection H as <- _.
    apply promiseAll_fulfilled in Hall.
    assert (E : map withoutSources children' = map withoutSources children).
    { clear -IH Hall. induction Hall as [| c c' children children' (r1 & r2 & Hc) _ IHall].
      - reflexivity.
      - inversion IH as [| ? ? Hhead Htail]; subst. cbn [map].
        rewrite (Hhead _ _ _ Hc), (IHall Htail). reflexivity. }
    cbn [withoutSources]. rewrite Hstyle, E. destruct iface; try discriminate; reflexivity.
Qed.

Lemma images_inlineAll_changes_sources_only_witness :
  exists node' r',
    images.inlineAll Sample.host sampleClone initialRealm = (Fulfilled node', r') /\
    withoutSources node' = withoutSources sampleClone.
Proof.
  destruct (images.inlineAll Sample.host sampleClone initialRealm) as [s r'] eqn:Hrun.
  assert (Hs : s = fst (images.inlineAll Sample.host sampleClone initialRealm))
    by (rewrite Hrun; reflexivity).
  vm_compute in Hs. subst s.
  eexists. exists r'. split; [reflexivity |].
  apply (images_inlineAll_changes_sources_only Sample.host sampleClone _ initialRealm r' Hrun).
Defined.

Lemma promiseAll_resolved {A} (f : A -> Promise A) (l : list A) r :
  Forall (fun a => forall r, f a r = (Fulfilled a, r)) l ->
  promiseAll (map f l) r = (Fulfilled l, r).
Proof.
  intro H. induction H as [| a l Ha _ IH]; cbn [map promiseAll]; [reflexivity |].
  rewrite Ha, IH. reflexivity.
Qed.

(** X16. A clone that holds no image and declares no background is
    returned as it is by [images.inlineAll], and nothing is requested,
    logged or changed on the way. *)
Theorem images_inlineAll_nothing_to_inline (host : Host) (node : Clone) (r : Realm) :
  sourceFree node = true ->
  images.inlineAll host node r = (Fulfilled node, r).
Proof.
  revert r.
  induction node as [original data | original iface attrs style children IH | text | html]
    using Clone_induction; intros r H; try reflexivity.
  cbn [sourceFree] in H. apply andb_prop in H as [H Hkids]. apply andb_prop in H as [Hbg Hi].
  apply negb_true_iff in Hi.
  rewrite images_inlineAll_element, Hi. unfold images.inlineBackground. rewrite Hbg.
  unfold andThen at 1. cbn [resolve]. unfold andThen.
  rewrite promiseAll_resolved; [reflexivity |].
  rewrite forallb_forall in Hkids. rewrite Forall_forall in IH |- *.
  intros c Hc r0. apply (IH c Hc). apply (Hkids c Hc).
Qed.

Lemma images_inlineAll_nothing_to_inline_witness :
  images.inlineAll Sample.host
                   (ClonedElement (ElementNode Sample.box []) HTMLElement [] []
                                  [ClonedText (TextNode "caption") "caption";
                                   StyleElement ".u00000::before{content: 'x';}"])
                   initialRealm
  = (Fulfilled (ClonedElement (ElementNode Sample.box []) HTMLElement [] []
                              [ClonedText (TextNode "caption") "caption";
                               StyleElement ".u00000::before{content: 'x';}"]),
     initialRealm).
Proof.
  apply (images_inlineAll_nothing_to_inline Sample.host). reflexivity.
Defined.

(** An event that ends the request settles a promise that was pending. *)
Lemma handle_final placeholder url c e :
  ~ running e -> exists w, fst (util.handle placeholder url (None, c) e) = Some w.
Proof.
  destruct e as [readyState status response | ]; cbn.
  - intro H. unfold util.done.
    destruct (N.eqb_spec readyState 4) as [-> | Hne]; [| contradiction].
    cbn [negb]. destruct (negb (status =? 200)%N).
    + destruct placeholder; eexists; reflexivity.
    + eexists. reflexivity.
  - intros _. unfold util.timeout. destruct placeholder; eexists; reflexivity.
Qed.

Lemma getAndEncode_ends host url r pre e post :
  let o := implOptions r in
  request host (util.truthyFlag (implUseCredentials o)) (util.bustedUrl host o url)
    = Reports (pre ++ e :: post) ->
  Forall running pre ->
  ~ running e ->
  exists w r', util.getAndEncode host url r = (Fulfilled w, r').
Proof.
  cbn zeta. intros Hev Hpre He.
  destruct (handle_final (util.placeholderOf (implOptions r))
                         (util.bustedUrl host (implOptions r) url) (console r) e He)
    as (w & Hw).
  pose proof (getAndEncode_settles host url r pre e post Hev Hpre w Hw) as H.
  destruct (util.getAndEncode host url r) as [s r']. cbn [fst] in H. subst s. eauto.
Qed.

Lemma getAttribute_setAttribute attrs name v :
  getAttribute (setAttribute attrs name v) name = Some v.
Proof.
  induction attrs as [| [n v0] attrs IH]; cbn [setAttribute getAttribute].
  - rewrite String.eqb_refl. reflexivity.
  - destruct (String.eqb n name) eqn:E; cbn [getAttribute]; rewrite E; [reflexivity | exact IH].
Qed.

(** X17. Inlining an image whose source is no data URL is fulfilled as
    soon as the request ends, however it ends, and the image then has a
    data URL for its [src]: the one [dataAsUrl] makes of the MIME type of
    the old source and of the very value the fetch was fulfilled with. *)
Theorem images_inline_always_data_url (host : Host) (attrs : list (string * string))
        (r : Realm) (pre post : list XhrEvent) (e : XhrEvent) :
  let o := implOptions r in
  let src := images.srcOf host attrs in
  util.isDataUrl src = false ->
  request host (util.truthyFlag (implUseCredentials o)) (util.bustedUrl host o src)
    = Reports (pre ++ e :: post) ->
  Forall running pre ->
  ~ running e ->
  exists fetched r',
    util.getAndEncode host src r = (Fulfilled fetched, r') /\
    images.inline host attrs None r
    = (Fulfilled (setAttribute attrs "src" (util.dataAsUrl fetched (util.mimeType src))), r') /\
    getAttribute (setAttribute attrs "src" (util.dataAsUrl fetched (util.mimeType src))) "src"
    = Some ("data:" ++ util.mimeType src ++ ";base64," ++ Js.toStr fetched) /\
    util.isDataUrl (util.dataAsUrl fetched (util.mimeType src)) = true.
Proof.
  cbn zeta. intros Hdata Hev Hpre He.
  destruct (getAndEncode_ends host _ r pre e post Hev Hpre He) as (w & r' & Hget).
  exists w, r'. split; [exact Hget |]. split; [| split].
  - unfold images.inline. rewrite Hdata. unfold andThen. cbn [inliner.getter resolve].
    rewrite Hget. reflexivity.
  - unfold util.dataAsUrl. apply getAttribute_setAttribute.
  - apply isDataUrl_data.
Qed.

(** The image whose source the sample network does not have, and the one
    whose source it has. *)
Lemma images_inline_always_data_url_witness :
  (exists r',
     util.getAndEncode Sample.host "a.png" initialRealm = (Fulfilled (Some ""), r') /\
     images.inline Sample.host [("src", "a.png")] None initialRealm
     = (Fulfilled [("src", "data:image/png;base64,")], r')) /\
  (exists r',
     util.getAndEncode Sample.host "b.png" initialRealm = (Fulfilled (Some "QUJD"), r') /\
     images.inline Sample.host [("src", "b.png")] None initialRealm
     = (Fulfilled [("src", "data:image/png;base64,QUJD")], r')).
Proof.
  split.
  - destruct (images_inline_always_data_url Sample.host [("src", "a.png")] initialRealm
                                            [] [] (ReadyStateChange 4 404 ""))
      as (fetched & r' & Hget & Hrun & _).
    + reflexivity.
    + reflexivity.
    + constructor.
    + cbn. intro H. apply H. reflexivity.
    + assert (Hf : Fulfilled fetched
                   = fst (util.getAndEncode Sample.host "a.png" initialRealm))
        by exact (eq_sym (f_equal fst Hget)).
      vm_compute in Hf. injection Hf as ->. exists r'. split; [exact Hget | exact Hrun].
  - destruct (images_inline_always_data_url
                Sample.host [("src", "b.png")] initialRealm
                [ReadyStateChange 2 200 ""] []
                (ReadyStateChange 4 200 "data:image/png;base64,QUJD"))
      as (fetched & r' & Hget & Hrun & _).
    + reflexivity.
    + reflexivity.
    + constructor; [cbn; discriminate | constructor].
    + cbn. intro H. apply H. reflexivity.
    + assert (Hf : Fulfilled fetched
                   = fst (util.getAndEncode Sample.host "b.png" initialRealm))
        by exact (eq_sym (f_equal fst Hget)).
      vm_compute in Hf. injection Hf as ->. exists r'. split; [exact Hget | exact Hrun].
Defined.

(** X18. When the body of a successful response reads as a text without
    comma, the fetch is fulfilled with [undefined], and the image is given
    the source [data:<mime>;base64,undefined]. *)
Theorem response_without_comma_is_undefined (host : Host) (attrs : list (string * string))
        (r : Realm) (pre post : list XhrEvent) (response : string) :
  let o := implOptions r in
  let src := images.srcOf host attrs in
  util.isDataUrl src = false ->
  request host (util.truthyFlag (implUseCredentials o)) (util.bustedUrl host o src)
    = Reports (pre ++ ReadyStateChange 4 200 response :: post) ->
  Forall running pre ->
  Js.includesChar "," response = false ->
  fst (util.getAndEncode host src r) = Fulfilled None /\
  fst (images.inline host attrs None r)
  = Fulfilled (setAttribute attrs "src" ("data:" ++ util.mimeType src ++ ";base64,undefined")).
Proof.
  cbn zeta. intros Hdata Hev Hpre Hresp.
  assert (Hget : fst (util.getAndEncode host (images.srcOf host attrs) r) = Fulfilled None).
  { apply (getAndEncode_settles host _ r pre _ post Hev Hpre).
    cbn. unfold util.done. cbn. rewrite (split_no_comma response Hresp). reflexivity. }
  split; [exact Hget |].
  unfold images.inline. rewrite Hdata. unfold andThen. cbn [inliner.getter resolve].
  destruct (util.getAndEncode host (images.srcOf host attrs) r) as [s r'].
  cbn [fst] in Hget. subst s. reflexivity.
Qed.

Lemma response_without_comma_is_undefined_witness :
  fst (images.inline emptyBodyHost [("src", "a.png")] None initialRealm)
  = Fulfilled [("src", "data:image/png;base64,undefined")].
Proof.
  apply (response_without_comma_is_undefined emptyBodyHost [("src", "a.png")] initialRealm
                                             [] [] "data:"); try reflexivity.
  constructor.
Defined.

(* ================================================================== *)
(** ** The cloner: what holds of every element of the clone *)

(** A pseudo-element appends created nodes, may add to the [class]
    attribute, and leaves everything else. *)
Lemma clonePseudoElement_keeps host original element clone r :
  exists clone' r' created,
    clonePseudoElement host original element clone r = (Fulfilled clone', r') /\
    wIface clone' = wIface clone /\
    wStyle clone' = wStyle clone /\
    wChildren clone' = (wChildren clone ++ created)%list /\
    forallb isCreated created = true /\
    forall name, String.eqb "class" name = false ->
                 getAttribute (wAttrs clone') name = getAttribute (wAttrs clone) name.
Proof.
  unfold clonePseudoElement.
  destruct (String.eqb _ "" || String.eqb _ "none").
  - exists clone, r, []. rewrite app_nil_r. repeat split; reflexivity.
  - unfold andThen, util.uid. cbn [resolve]. do 2 eexists. eexists [_].
    split; [reflexivity |]. cbn [wIface wStyle wChildren wAttrs].
    repeat split. intros name Hname.
    destruct (Js.truthy (getAttribute (wAttrs clone) "class")); [| reflexivity].
    generalize (Js.toStr (getAttribute (wAttrs clone) "class") ++ " " ++
                "u" ++ util.fourRandomChars host (uidIndex r)
                ++ Js.intToString (N.of_nat (uidIndex r))).
    intro v. induction (wAttrs clone) as [| [n v0] attrs IH]; cbn [setAttribute getAttribute].
    + rewrite Hname. reflexivity.
    + destruct (String.eqb n "class") eqn:E; cbn [getAttribute].
      * apply String.eqb_eq in E. subst n. rewrite Hname. reflexivity.
      * rewrite IH. reflexivity.
Qed.

Lemma clonePseudoElements_keeps host original clone r :
  exists clone' r' created,
    clonePseudoElements host original clone r = (Fulfilled clone', r') /\
    wIface clone' = wIface clone /\
    wStyle clone' = wStyle clone /\
    wChildren clone' = (wChildren clone ++ created)%list /\
    forallb isCreated created = true /\
    forall name, String.eqb "class" name = false ->
                 getAttribute (wAttrs clone') name = getAttribute (wAttrs clone) name.
Proof.
  unfold clonePseudoElements. cbn [fold_left]. unfold andThen at 1 2. cbn [resolve].
  destruct (clonePseudoElement_keeps host original ":before" clone r)
    as (c1 & r1 & l1 & -> & Hi1 & Hs1 & Hc1 & Hl1 & Ha1).
  destruct (clonePseudoElement_keeps host original ":after" c1 r1)
    as (c2 & r2 & l2 & -> & Hi2 & Hs2 & Hc2 & Hl2 & Ha2).
  exists c2, r2, (l1 ++ l2)%list. split; [reflexivity |].
  rewrite Hi2, Hs2, Hc2, Hc1, app_assoc, forallb_app, Hl1, Hl2.
  repeat split; try assumption. intros name Hname. rewrite Ha2, Ha1 by assumption.
  reflexivity.
Qed.

(** What [processClone] makes of the clone of an element. *)
Lemma processClone_element host e kids source iface attrs style children r c r' :
  processClone host (ElementNode e kids)
               (Some (ClonedElement source iface attrs style children)) r
  = (Fulfilled c, r') ->
  exists w created,
    wIface w = iface /\
    wStyle w = copyStyle (computedStyle e) style /\
    wChildren w = (children ++ created)%list /\
    forallb isCreated created = true /\
    (forall name, String.eqb "class" name = false ->
                  getAttribute (wAttrs w) name = getAttribute attrs name) /\
    c = Some (ClonedElement source
                            (wIface (fixSvg (copyUserInput e w)))
                            (wAttrs (fixSvg (copyUserInput e w)))
                            (wStyle (fixSvg (copyUserInput e w)))
                            (wChildren (fixSvg (copyUserInput e w)))).
Proof.
  unfold processClone.
  destruct (clonePseudoElements_keeps
              host e (cloneStyle e (mkWorking iface attrs style children)) r)
    as (w & r1 & created & Hrun & Hi & Hs & Hc & Hl & Ha).
  unfold andThen. rewrite Hrun. cbn [resolve]. intro H. injection H as <- _.
  exists w, created. cbn [cloneStyle wIface wStyle wChildren wAttrs] in *.
  repeat split; assumption.
Qed.

Lemma created_every P l :
  forallb isCreated l = true -> forallb (everyElement P) l = true.
Proof.
  induction l as [| c l IH]; cbn [forallb]; [reflexivity |].
  intro H. apply andb_prop in H as [Hc Hl]. rewrite (IH Hl).
  destruct c; try discriminate; reflexivity.
Qed.

Lemma processed_children P e w children created :
  wChildren w = (children ++ created)%list ->
  forallb isCreated created = true ->
  forallb (everyElement P) children = true ->
  forallb (everyElement P) (wChildren (fixSvg (copyUserInput e w))) = true.
Proof.
  intros Hc Hl Hch. rewrite fixSvg_children.
  assert (H : forallb (everyElement P) (wChildren w) = true)
    by (rewrite Hc, forallb_app, Hch; apply created_every; exact Hl).
  unfold copyUserInput. destruct (interface e); cbn [wChildren]; try exact H.
  destruct (Js.truthyString (value e)); reflexivity.
Qed.

(** The children are cloned one after the other onto the clone of an
    element; there is nothing to clone them onto otherwise. *)
Lemma cloneChildrenInOrder_every (Q : Clone -> bool) f kids :
  Forall (fun kid => forall r c r', f kid r = (Fulfilled (Some c), r') -> Q c = true) kids ->
  forall parent r c r',
    cloneChildrenInOrder f parent kids r = (Fulfilled (Some c), r') ->
    match parent with
    | Some (ClonedElement source iface attrs style children) =>
        exists added,
          c = ClonedElement source iface attrs style (children ++ added)%list /\
          forallb Q added = true
    | Some p => c = p
    | None => False
    end.
Proof.
  induction 1 as [| kid kids Hkid _ IH]; intros parent r c r' H; cbn [cloneChildrenInOrder] in H.
  - injection H as -> _. destruct c; try reflexivity.
    exists []. rewrite app_nil_r. split; reflexivity.
  - apply andThen_fulfilled in H as (childClone & r1 & Hchild & H).
    apply andThen_fulfilled in H as (parent' & r2 & Hparent & H).
    specialize (IH _ _ _ _ H).
    destruct childClone as [k |].
    + destruct parent as [[ | source iface attrs style children | | ] |];
        cbn [appendChild] in Hparent; try discriminate.
      injection Hparent as <- _. destruct IH as (added & -> & Hadded).
      exists (k :: added). rewrite <- app_assoc. split; [reflexivity |].
      cbn [forallb]. rewrite (Hkid _ _ _ Hchild), Hadded. reflexivity.
    + injection Hparent as <- _. exact IH.
Qed.

Lemma cloneChildren_every (Q : Clone -> bool) f kids :
  Forall (fun kid => forall r c r', f kid r = (Fulfilled (Some c), r') -> Q c = true) kids ->
  forall parent r c r',
    cloneChildren f kids parent r = (Fulfilled (Some c), r') ->
    match parent with
    | Some (ClonedElement source iface attrs style children) =>
        exists added,
          c = ClonedElement source iface attrs style (children ++ added)%list /\
          forallb Q added = true
    | Some p => c = p
    | None => False
    end.
Proof.
  intros Hkids parent r c r' H. unfold cloneChildren in H.
  destruct (List.length kids =? 0)%nat.
  - injection H as -> _. destruct c; try reflexivity.
    exists []. rewrite app_nil_r. split; reflexivity.
  - apply (cloneChildrenInOrder_every Q f kids Hkids parent r c r' H).
Qed.

(** The copy of a node before its children are cloned. *)
Lemma makeNodeCopy_shape host node r c r' :
  makeNodeCopy host node r = (Fulfilled (Some c), r') ->
  match node with
  | TextNode data => c = ClonedText node data
  | ElementNode e _ =>
      exists attrs style,
        c = ClonedElement node
                          (match interface e with
                           | HTMLCanvasElement => HTMLImageElement
                           | i => i
                           end)
                          attrs style []
  end.
Proof.
  destruct node as [data | e kids]; cbn [makeNodeCopy].
  - intro H. injection H as <- _. reflexivity.
  - destruct (interface e); try (intro H; injection H as <- _; eauto).
    destruct (toDataURL e) as [uri |]; [| discriminate].
    intro H. apply andThen_fulfilled in H as (image & r1 & _ & H).
    destruct image as [i |]; cbn in H; [| discriminate].
    injection H as <- _. eauto.
Qed.

(** A test that whatever [processClone] returns passes is passed by
    every element of a clone. *)
Lemma cloneNode_every host P filter :
  HoldsAfterProcess host P ->
  forall node root r c r',
    cloneNode host node filter root r = (Fulfilled (Some c), r') ->
    everyElement P c = true.
Proof.
  intros HP node.
  induction node as [data | e kids IH] using Node_induction;
    intros root r c r' H; rewrite cloneNode_unfold in H;
    destruct (negb root && _); try discriminate;
    apply andThen_fulfilled in H as (c1 & r1 & Hcopy & H);
    apply andThen_fulfilled in H as (c2 & r2 & Hkids & H).
  - destruct c1 as [c1 |]; [| cbn in Hkids; injection Hkids as <- _; discriminate].
    apply makeNodeCopy_shape in Hcopy. subst c1.
    cbn in Hkids. injection Hkids as <- _. cbn in H. injection H as <- _. reflexivity.
  - cbn [childNodes] in Hkids.
    destruct c2 as [c2 |]; [| discriminate].
    assert (Hall : Forall (fun kid => forall r c r',
                             cloneNode host kid filter false r = (Fulfilled (Some c), r') ->
                             everyElement P c = true) kids).
    { rewrite Forall_forall in IH |- *. intros kid Hkid r0 c0 r0' H0.
      apply (IH kid Hkid false r0 c0 r0' H0). }
    pose proof (cloneChildren_every (everyElement P) _ kids Hall c1 r1 c2 r2 Hkids) as Hshape.
    destruct c1 as [c1 |]; [| contradiction].
    pose proof Hcopy as Hshape1.
    apply makeNodeCopy_shape in Hshape1 as (attrs & style & ->).
    destruct Hshape as (added & -> & Hadded). cbn [List.app] in H.
    pose proof H as Hprocess.
    apply processClone_element in H as (w & created & Hi & Hs & Hc & Hl & Ha & Hclone).
    injection Hclone as ->. cbn [everyElement].
    rewrite (processed_children P e w added created Hc Hl Hadded), andb_true_r.
    apply (HP e kids _ attrs style added r r1 r2 _ _ _ _ r' Hcopy Hprocess).
Qed.

Lemma copyUserInput_keeps e w :
  wIface (copyUserInput e w) = wIface w /\ wStyle (copyUserInput e w) = wStyle w.
Proof. unfold copyUserInput. destruct (interface e); split; reflexivity. Qed.

Lemma mirrorAttribute_keeps w a :
  wIface (mirrorAttribute w a) = wIface w /\
  wAttrs (mirrorAttribute w a) = wAttrs w.
Proof.
  unfold mirrorAttribute. destruct (getAttribute (wAttrs w) a) as [v |].
  - destruct (Js.truthyString v); split; reflexivity.
  - split; reflexivity.
Qed.

Lemma fixSvg_iface w : wIface (fixSvg w) = wIface w.
Proof.
  unfold fixSvg. destruct (negb (isSVGElement (wIface w))); [reflexivity |].
  cbn [wIface]. destruct (wIface w) eqn:E; cbn [wIface]; try reflexivity.
  cbn [fold_left].
  destruct (mirrorAttribute_keeps
              (mirrorAttribute (mkWorking SVGRectElement
                                          (setAttribute (wAttrs w) "xmlns"
                                                        "http://www.w3.org/2000/svg")
                                          (wStyle w) (wChildren w)) "width") "height")
    as (-> & _).
  destruct (mirrorAttribute_keeps
              (mkWorking SVGRectElement
                         (setAttribute (wAttrs w) "xmlns" "http://www.w3.org/2000/svg")
                         (wStyle w) (wChildren w)) "width") as (-> & _).
  reflexivity.
Qed.

Lemma fixSvg_not_svg w : isSVGElement (wIface w) = false -> fixSvg w = w.
Proof. unfold fixSvg. intros ->. reflexivity. Qed.

Lemma carriesValue_holds host : HoldsAfterProcess host carriesValue.
Proof.
  intros e kids iface attrs style children r0 r1 r iface' attrs' style' children' r' Hcopy H.
  apply makeNodeCopy_shape in Hcopy as (attrs0 & style0 & Hiface).
  injection Hiface as Hiface _ _.
  apply processClone_element in H as (w & created & Hi & _ & _ & _ & _ & Hclone).
  injection Hclone as -> -> -> ->.
  cbn [carriesValue]. destruct (interface e) eqn:E; try reflexivity.
  rewrite fixSvg_not_svg.
  - unfold copyUserInput. rewrite E. cbn [wAttrs].
    rewrite getAttribute_setAttribute. apply String.eqb_refl.
  - destruct (copyUserInput_keeps e w) as (-> & _). rewrite Hi, Hiface. reflexivity.
Qed.

(** X21. In a clone, every element that stands for an input field has the
    value the field holds at that moment for its [value] attribute,
    whatever the attribute was in the document. *)
Theorem clone_carries_input_values (host : Host) (node : Node)
        (filter : option (Node -> bool)) (root : bool) (r r' : Realm) (c : Clone) :
  cloneNode host node filter root r = (Fulfilled (Some c), r') ->
  everyElement carriesValue c = true.
Proof.
  intro H. apply (cloneNode_every host _ filter (carriesValue_holds host) node root r c r' H).
Qed.

Lemma clone_carries_input_values_witness :
  exists c r',
    cloneNode Sample.host sampleForm None true initialRealm = (Fulfilled (Some c), r') /\
    everyElement carriesValue c = true.
Proof.
  destruct (cloneNode Sample.host sampleForm None true initialRealm) as [s r'] eqn:Hrun.
  assert (Hs : s = fst (cloneNode Sample.host sampleForm None true initialRealm))
    by (rewrite Hrun; reflexivity).
  vm_compute in Hs. subst s.
  eexists. exists r'. split; [reflexivity |].
  apply (clone_carries_input_values Sample.host sampleForm None true initialRealm r' _ Hrun).
Defined.

(** What [fixSvg] makes of the clone of an SVG element. *)
Lemma fixSvg_svg w :
  isSVGElement (wIface w) = true ->
  svgFixed (TextNode "") (wIface (fixSvg w)) (wAttrs (fixSvg w)) (wStyle (fixSvg w)) = true.
Proof.
  intro Hsvg. unfold svgFixed. rewrite fixSvg_iface, Hsvg. cbn [negb orb].
  unfold fixSvg. rewrite Hsvg. cbn [negb wIface].
  destruct (wIface w); try discriminate; cbn [wAttrs wStyle].
  - cbn [fold_left].
    set (w1 := mkWorking SVGRectElement
                         (setAttribute (wAttrs w) "xmlns" "http://www.w3.org/2000/svg")
                         (wStyle w) (wChildren w)).
    destruct (mirrorAttribute_keeps w1 "width") as (_ & Ha1).
    destruct (mirrorAttribute_keeps (mirrorAttribute w1 "width") "height") as (_ & Ha2).
    rewrite Ha2, Ha1. cbn [w1 wAttrs]. rewrite getAttribute_setAttribute. reflexivity.
  - rewrite getAttribute_setAttribute. reflexivity.
Qed.

Lemma svgFixed_holds host : HoldsAfterProcess host svgFixed.
Proof.
  intros e kids iface attrs style children r0 r1 r iface' attrs' style' children' r' _ H.
  apply processClone_element in H as (w & created & _ & _ & _ & _ & _ & Hclone).
  injection Hclone as -> -> -> ->.
  destruct (isSVGElement (wIface (copyUserInput e w))) eqn:E.
  - apply (fixSvg_svg _ E).
  - unfold svgFixed. rewrite fixSvg_iface, E. reflexivity.
Qed.

(** X22. In a clone, every SVG element, a rectangle like any other,
    declares the SVG namespace in its [xmlns] attribute, whatever the
    attribute was in the document. *)
Theorem clone_fixes_svg (host : Host) (node : Node)
        (filter : option (Node -> bool)) (root : bool) (r r' : Realm) (c : Clone) :
  cloneNode host node filter root r = (Fulfilled (Some c), r') ->
  everyElement svgFixed c = true.
Proof.
  intro H. apply (cloneNode_every host _ filter (svgFixed_holds host) node root r c r' H).
Qed.

Lemma clone_fixes_svg_witness :
  exists c r',
    cloneNode Sample.host sampleForm None true initialRealm = (Fulfilled (Some c), r') /\
    everyElement svgFixed c = true.
Proof.
  destruct (cloneNode Sample.host sampleForm None true initialRealm) as [s r'] eqn:Hrun.
  assert (Hs : s = fst (cloneNode Sample.host sampleForm None true initialRealm))
    by (rewrite Hrun; reflexivity).
  vm_compute in Hs. subst s.
  eexists. exists r'. split; [reflexivity |].
  apply (clone_fixes_svg Sample.host sampleForm None true initialRealm r' _ Hrun).
Defined.

Lemma makeNodeCopy_canvas host e kids r0 iface attrs style r1 :
  interface e = HTMLCanvasElement ->
  makeNodeCopy host (ElementNode e kids) r0
  = (Fulfilled (Some (ClonedElement (ElementNode e kids) iface attrs style [])), r1) ->
  exists uri,
    toDataURL e = Pixels uri /\
    iface = HTMLImageElement /\
    getAttribute attrs "src" = Some uri /\
    imageLoads host uri = true /\
    String.eqb uri "data:," = false.
Proof.
  intros Hcanvas. cbn [makeNodeCopy]. rewrite Hcanvas.
  destruct (toDataURL e) as [uri |]; [| discriminate].
  unfold andThen, util.makeImage.
  destruct (String.eqb uri "data:,") eqn:Hne; [discriminate |].
  destruct (imageLoads host uri) eqn:Hload; [| discriminate].
  cbn. intro H. injection H as <- <- _ _. exists uri. repeat split; assumption.
Qed.

Lemma snapshotImage_holds host : HoldsAfterProcess host (snapshotImage host).
Proof.
  intros e kids iface attrs style children r0 r1 r iface' attrs' style' children' r' Hcopy H.
  cbn [snapshotImage]. destruct (interface e) eqn:E; try reflexivity.
  apply (makeNodeCopy_canvas host e kids r0 iface attrs style r1 E) in Hcopy
    as (uri & -> & -> & Hsrc & Hload & Hne).
  apply processClone_element in H as (w & created & Hi & _ & _ & _ & Ha & Hclone).
  injection Hclone as -> -> -> ->.
  assert (Hw : fixSvg (copyUserInput e w) = w).
  { rewrite fixSvg_not_svg.
    - unfold copyUserInput. rewrite E. destruct w; reflexivity.
    - destruct (copyUserInput_keeps e w) as (-> & _). rewrite Hi. reflexivity. }
  rewrite Hw, Hi, (Ha "src" eq_refl), Hsrc, String.eqb_refl, Hload, Hne. reflexivity.
Qed.

(** X23. In a clone, every element that stands for a canvas is an image,
    and its source is the snapshot the canvas gave, which is not the
    empty data URL and has loaded. *)
Theorem clone_canvases_are_snapshots (host : Host) (node : Node)
        (filter : option (Node -> bool)) (root : bool) (r r' : Realm) (c : Clone) :
  cloneNode host node filter root r = (Fulfilled (Some c), r') ->
  everyElement (snapshotImage host) c = true.
Proof.
  intro H. apply (cloneNode_every host _ filter (snapshotImage_holds host) node root r c r' H).
Qed.

Lemma clone_canvases_are_snapshots_witness :
  exists c r',
    cloneNode Sample.host sampleDrawing None true initialRealm = (Fulfilled (Some c), r') /\
    everyElement (snapshotImage Sample.host) c = true.
Proof.
  destruct (cloneNode Sample.host sampleDrawing None true initialRealm) as [s r'] eqn:Hrun.
  assert (Hs : s = fst (cloneNode Sample.host sampleDrawing None true initialRealm))
    by (rewrite Hrun; reflexivity).
  vm_compute in Hs. subst s.
  eexists. exists r'. split; [reflexivity |].
  apply (clone_canvases_are_snapshots Sample.host sampleDrawing None true initialRealm r' _
                                      Hrun).
Defined.

(* ================================================================== *)
(** ** The cloner: how cloning settles *)

Lemma andThen_rejected {A B} (p : Promise A) (f : A -> Promise B) r e r' :
  p r = (Rejected e, r') -> andThen p f r = (Rejected e, r').
Proof. unfold andThen. intros ->. reflexivity. Qed.

Lemma cloneChildrenInOrder_settles host filter kids :
  Forall (SettlesByCanvases host filter) kids ->
  forallb snapshotsNotEmpty kids = true ->
  forall source iface attrs style children r,
    match firstSome (map (unloadable host filter false) kids) with
    | Some reason =>
        exists r',
          cloneChildrenInOrder (fun child => cloneNode host child filter false)
                               (Some (ClonedElement source iface attrs style children)) kids r
          = (Rejected reason, r')
    | None =>
        exists added r',
          cloneChildrenInOrder (fun child => cloneNode host child filter false)
                               (Some (ClonedElement source iface attrs style children)) kids r
          = (Fulfilled (Some (ClonedElement source iface attrs style (children ++ added)%list)),
             r')
    end.
Proof.
  induction 1 as [| kid kids Hkid _ IH]; intros Hne source iface attrs style children r.
  - cbn. exists [], r. rewrite app_nil_r. reflexivity.
  - cbn [forallb] in Hne. apply andb_prop in Hne as [Hne_kid Hne_kids].
    specialize (Hkid Hne_kid false r). cbn [map firstSome cloneChildrenInOrder].
    destruct (unloadable host filter false kid) as [uri |].
    + destruct Hkid as (r' & Hrun). exists r'. apply andThen_rejected. exact Hrun.
    + destruct Hkid as (clone & r1 & Hrun).
      destruct clone as [c |].
      * specialize (IH Hne_kids source iface attrs style (children ++ [c])%list r1).
        destruct (firstSome (map (unloadable host filter false) kids)).
        -- destruct IH as (r' & IH). exists r'.
           unfold andThen at 1. rewrite Hrun.
           cbn [appendChild]. unfold andThen at 1. cbn [resolve]. exact IH.
        -- destruct IH as (added & r' & IH). exists (c :: added), r'.
           unfold andThen at 1. rewrite Hrun.
           cbn [appendChild]. unfold andThen at 1. cbn [resolve].
           rewrite IH, <- app_assoc. reflexivity.
      * specialize (IH Hne_kids source iface attrs style children r1).
        destruct (firstSome (map (unloadable host filter false) kids)).
        -- destruct IH as (r' & IH). exists r'.
           unfold andThen at 1. rewrite Hrun. unfold andThen at 1. cbn [resolve]. exact IH.
        -- destruct IH as (added & r' & IH). exists added, r'.
           unfold andThen at 1. rewrite Hrun. unfold andThen at 1. cbn [resolve]. exact IH.
Qed.

Lemma cloneChildren_settles host filter kids :
  Forall (SettlesByCanvases host filter) kids ->
  forallb snapshotsNotEmpty kids = true ->
  forall source iface attrs style children r,
    match firstSome (map (unloadable host filter false) kids) with
    | Some reason =>
        exists r',
          cloneChildren (fun child => cloneNode host child filter false) kids
                        (Some (ClonedElement source iface attrs style children)) r
          = (Rejected reason, r')
    | None =>
        exists added r',
          cloneChildren (fun child => cloneNode host child filter false) kids
                        (Some (ClonedElement source iface attrs style children)) r
          = (Fulfilled (Some (ClonedElement source iface attrs style (children ++ added)%list)),
             r')
    end.
Proof.
  intros Hkids Hne source iface attrs style children r.
  destruct kids as [| kid kids].
  - cbn. exists [], r. rewrite app_nil_r. reflexivity.
  - apply (cloneChildrenInOrder_settles host filter (kid :: kids) Hkids Hne).
Qed.

Lemma cloneNode_settles host filter node : SettlesByCanvases host filter node.
Proof.
  induction node as [data | e kids IH] using Node_induction;
    intros Hne root r; rewrite cloneNode_unfold, excluded_passes; cbn [unloadable];
    destruct (root || passes filter _); cbn [negb];
    try (exists None, r; reflexivity).
  - eexists. eexists. reflexivity.
  - cbn [snapshotsNotEmpty] in Hne. apply andb_prop in Hne as [Hne_e Hne_kids].
    set (below := firstSome (map (unloadable host filter false) kids)).
    set (self := match interface e with
                 | HTMLCanvasElement =>
                     match toDataURL e with
                     | Tainted => Some (DOMException "SecurityError")
                     | Pixels uri => if imageLoads host uri then below else Some (ImageError uri)
                     end
                 | _ => below
                 end).
    assert (Hcopy :
              (exists reason,
                 self = Some reason /\
                 makeNodeCopy host (ElementNode e kids) r = (Rejected reason, r))
              \/ (self = below /\
                  exists iface attrs style,
                    makeNodeCopy host (ElementNode e kids) r
                    = (Fulfilled (Some (ClonedElement (ElementNode e kids) iface attrs style [])),
                       r))).
    { subst self. cbn [makeNodeCopy].
      destruct (interface e);
        try (right; split; [reflexivity | do 3 eexists; reflexivity]).
      destruct (toDataURL e) as [uri |].
      - unfold andThen, util.makeImage. apply negb_true_iff in Hne_e. rewrite Hne_e.
        destruct (imageLoads host uri).
        + right. split; [reflexivity |]. cbn. do 3 eexists. reflexivity.
        + left. eexists. split; reflexivity.
      - left. eexists. split; reflexivity. }
    destruct Hcopy as [(reason & -> & Hcopy) | (-> & iface & attrs & style & Hcopy)].
    + exists r. apply andThen_rejected. exact Hcopy.
    + subst below.
      pose proof (cloneChildren_settles host filter kids IH Hne_kids
                    (ElementNode e kids) iface attrs style [] r) as Hkids.
      cbn [childNodes].
      destruct (firstSome (map (unloadable host filter false) kids)) as [uri |].
      * destruct Hkids as (r' & Hkids). exists r'.
        unfold andThen at 1. rewrite Hcopy. apply andThen_rejected. exact Hkids.
      * destruct Hkids as (added & r1 & Hkids).
        destruct (processClone_outline host e kids (ElementNode e kids)
                                        iface attrs style ([] ++ added)%list r1)
          as (i' & a' & s' & c' & r' & Hp & _).
        eexists. exists r'.
        unfold andThen at 1. rewrite Hcopy. unfold andThen at 1. rewrite Hkids. exact Hp.
Qed.

(** X24. When no canvas gives the empty data URL, cloning settles by the
    canvases alone. It is rejected by the first canvas, in document order
    and among the nodes the filter keeps, that cannot be copied: with the
    [SecurityError] that [toDataURL()] throws when the canvas may not be
    read, with the error of the image when the snapshot does not load; and
    the conversion is rejected with it. It is fulfilled when every such
    canvas gives a snapshot that loads. *)
Theorem cloning_settles_by_canvases (host : Host) (font : string) (node : Node)
        (options : Options.t) (r : Realm) :
  snapshotsNotEmpty node = true ->
  match unloadable host (Options.filter options) true node with
  | Some reason =>
      fst (cloneNode host node (Options.filter options) true r) = Rejected reason /\
      fst (toSvg host font node options r) = Rejected reason /\
      fst (draw host font node options r) = Rejected reason
  | None =>
      exists clone, fst (cloneNode host node (Options.filter options) true r) = Fulfilled clone
  end.
Proof.
  intro Hne.
  pose proof (cloneNode_settles host (Options.filter options) node Hne true r) as H.
  pose proof (cloneNode_settles host (Options.filter options) node Hne true
                                (copyOptions options r)) as H'.
  destruct (unloadable host (Options.filter options) true node) as [reason |].
  - destruct H as (r1 & H). destruct H' as (r2 & H'). rewrite H.
    assert (Hsvg : toSvg host font node options r = (Rejected reason, r2)).
    { unfold toSvg. apply andThen_rejected. exact H'. }
    repeat split.
    + rewrite Hsvg. reflexivity.
    + unfold draw. rewrite (andThen_rejected _ _ _ _ _ Hsvg). reflexivity.
  - destruct H as (clone & r1 & H). exists clone. rewrite H. reflexivity.
Qed.

(** The drawing on a host where no image loads, and a drawing whose second
    canvas may not be read. *)
Lemma cloning_settles_by_canvases_witness :
  fst (toSvg brokenImagesHost "" sampleDrawing Options.none initialRealm)
  = Rejected (ImageError "data:image/png;base64,iVBORw0KGgo=") /\
  fst (toSvg Sample.host "" taintedDrawing Options.none initialRealm)
  = Rejected (DOMException "SecurityError").
Proof.
  split.
  - exact (proj1 (proj2 (cloning_settles_by_canvases brokenImagesHost "" sampleDrawing
                                                     Options.none initialRealm eq_refl))).
  - exact (proj1 (proj2 (cloning_settles_by_canvases Sample.host "" taintedDrawing
                                                     Options.none initialRealm eq_refl))).
Defined.

Lemma resolveAll_no_sheets host r :
  styleSheets host = [] -> fontFaces.resolveAll host r = (Fulfilled "", r).
Proof.
  intro H. unfold fontFaces.resolveAll, fontFaces.readAll, andThen. rewrite H. reflexivity.
Qed.

(** X25. A canvas whose snapshot is the empty data URL gets no clone.
    Without children, cloning it is fulfilled with nothing, and nothing
    else happens; with a text below it, there is nothing to append the
    clone of the text to, and cloning is rejected with a type error; and
    as the root of a conversion, there is nothing to append the style
    sheet of the fonts to, and the conversion is rejected likewise. *)
Theorem empty_canvas_has_no_clone (host : Host) (font : string) (e : Element)
        (filter : option (Node -> bool)) (options : Options.t) (data : string)
        (rest : list Node) (r : Realm) :
  interface e = HTMLCanvasElement ->
  toDataURL e = Pixels "data:," ->
  passes filter (TextNode data) = true ->
  styleSheets host = [] ->
  (forall root, cloneNode host (ElementNode e []) filter root r = (Fulfilled None, r)) /\
  (exists message,
     cloneNode host (ElementNode e (TextNode data :: rest)) filter true r
     = (Rejected (TypeError message), r)) /\
  (exists message,
     toSvg host font (ElementNode e []) options r
     = (Rejected (TypeError message), copyOptions options r)).
Proof.
  intros Hcanvas Hempty Hpass Hsheets.
  assert (Hcopy : forall kids r0,
             makeNodeCopy host (ElementNode e kids) r0 = (Fulfilled None, r0)).
  { intros kids r0. cbn [makeNodeCopy]. rewrite Hcanvas, Hempty. reflexivity. }
  assert (Hleaf : forall flt root r0,
             cloneNode host (ElementNode e []) flt root r0 = (Fulfilled None, r0)).
  { intros flt root r0. rewrite cloneNode_unfold. destruct (negb root && _); [reflexivity |].
    unfold andThen at 1. rewrite Hcopy. reflexivity. }
  split; [intro root; apply Hleaf |]. split.
  - eexists. rewrite cloneNode_unfold. cbn [negb andb].
    unfold andThen at 1. rewrite Hcopy. cbn [childNodes].
    apply andThen_rejected. unfold cloneChildren. cbn [List.length Nat.eqb cloneChildrenInOrder].
    rewrite cloneNode_unfold. cbn [negb andb]. unfold passes in Hpass.
    assert (Hex : match filter with Some f => negb (f (TextNode data)) | None => false end
                  = false) by (destruct filter; [rewrite Hpass |]; reflexivity).
    rewrite Hex. cbn. reflexivity.
  - eexists. unfold toSvg. unfold andThen at 1. rewrite Hleaf.
    apply andThen_rejected. unfold embedFonts, andThen.
    rewrite (resolveAll_no_sheets host _ Hsheets). reflexivity.
Qed.

Lemma empty_canvas_has_no_clone_witness :
  cloneNode Sample.host (ElementNode emptyCanvas []) None false initialRealm
  = (Fulfilled None, initialRealm) /\
  exists message,
    cloneNode Sample.host (ElementNode emptyCanvas [TextNode "fallback"]) None true
              initialRealm
    = (Rejected (TypeError message), initialRealm).
Proof.
  destruct (empty_canvas_has_no_clone Sample.host "" emptyCanvas None Options.none
                                      "fallback" [] initialRealm)
    as (Hleaf & Htext & _); try reflexivity.
  split; [apply Hleaf | exact Htext].
Defined.

(* ================================================================== *)
(** ** [draw]: the image of the markup *)

(** X26. What [toSvg] is fulfilled with is a data URL, and never the
    empty one: [draw] always has an image to draw.  When that image
    loads, the canvas is returned with the image drawn on it at the
    scale; when it does not, [draw] is rejected with the error of the
    image. *)
Theorem draw_draws_the_markup (host : Host) (font : string) (e : Element) (kids : list Node)
        (options : Options.t) (r r1 : Realm) (uri : string) :
  toSvg host font (ElementNode e kids) options r = (Fulfilled uri, r1) ->
  let scale := match Options.scale options with Some k => k | None => 1%float end in
  let image :=
    util.mkImage uri (if util.truthyFlag (implUseCredentials (implOptions r1))
                      then Some "use-credentials" else None) in
  util.isDataUrl uri = true /\
  uri <> "data:," /\
  draw host font (ElementNode e kids) options r
  = if imageLoads host uri
    then (Fulfilled (mkCanvas (canvasWidth (newCanvas options e scale))
                              (canvasHeight (newCanvas options e scale))
                              (fillStyle (newCanvas options e scale))
                              (Some (image, scale))), r1)
    else (Rejected (ImageError uri), r1).
Proof.
  intro H. cbn zeta.
  destruct (toSvg_fulfilled host font e kids options r uri r1 H) as (xhtml & Huri).
  assert (Hne : String.eqb uri "data:," = false) by (rewrite Huri; reflexivity).
  split; [rewrite Huri; reflexivity |]. split; [apply String.eqb_neq; exact Hne |].
  unfold draw, andThen. rewrite H. unfold util.makeImage. rewrite Hne.
  destruct (imageLoads host uri); reflexivity.
Qed.

Lemma draw_draws_the_markup_witness :
  exists uri r1,
    toSvg Sample.host "" (ElementNode Sample.box []) Options.none initialRealm
    = (Fulfilled uri, r1) /\
    draw Sample.host "" (ElementNode Sample.box []) Options.none initialRealm
    = (Fulfilled (mkCanvas 202%Z 104%Z None (Some (util.mkImage uri None, 1%float))),
       r1).
Proof.
  destruct (toSvg Sample.host "" (ElementNode Sample.box []) Options.none initialRealm)
    as [s r1] eqn:Hrun.
  assert (Hs : s = fst (toSvg Sample.host "" (ElementNode Sample.box []) Options.none
                              initialRealm)) by (rewrite Hrun; reflexivity).
  assert (Hr : r1 = snd (toSvg Sample.host "" (ElementNode Sample.box []) Options.none
                               initialRealm)) by (rewrite Hrun; reflexivity).
  vm_compute in Hs. vm_compute in Hr. subst s r1.
  eexists. eexists. split; [reflexivity |].
  destruct (draw_draws_the_markup Sample.host "" Sample.box [] Options.none initialRealm
                                  _ _ Hrun) as (_ & _ & Hdraw).
  rewrite Hdraw. reflexivity.
Defined.

(* ================================================================== *)
(** ** [toJpeg]: the quality *)

Lemma draw_ignores_quality host font node options quality :
  draw host font node (withQuality quality options) = draw host font node options.
Proof. reflexivity. Qed.

(** X27. [toJpeg] encodes at the quality of the options only when that
    is a number other than zero and [NaN]: a quality of zero, like none
    at all, gives the encoding at quality 1. *)
Theorem toJpeg_falsy_quality (host : Host) (encode : Encoder) (font : string) (node : Node)
        (options : Options.t) (quality : Js.number) (r : Realm) :
  Js.truthyNumber quality = false ->
  toJpeg host encode font node (withQuality (Some quality) options) r
  = toJpeg host encode font node (withQuality (Some 1%float) options) r /\
  toJpeg host encode font node (withQuality None options) r
  = toJpeg host encode font node (withQuality (Some 1%float) options) r.
Proof.
  intro H. unfold toJpeg. rewrite !draw_ignores_quality.
  cbn [withQuality Options.quality orElse]. rewrite H. split; reflexivity.
Qed.

Lemma toJpeg_falsy_quality_witness :
  fst (toJpeg Sample.host describing "" (ElementNode Sample.box [])
              (withQuality (Some 0%float) Options.none) initialRealm)
  = Fulfilled "image/jpeg;q=1".
Proof.
  etransitivity.
  - apply (f_equal fst).
    apply (toJpeg_falsy_quality Sample.host describing "" (ElementNode Sample.box [])
                                Options.none 0%float initialRealm eq_refl).
  - vm_compute. reflexivity.
Defined.

(* ================================================================== *)
(** ** The cloner: both pseudo-elements of an element with a class *)

Lemma nameAt_inj host i j : nameAt host i = nameAt host j -> i = j.
Proof.
  unfold nameAt. intro H. injection H as H.
  apply append_same_length in H; [| now rewrite !length_fourRandomChars].
  apply intToString_inj in H. lia.
Qed.

Lemma truthy_some c : c <> "" -> Js.truthy (Some c) = true.
Proof. destruct c; [contradiction | reflexivity]. Qed.

(** X28. For an element that has a class and whose [:before] and
    [:after] both have content, two rules are appended to the clone, in
    this order, under two different generated names, and both names are
    added to the class of the clone, after the class it had. *)
Theorem pseudo_elements_of_a_class (host : Host) (original : Element) (clone : Working)
        (r : Realm) (class : string) :
  getAttribute (wAttrs clone) "class" = Some class ->
  class <> "" ->
  pseudoContent original ":before" <> "" ->
  pseudoContent original ":before" <> "none" ->
  pseudoContent original ":after" <> "" ->
  pseudoContent original ":after" <> "none" ->
  let before := nameAt host (uidIndex r) in
  let after := nameAt host (S (uidIndex r)) in
  exists clone' r',
    clonePseudoElements host original clone r = (Fulfilled clone', r') /\
    getAttribute (wAttrs clone') "class" = Some (class ++ " " ++ before ++ " " ++ after) /\
    wChildren clone'
    = (wChildren clone
         ++ [StyleElement (formatPseudoElementStyle before ":before" (computedBefore original));
             StyleElement (formatPseudoElementStyle after ":after" (computedAfter original))])%list
    /\ before <> after
    /\ uidIndex r' = S (S (uidIndex r)).
Proof.
  intros Hclass Hne Hb1 Hb2 Ha1 Ha2. cbn zeta.
  unfold clonePseudoElements. cbn [fold_left]. unfold andThen at 1 2. cbn [resolve].
  rewrite (clonePseudoElement_appends host original ":before" clone r Hb1 Hb2).
  rewrite (clonePseudoElement_appends host original ":after" _ _ Ha1 Ha2).
  cbn [wAttrs wIface wStyle wChildren uidIndex].
  rewrite Hclass, (truthy_some class Hne). cbn [Js.toStr].
  rewrite getAttribute_setAttribute.
  fold (nameAt host (uidIndex r)). fold (nameAt host (S (uidIndex r))).
  rewrite truthy_some by (destruct class; discriminate).
  cbn [Js.toStr]. rewrite setAttribute_twice.
  do 2 eexists. split; [reflexivity |]. cbn [wAttrs wChildren uidIndex].
  rewrite getAttribute_setAttribute. repeat split.
  - rewrite !append_assoc. reflexivity.
  - rewrite <- app_assoc. reflexivity.
  - intro H. apply nameAt_inj in H. lia.
Qed.

Lemma pseudo_elements_of_a_class_witness :
  exists clone' r',
    clonePseudoElements Sample.host decorated (mkWorking HTMLElement [("class", "note")] [] [])
                        initialRealm
    = (Fulfilled clone', r') /\
    getAttribute (wAttrs clone') "class" = Some "note u00000 u00001" /\
    wChildren clone'
    = [StyleElement ".u00000::before{content: '[';}";
       StyleElement ".u00001::after{content: ']';}"].
Proof.
  destruct (pseudo_elements_of_a_class
              Sample.host decorated (mkWorking HTMLElement [("class", "note")] [] [])
              initialRealm "note")
    as (clone' & r' & Hrun & Hclass & Hchildren & _); try discriminate; try reflexivity.
  exists clone', r'. split; [exact Hrun |]. split; [exact Hclass | exact Hchildren].
Defined.

(* ================================================================== *)
(** ** [fontFaces]: the rules that are read *)




(* ================================================================== *)
(** ** The entry points: the root *)

(** X30. A conversion whose root is not an element (a text, a comment) is
    never fulfilled, whatever the options: there is no clone to append
    the style sheet of the fonts to, and no box to measure. *)
Theorem conversion_needs_an_element (host : Host) (font : string) (data : string)
        (options : Options.t) (r : Realm) :
  (forall uri r', toSvg host font (TextNode data) options r <> (Fulfilled uri, r')) /\
  (forall canvas r', draw host font (TextNode data) options r <> (Fulfilled canvas, r')).
Proof.
  split.
  - apply toSvg_text_root.
  - intros canvas r' H. unfold draw in H.
    apply andThen_fulfilled in H as (uri & r1 & H & _).
    apply (toSvg_text_root host font data options r uri r1 H).
Qed.

(* ================================================================== *)
(** ** The shared configuration *)

Lemma keeps_resolve {A} (a : A) : KeepsConfiguration (resolve a).
Proof. intro r. reflexivity. Qed.

Lemma keeps_reject {A} (reason : Reason) : KeepsConfiguration (@reject A reason).
Proof. intro r. reflexivity. Qed.

Lemma keeps_andThen {A B} (p : Promise A) (f : A -> Promise B) :
  KeepsConfiguration p -> (forall a, KeepsConfiguration (f a)) ->
  KeepsConfiguration (andThen p f).
Proof.
  intros Hp Hf r. unfold andThen. specialize (Hp r).
  destruct (p r) as [[a | reason |] r1]; cbn [snd] in *; [rewrite Hf |..]; exact Hp.
Qed.

Lemma keeps_promiseAll {A} (ps : list (Promise A)) :
  Forall KeepsConfiguration ps -> KeepsConfiguration (promiseAll ps).
Proof.
  induction 1 as [| p ps Hp _ IH]; intro r; [reflexivity |].
  cbn [promiseAll]. specialize (Hp r). destruct (p r) as [first r1].
  specialize (IH r1). destruct (promiseAll ps r1) as [others r2].
  cbn [snd] in *. congruence.
Qed.

Lemma keeps_fold {A B} (step : B -> A -> Promise A) (l : list B) :
  (forall b a, KeepsConfiguration (step b a)) ->
  forall p, KeepsConfiguration p ->
            KeepsConfiguration (fold_left (fun done b => andThen done (step b)) l p).
Proof.
  intro Hstep. induction l as [| b l IH]; intros p Hp; [exact Hp |].
  cbn [fold_left]. apply IH. apply keeps_andThen; [exact Hp | apply Hstep].
Qed.

Ltac keeps :=
  repeat first
    [ apply keeps_resolve
    | apply keeps_reject
    | apply keeps_andThen; [| intro ] ].

Lemma keeps_uid host : KeepsConfiguration (util.uid host).
Proof. intro r. reflexivity. Qed.

Lemma keeps_makeImage host uri : KeepsConfiguration (util.makeImage host uri).
Proof.
  intro r. unfold util.makeImage.
  destruct (String.eqb uri "data:,"); [reflexivity |].
  destruct (imageLoads host uri); reflexivity.
Qed.

(** A fetch reads the configuration and does not write it. *)
Lemma keeps_getAndEncode host url : KeepsConfiguration (util.getAndEncode host url).
Proof.
  intro r. unfold util.getAndEncode.
  destruct (request host _ _) as [name | events]; [reflexivity |].
  destruct (fst _); reflexivity.
Qed.

Lemma keeps_inline host text url baseUrl :
  KeepsConfiguration (inliner.inline host text url baseUrl None).
Proof. unfold inliner.inline. keeps. apply keeps_getAndEncode. Qed.

Lemma keeps_inlineAll host text baseUrl :
  KeepsConfiguration (inliner.inlineAll host text baseUrl None).
Proof.
  unfold inliner.inlineAll. destruct (negb _); [apply keeps_resolve |].
  apply keeps_andThen; [apply keeps_resolve | intro urls].
  apply (keeps_fold (fun url text' => inliner.inline host text' url baseUrl None)).
  - intros url text'. apply keeps_inline.
  - apply keeps_resolve.
Qed.

Lemma keeps_appendChild parent child : KeepsConfiguration (appendChild parent child).
Proof. intro r. destruct parent as [[] |]; reflexivity. Qed.

Lemma keeps_makeNodeCopy host node : KeepsConfiguration (makeNodeCopy host node).
Proof.
  destruct node as [data | e kids]; cbn [makeNodeCopy]; [apply keeps_resolve |].
  destruct (interface e); try apply keeps_resolve.
  destruct (toDataURL e); [| apply keeps_reject].
  keeps. apply keeps_makeImage.
Qed.

Lemma keeps_cloneChildrenInOrder (cloneChild : Node -> Promise (option Clone)) kids :
  Forall (fun kid => KeepsConfiguration (cloneChild kid)) kids ->
  forall parent, KeepsConfiguration (cloneChildrenInOrder cloneChild parent kids).
Proof.
  induction 1 as [| kid kids Hkid _ IH]; intro parent; cbn [cloneChildrenInOrder].
  - apply keeps_resolve.
  - apply keeps_andThen; [exact Hkid | intro childClone].
    apply keeps_andThen; [| intro parent'; apply IH].
    destruct childClone; [apply keeps_appendChild | apply keeps_resolve].
Qed.

Lemma keeps_clonePseudoElement host original element clone :
  KeepsConfiguration (clonePseudoElement host original element clone).
Proof.
  unfold clonePseudoElement. destruct (_ || _); [apply keeps_resolve |].
  keeps. apply keeps_uid.
Qed.

Lemma keeps_processClone host original clone :
  KeepsConfiguration (processClone host original clone).
Proof.
  unfold processClone.
  destruct clone as [[] |]; try apply keeps_resolve.
  destruct original as [data | e kids]; [apply keeps_reject |].
  apply keeps_andThen; [| intro w; apply keeps_resolve].
  unfold clonePseudoElements. cbn [fold_left].
  keeps; apply keeps_clonePseudoElement.
Qed.

(** Cloning does not write the configuration. *)
Lemma keeps_cloneNode host filter node :
  forall root, KeepsConfiguration (cloneNode host node filter root).
Proof.
  induction node as [data | e kids IH] using Node_induction; intro root;
    rewrite cloneNode_unfold; destruct (negb root && _); try apply keeps_resolve;
    (apply keeps_andThen; [apply keeps_makeNodeCopy | intro clone]);
    (apply keeps_andThen; [| intro clone'; apply keeps_processClone]).
  unfold cloneChildren. destruct (_ =? _)%nat; [apply keeps_resolve |].
  apply keeps_cloneChildrenInOrder. cbn [childNodes].
  rewrite Forall_forall in IH |- *. intros kid Hkid. apply (IH kid Hkid false).
Qed.

Lemma getCssRules_configuration sheets :
  forall r, implOptions (snd (fontFaces.getCssRules sheets r)) = implOptions r.
Proof.
  induction sheets as [| sheet sheets IH]; intro r; [reflexivity |].
  cbn [fontFaces.getCssRules].
  destruct (hasOwnCssRules sheet); [destruct (cssRules sheet) as [rules | e] |];
    match goal with
    | |- context [fontFaces.getCssRules sheets ?r0] =>
        specialize (IH r0); destruct (fontFaces.getCssRules sheets r0) as [others r2]
    end; exact IH.
Qed.

Lemma keeps_resolveAll host : KeepsConfiguration (fontFaces.resolveAll host).
Proof.
  unfold fontFaces.resolveAll.
  apply keeps_andThen.
  - intro r. unfold fontFaces.readAll.
    pose proof (getCssRules_configuration (styleSheets host) r) as H.
    destruct (fontFaces.getCssRules (styleSheets host) r) as [rules r']. exact H.
  - intro webFonts. apply keeps_andThen; [| intro css; apply keeps_resolve].
    apply keeps_promiseAll. apply Forall_map, Forall_forall.
    intros rule _. apply keeps_inlineAll.
Qed.

Lemma keeps_embedFonts host node : KeepsConfiguration (embedFonts host node).
Proof.
  unfold embedFonts. apply keeps_andThen; [apply keeps_resolveAll | intro css].
  apply keeps_appendChild.
Qed.

Lemma keeps_images_inline host attrs : KeepsConfiguration (images.inline host attrs None).
Proof.
  unfold images.inline. destruct (util.isDataUrl _); [apply keeps_resolve |].
  keeps. apply keeps_getAndEncode.
Qed.

Lemma keeps_inlineBackground host style :
  KeepsConfiguration (images.inlineBackground host style).
Proof.
  unfold images.inlineBackground. destruct (negb _); [apply keeps_resolve |].
  keeps. apply keeps_inlineAll.
Qed.

Lemma keeps_images_inlineAll host node : KeepsConfiguration (images.inlineAll host node).
Proof.
  induction node as [original data | original iface attrs style children IH | text | html]
    using Clone_induction; cbn [images.inlineAll]; try apply keeps_resolve.
  apply keeps_andThen; [apply keeps_inlineBackground | intro style'].
  destruct iface;
    try (apply keeps_andThen;
         [apply keeps_promiseAll, Forall_map; exact IH | intro l; apply keeps_resolve]).
  apply keeps_andThen; [apply keeps_images_inline | intro attrs'; apply keeps_resolve].
Qed.

Lemma keeps_inlineImages host node : KeepsConfiguration (inlineImages host node).
Proof.
  destruct node as [n |]; cbn [inlineImages]; [| apply keeps_resolve].
  keeps. apply keeps_images_inlineAll.
Qed.

Lemma keeps_withStyle clone f : KeepsConfiguration (withStyle clone f).
Proof. intro r. destruct clone as [[] |]; reflexivity. Qed.

Lemma keeps_applyOptions host options clone :
  KeepsConfiguration (applyOptions host options clone).
Proof.
  unfold applyOptions.
  apply keeps_andThen;
    [destruct (Options.bgcolor options) as [c |];
     [destruct (Js.truthyString c); [apply keeps_withStyle |] |]; apply keeps_resolve
    | intro c1].
  apply keeps_andThen;
    [destruct (Options.width options) as [w |];
     [destruct (Js.truthyNumber w); [apply keeps_withStyle |] |]; apply keeps_resolve
    | intro c2].
  apply keeps_andThen;
    [destruct (Options.height options) as [h |];
     [destruct (Js.truthyNumber h); [apply keeps_withStyle |] |]; apply keeps_resolve
    | intro c3].
  destruct (Options.style options) as [patch |]; [| apply keeps_resolve].
  apply (keeps_fold (fun property clone =>
                       withStyle clone (fun s => setProperty s (fst property)
                                                             (snd property) ""))).
  - intros property c. apply keeps_withStyle.
  - apply keeps_resolve.
Qed.

Lemma keeps_makeSvgDataUri host font node width height :
  KeepsConfiguration (makeSvgDataUri host font node width height).
Proof.
  unfold makeSvgDataUri. destruct node as [[] |]; try apply keeps_reject. keeps.
Qed.

(** What [copyOptions] leaves in the configuration. *)
Lemma copyOptions_configuration options r :
  implOptions (copyOptions options r)
  = mkImplOptions
      (Options.imagePlaceholder options)
      (Some (match Options.cacheBust options with Some b => b | None => false end))
      (Some (match Options.useCredentials options with Some b => b | None => false end)).
Proof.
  unfold copyOptions. cbn.
  destruct (Options.imagePlaceholder options), (Options.cacheBust options),
    (Options.useCredentials options); reflexivity.
Qed.

(** However [toSvg] settles, the configuration it leaves is the one
    [copyOptions] wrote when it began. *)
Lemma toSvg_configuration host font node options r :
  implOptions (snd (toSvg host font node options r)) = implOptions (copyOptions options r).
Proof.
  unfold toSvg.
  match goal with
  | |- implOptions (snd (?p (copyOptions options r))) = _ =>
      assert (H : KeepsConfiguration p); [| apply H]
  end.
  apply keeps_andThen; [apply keeps_cloneNode | intro c1].
  apply keeps_andThen; [apply keeps_embedFonts | intro c2].
  apply keeps_andThen; [apply keeps_inlineImages | intro c3].
  apply keeps_andThen; [apply keeps_applyOptions | intro c4].
  destruct node; [apply keeps_reject | apply keeps_makeSvgDataUri].
Qed.

Lemma draw_configuration host font node options r :
  implOptions (snd (draw host font node options r)) = implOptions (copyOptions options r).
Proof.
  unfold draw, andThen.
  pose proof (toSvg_configuration host font node options r) as H.
  destruct (toSvg host font node options r) as [[uri | reason |] r1]; cbn [snd] in *;
    try exact H.
  pose proof (keeps_makeImage host uri r1) as Himage.
  destruct (util.makeImage host uri r1) as [[image | reason |] r2]; cbn [snd] in *;
    try congruence.
  destruct node; unfold resolve, reject; cbn [snd]; congruence.
Qed.

(** C9. A conversion starts by assigning each of the three shared fields
    from its own options when the option is defined and from the default
    otherwise (no placeholder, no cache busting, no credentials), whatever
    the fields held before, and nothing it does afterwards writes them:
    cloning, embedding the fonts, inlining the images, applying the
    options, serializing and every fetch leave the configuration as they
    find it.  So the configuration [toSvg], [draw] and [toJpeg] work with
    and leave behind, however they settle, holds exactly these values,
    and what they do does not depend on the configuration a previous call
    left. *)
Theorem copyOptions_overwrites (host : Host) (encode : Encoder) (font : string)
        (node : Node) (options : Options.t) (r : Realm) :
  let configured :=
    mkImplOptions
      (Options.imagePlaceholder options)
      (Some (match Options.cacheBust options with Some b => b | None => false end))
      (Some (match Options.useCredentials options with Some b => b | None => false end)) in
  let started := copyOptions options r in
  (implImagePlaceholder (implOptions started)
     = match Options.imagePlaceholder options with Some p => Some p | None => None end /\
   implCacheBust (implOptions started)
     = Some (match Options.cacheBust options with Some b => b | None => false end) /\
   implUseCredentials (implOptions started)
     = Some (match Options.useCredentials options with Some b => b | None => false end)) /\
  (console started = console r /\ uidIndex started = uidIndex r) /\
  (implOptions (snd (toSvg host font node options r)) = configured /\
   implOptions (snd (draw host font node options r)) = configured /\
   implOptions (snd (toJpeg host encode font node options r)) = configured) /\
  (forall root, KeepsConfiguration (cloneNode host node (Options.filter options) root)) /\
  (forall clone, KeepsConfiguration (embedFonts host clone)) /\
  (forall clone, KeepsConfiguration (inlineImages host clone)) /\
  (forall clone, KeepsConfiguration (applyOptions host options clone)) /\
  (forall clone width height,
     KeepsConfiguration (makeSvgDataUri host font clone width height)) /\
  (forall url, KeepsConfiguration (util.getAndEncode host url)) /\
  (forall previous : ImplOptions,
     copyOptions options (mkRealm previous (console r) (uidIndex r)) = started) /\
  (forall previous : ImplOptions,
     toSvg host font node options (mkRealm previous (console r) (uidIndex r))
       = toSvg host font node options r) /\
  (forall previous : ImplOptions,
     draw host font node options (mkRealm previous (console r) (uidIndex r))
       = draw host font node options r) /\
  (forall previous : ImplOptions,
     toJpeg host encode font node options (mkRealm previous (console r) (uidIndex r))
       = toJpeg host encode font node options r).
Proof.
  cbn zeta.
  pose proof (copyOptions_configuration options r) as Hstart.
  split.
  { rewrite Hstart. cbn. destruct (Options.imagePlaceholder options); repeat split. }
  split; [split; reflexivity |].
  split.
  { rewrite toSvg_configuration, draw_configuration, Hstart.
    split; [reflexivity |]. split; [reflexivity |].
    unfold toJpeg, andThen.
    pose proof (draw_configuration host font node options r) as H.
    destruct (draw host font node options r) as [[canvas | reason |] r1]; cbn [snd] in *;
      rewrite <- Hstart; exact H. }
  split; [intro root; apply keeps_cloneNode |].
  split; [intro clone; apply keeps_embedFonts |].
  split; [intro clone; apply keeps_inlineImages |].
  split; [intro clone; apply keeps_applyOptions |].
  split; [intros clone width height; apply keeps_makeSvgDataUri |].
  split; [intro url; apply keeps_getAndEncode |].
  repeat split.
Qed.
